(** * memory-vector-store: the vector index ([src/core/vector-store.ts])

    A shallow embedding of the [VectorStore] class, of the [Locker] and
    [debounce] helpers it relies on ([src/shared/util.ts]), of the two
    factories ([src/core/node.ts], [src/core/browser.ts]) and the two
    storage providers ([src/storage]), and of the parts of the JavaScript
    runtime their behaviour depends on: IEEE-754 binary64 numbers,
    insertion-ordered [Map]s, [Array.prototype.slice],
    [Array.prototype.sort], [Math.min] and [Math.max].

    Conventions.
    - A JavaScript [number] is a primitive binary64 [float].
    - A [Map<string, V>] is an association list in insertion order.
    - A function that may throw returns a [Completion]; for an [async]
      function a [Throw] is a rejected promise.
    - Every [await] is run to completion without interleaving other calls;
      the only suspension that is observable in the model is the wait on the
      save lock ([Suspended]).
    - Objects with identity (the instances, the shared states, the promises
      of the lockers) live in a [World]; a reference is a key into it.
    - A storage provider is taken at its interface type: [load] gives an
      array of records or throws.  What the code makes of a value of
      another shape (a file that [save] did not write) is not modelled.
    - [console] output is not modelled. *)

From Stdlib Require Import Floats ZArith NArith Bool Lia.
From Stdlib Require Import Sorting.Sorted Sorting.Permutation.
From stdpp Require Import base option list gmap strings.

Local Open Scope string_scope.
Local Open Scope list_scope.

(** ** JavaScript values *)

(** Values thrown by the code or by its collaborators. *)
Inductive Exception : Type :=
  | JsError (message : string)
  | JsTypeError (message : string)
  | Thrown (payload : string).

Inductive Completion (A : Type) : Type :=
  | Normal (a : A)
  | Throw (e : Exception).
Arguments Normal {A} a.
Arguments Throw {A} e.

Definition bindC {A B : Type} (c : Completion A) (k : A -> Completion B) : Completion B :=
  match c with
  | Normal a => k a
  | Throw e => Throw e
  end.

Notation "'let!' x ':=' c 'in' k" := (bindC c (fun x => k))
  (at level 10, x name, c at level 100, k at level 200).

(** The primitive values an embedding function can put in an array, and the
    values it can return.  Strings and objects are left out: their numeric
    conversion is not needed by any statement below. *)
Inductive JsPrim : Type :=
  | JsUndefined
  | JsNull
  | JsBool (b : bool)
  | JsNumber (x : float).

Inductive JsValue : Type :=
  | JsPrimitive (p : JsPrim)
  | JsArray (elems : list JsPrim).

(** [ToNumber] of ECMAScript on the primitives above. *)
Definition ToNumber (p : JsPrim) : float :=
  match p with
  | JsUndefined => nan
  | JsNull => zero
  | JsBool true => one
  | JsBool false => zero
  | JsNumber x => x
  end.

(** [a[i]]: reading past the end of an array gives [undefined]. *)
Definition index (a : list JsPrim) (i : nat) : JsPrim := nth i a JsUndefined.

Definition Array_isArray (v : JsValue) : bool :=
  match v with
  | JsArray _ => true
  | JsPrimitive _ => false
  end.

(** [x || d] on numbers: [0], [-0] and [NaN] are falsy. *)
Definition number_or (x d : float) : float :=
  if (PrimFloat.eqb x zero || is_nan x)%bool then d else x.

(** A non-negative integer as a [number] (rounded to nearest when it does
    not fit in 53 bits). *)
Definition number_of_N (n : N) : float :=
  SF2Prim (binary_normalize prec emax (Z.of_N n) 0 false).

(** ** [ToIntegerOrInfinity] and [Array.prototype.slice] *)

Inductive IntegerOrInfinity : Type :=
  | NegInfinity
  | Finite (z : Z)
  | PosInfinity.

(** Truncation towards zero of a number; [NaN] gives [0]. *)
Definition ToIntegerOrInfinity (x : float) : IntegerOrInfinity :=
  match Prim2SF x with
  | S754_nan => Finite 0
  | S754_zero _ => Finite 0
  | S754_infinity false => PosInfinity
  | S754_infinity true => NegInfinity
  | S754_finite s m e =>
      let magnitude :=
        match e with
        | Zneg p => Z.shiftr (Zpos m) (Zpos p)
        | _ => Z.shiftl (Zpos m) e
        end in
      Finite (if s then Z.opp magnitude else magnitude)
  end.

(** [arr.slice(0, end)]; [None] is an [end] that is [undefined]. *)
Definition slice0 {A : Type} (arr : list A) (end_ : option float) : list A :=
  let len := Z.of_nat (length arr) in
  let final :=
    match end_ with
    | None => len
    | Some e =>
        match ToIntegerOrInfinity e with
        | NegInfinity => 0%Z
        | Finite z => if (z <? 0)%Z then Z.max (len + z) 0 else Z.min z len
        | PosInfinity => len
        end
    end in
  take (Z.to_nat final) arr.

(** ** [Array.prototype.sort]

    ECMAScript requires the sort to be stable and, for a consistent
    comparator, to order the array by it; that result is unique and is what
    the stable insertion sort below computes.  For a comparator that is not
    consistent (here: when a score is [NaN]) the order is
    implementation-defined and this definition fixes one admissible order;
    engines differ there, so it need not be the order a given engine
    returns.  The statements below that speak of the order of results
    therefore assume that no score is [NaN], or hold for any order.  A
    comparator result that is [NaN] counts as [+0]. *)
Section ArraySort.
Context {A : Type} (comparefn : A -> A -> float).

Definition comesAfter (x y : A) : bool :=
  let v := comparefn x y in
  if is_nan v then false else PrimFloat.ltb zero v.

Fixpoint sortInsert (x : A) (sorted : list A) : list A :=
  match sorted with
  | [] => [x]
  | y :: rest => if comesAfter x y then y :: sortInsert x rest else x :: y :: rest
  end.

Fixpoint Array_sort (arr : list A) : list A :=
  match arr with
  | [] => []
  | x :: rest => sortInsert x (Array_sort rest)
  end.
End ArraySort.

(** ** Insertion-ordered [Map<string, V>] *)
Module JsMap.
Section JsMap.
Context {V : Type}.

Definition t : Type := list (string * V).

Definition empty : t := [].

Fixpoint get (m : t) (key : string) : option V :=
  match m with
  | [] => None
  | (k, v) :: rest => if String.eqb k key then Some v else get rest key
  end.

Definition has (m : t) (key : string) : bool :=
  match get m key with Some _ => true | None => false end.

(** [set] keeps the position of a key that is already present and appends
    a new key at the end. *)
Fixpoint set (m : t) (key : string) (value : V) : t :=
  match m with
  | [] => [(key, value)]
  | (k, v) :: rest =>
      if String.eqb k key then (k, value) :: rest else (k, v) :: set rest key value
  end.

Fixpoint delete (m : t) (key : string) : t :=
  match m with
  | [] => []
  | (k, v) :: rest => if String.eqb k key then rest else (k, v) :: delete rest key
  end.

Definition clear (m : t) : t := [].

Definition size (m : t) : nat := length m.

Definition entries (m : t) : list (string * V) := m.

Definition keys (m : t) : list string := map fst m.

(** The representation invariant: a key occurs once. *)
Definition wf (m : t) : Prop := NoDup (keys m).
End JsMap.
Arguments t V : clear implicits.
End JsMap.

(** ** The data model ([src/interface.ts]) *)
Section Model.
(** [T] is the type of the metadata, [Disk] the state behind the storage
    providers. *)
Context {T Disk : Type}.

(** [JSON.stringify] followed by [Buffer.byteLength(_, 'utf8')]; both
    belong to the runtime, and [JSON.stringify] may throw. *)
Variable jsonByteLength : list (string * list JsPrim * option T) -> Completion N.

Record MemoryDocument : Type := {
  content : string;
  metadata : option T
}.

Record MemoryVectorData : Type := {
  document : MemoryDocument;
  vector : JsValue
}.

(** [[content, vector, metadata?]] *)
Definition MemoryVectorDataSerialize : Type := (string * list JsPrim * option T)%type.

(** [P] is [option string] for the options a caller passes (the path may be
    [undefined]) and [string] once the constructor has filled it in. *)
Record MemoryVectorStoreOptions (P : Type) : Type := {
  autoSave : bool;
  debug : bool;
  maxFileSizeMB : float;
  storagePath : P
}.
Arguments autoSave {P} _.
Arguments debug {P} _.
Arguments maxFileSizeMB {P} _.
Arguments storagePath {P} _.

(** A provider method throws ([Throw]) or returns.  [save] works on the
    storage and leaves a state of it behind in both cases: what it did
    before it threw stays done.  [load] has the type the interface gives
    it, [MemoryVectorDataSerialize[]]: a provider that hands back a value
    of another shape is not described by this record. *)
Record MemoryVectorStorageProvider : Type := {
  provider_save :
    string -> list MemoryVectorDataSerialize -> Disk -> Completion unit * Disk;
  provider_load : string -> Disk -> Completion (list MemoryVectorDataSerialize);
  provider_exists : string -> Disk -> Completion bool
}.

Definition MemoryVectorParser : Type := string -> Completion JsValue.

Definition doc (content : string) (metadata : option T) : MemoryDocument :=
  {| content := content; metadata := metadata |}.

(** The value stored under a content key. *)
Record Embedding : Type := {
  e_metadata : option T;
  e_vector : list JsPrim
}.

Definition serializeItem (entry : string * Embedding) : MemoryVectorDataSerialize :=
  (fst entry, e_vector (snd entry), e_metadata (snd entry)).

Record StoreCache : Type := {
  dirty : bool;
  store : JsMap.t Embedding
}.

(** ** [Locker] and [debounce] ([src/shared/util.ts]) *)

(** A [Locker] holds one promise; [resolve] is the resolver of that same
    promise, so the promise's identifier stands for both fields. *)
Record Locker : Type := { promise : nat }.

(** An instance of [VectorStore].  [cache] is a reference to a [StoreCache]
    object: the registry never replaces an entry, so the reference is the key
    under which the object is registered. *)
Record VectorStore : Type := {
  vectorParser : MemoryVectorParser;
  storageProvider : MemoryVectorStorageProvider;
  options : MemoryVectorStoreOptions string;
  cache : string;
  saveLock : Locker
}.

(** What the collaborators were asked to do, oldest first. *)
Inductive Event : Type :=
  | ParserCalled (content : string)
  | ProviderExists (key : string)
  | ProviderLoad (key : string)
  | ProviderSave (key : string) (data : list MemoryVectorDataSerialize).

(** The state of the process.
    - [globalCache]: the module-level registry of shared states;
    - [instances]: the [VectorStore] objects, by identity;
    - [timers]: the pending timer of [debounce] for each key, as the
      identity of the instance whose save task it will run;
    - [resolved]: the promises of the lockers that have been resolved;
    - [nextPromise]: a fresh promise identifier. *)
Record World : Type := {
  globalCache : gmap string StoreCache;
  instances : list VectorStore;
  timers : gmap string nat;
  resolved : gset nat;
  nextPromise : nat;
  disk : Disk;
  trace : list Event
}.

Definition initialWorld (d : Disk) : World :=
  {| globalCache := ∅; instances := []; timers := ∅; resolved := ∅;
     nextPromise := 0; disk := d; trace := [] |}.

Definition setGlobalCache (g : gmap string StoreCache) (w : World) : World :=
  {| globalCache := g; instances := instances w; timers := timers w;
     resolved := resolved w; nextPromise := nextPromise w; disk := disk w;
     trace := trace w |}.

Definition setInstances (l : list VectorStore) (w : World) : World :=
  {| globalCache := globalCache w; instances := l; timers := timers w;
     resolved := resolved w; nextPromise := nextPromise w; disk := disk w;
     trace := trace w |}.

Definition setTimers (t : gmap string nat) (w : World) : World :=
  {| globalCache := globalCache w; instances := instances w; timers := t;
     resolved := resolved w; nextPromise := nextPromise w; disk := disk w;
     trace := trace w |}.

Definition setDisk (d : Disk) (w : World) : World :=
  {| globalCache := globalCache w; instances := instances w; timers := timers w;
     resolved := resolved w; nextPromise := nextPromise w; disk := d;
     trace := trace w |}.

Definition emit (e : Event) (w : World) : World :=
  {| globalCache := globalCache w; instances := instances w; timers := timers w;
     resolved := resolved w; nextPromise := nextPromise w; disk := disk w;
     trace := trace w ++ [e] |}.

(** [new Promise(...)]: a fresh, unresolved promise. *)
Definition newPromise (w : World) : nat * World :=
  (nextPromise w,
   {| globalCache := globalCache w; instances := instances w; timers := timers w;
      resolved := resolved w; nextPromise := S (nextPromise w); disk := disk w;
      trace := trace w |}).

Definition resolvePromise (p : nat) (w : World) : World :=
  {| globalCache := globalCache w; instances := instances w; timers := timers w;
     resolved := {[p]} ∪ resolved w; nextPromise := nextPromise w; disk := disk w;
     trace := trace w |}.

Definition isResolved (p : nat) (w : World) : bool := bool_decide (p ∈ resolved w).

(** [Locker.lock]: replace the promise by a new unresolved one. *)
Definition lock (l : Locker) (w : World) : Locker * World :=
  let (p, w') := newPromise w in ({| promise := p |}, w').

(** [Locker.unLock]: resolve the current promise. *)
Definition unLock (l : Locker) (w : World) : World := resolvePromise (promise l) w.

(** [Locker.wait]: the current promise. *)
Definition wait (l : Locker) : nat := promise l.

(** [new Locker()]: the field initialiser's promise is replaced at once by
    the constructor's [lock()]. *)
Definition newLocker (w : World) : Locker * World := lock {| promise := 0 |} w.

(** [debounce(key, func, delay)]: cancel the pending timer of [key], if any,
    and start a new one.  [func] is always the save task of an instance, so
    the timer records which instance. *)
Definition debounce (key : string) (this : nat) (w : World) : World :=
  setTimers (<[key := this]> (delete key (timers w))) w.

(** ** The [VectorStore] class ([src/core/vector-store.ts]) *)

(** Truthiness of a string: only the empty string is falsy. *)
Definition truthy (s : string) : bool := negb (String.eqb s "").

Definition readOfUndefined : Exception :=
  JsTypeError "Cannot read properties of undefined".

(** [this] *)
Definition getThis (id : nat) (w : World) : Completion VectorStore :=
  match instances w !! id with
  | Some this => Normal this
  | None => Throw readOfUndefined
  end.

(** [this.cache] *)
Definition thisCache (this : VectorStore) (w : World) : Completion StoreCache :=
  match globalCache w !! cache this with
  | Some c => Normal c
  | None => Throw readOfUndefined
  end.

(** A write through the reference [this.cache]. *)
Definition setThisCache (this : VectorStore) (c : StoreCache) (w : World) : World :=
  setGlobalCache (<[cache this := c]> (globalCache w)) w.

Definition deserializeInto (m : JsMap.t Embedding) (item : MemoryVectorDataSerialize)
    : JsMap.t Embedding :=
  let '(c, v, md) := item in JsMap.set m c {| e_metadata := md; e_vector := v |}.

(** [load()], called on the fresh, not yet registered cache of the
    constructor: the result is the [store] of that cache. *)
Definition load (provider : MemoryVectorStorageProvider)
    (opts : MemoryVectorStoreOptions string) (w : World) : JsMap.t Embedding * World :=
  let path := storagePath opts in
  if negb (truthy path) then (JsMap.empty, w)
  else
    let w1 := emit (ProviderExists path) w in
    match provider_exists provider path (disk w1) with
    | Throw _ => (JsMap.clear JsMap.empty, w1)
    | Normal false => (JsMap.empty, w1)
    | Normal true =>
        let w2 := emit (ProviderLoad path) w1 in
        match provider_load provider path (disk w2) with
        | Throw _ => (JsMap.clear JsMap.empty, w2)
        | Normal data => (fold_left deserializeInto data JsMap.empty, w2)
        end
    end.

(** [initializeStore()]: the reference to put in [this.cache]. *)
Definition initializeStore (provider : MemoryVectorStorageProvider)
    (opts : MemoryVectorStoreOptions string) (w : World) : string * World :=
  let path := storagePath opts in
  match globalCache w !! path with
  | Some _ => (path, w)
  | None =>
      let '(m, w1) := load provider opts w in
      (path, setGlobalCache (<[path := {| dirty := false; store := m |}]> (globalCache w1)) w1)
  end.

(** [new VectorStore(vectorParser, storageProvider, options)]; the result
    is the identity of the new instance. *)
Definition newVectorStore (parser : MemoryVectorParser)
    (provider : MemoryVectorStorageProvider)
    (opts : MemoryVectorStoreOptions (option string)) (w : World) : nat * World :=
  let '(l, w1) := newLocker w in
  let opts' :=
    {| autoSave := autoSave opts; debug := debug opts;
       maxFileSizeMB := maxFileSizeMB opts;
       storagePath := default "default" (storagePath opts) |} in
  let w2 := unLock l w1 in
  let '(ref, w3) := initializeStore provider opts' w2 in
  let this :=
    {| vectorParser := parser; storageProvider := provider; options := opts';
       cache := ref; saveLock := l |} in
  (length (instances w3), setInstances (instances w3 ++ [this]) w3).

(** The promise an [async] method without a pending wait hands back. *)
Inductive SavePromise : Type :=
  | ResolvedNow
  | LockPromise (p : nat).

(** [save()] up to its [return]: the guard, [lock()] and the scheduling of
    the task.  The task itself is [saveTask]. *)
Definition save (id : nat) (w : World) : Completion SavePromise * World :=
  match getThis id w with
  | Throw e => (Throw e, w)
  | Normal this =>
      match thisCache this w with
      | Throw e => (Throw e, w)
      | Normal c =>
          if (negb (dirty c) || negb (truthy (storagePath (options this))))%bool
          then (Normal ResolvedNow, w)
          else
            let '(l, w1) := lock (saveLock this) w in
            let this' :=
              {| vectorParser := vectorParser this;
                 storageProvider := storageProvider this;
                 options := options this; cache := cache this; saveLock := l |} in
            let w2 := setInstances (<[id := this']> (instances w1)) w1 in
            let w3 := debounce (storagePath (options this)) id w2 in
            (Normal (LockPromise (wait l)), w3)
      end
  end.

Definition maxSizeBytes (opts : MemoryVectorStoreOptions string) : float :=
  (number_or (maxFileSizeMB opts) 500 * 1024 * 1024)%float.

(** [dataSize > maxSizeBytes] *)
Definition exceeds (dataSize : N) (limit : float) : bool :=
  PrimFloat.ltb limit (number_of_N dataSize).

(** The [while] loop of the task: [shift()] and measure again. *)
Fixpoint trim (limit : float) (serializedData : list MemoryVectorDataSerialize)
    (dataSize : N) : Completion (list MemoryVectorDataSerialize * N) :=
  match serializedData with
  | [] => Normal ([], dataSize)
  | _ :: rest =>
      if exceeds dataSize limit then
        let! size := jsonByteLength rest in trim limit rest size
      else Normal (serializedData, dataSize)
  end.

(** The [try] block of the task. *)
Definition saveTry (this : VectorStore) (w : World) : Completion unit * World :=
  match thisCache this w with
  | Throw e => (Throw e, w)
  | Normal c =>
      let limit := maxSizeBytes (options this) in
      let serializedData := map serializeItem (JsMap.entries (store c)) in
      match jsonByteLength serializedData with
      | Throw e => (Throw e, w)
      | Normal dataSize =>
          let trimmed :=
            if (exceeds dataSize limit && Nat.ltb 0 (length serializedData))%bool then
              match trim limit serializedData dataSize with
              | Throw e => (Throw e, w)
              | Normal (kept, _) =>
                  let rebuilt := fold_left deserializeInto kept (JsMap.clear (store c)) in
                  (Normal kept, setThisCache this {| dirty := dirty c; store := rebuilt |} w)
              end
            else (Normal serializedData, w) in
          match trimmed with
          | (Throw e, w1) => (Throw e, w1)
          | (Normal kept, w1) =>
              let path := storagePath (options this) in
              let w2 := emit (ProviderSave path kept) w1 in
              match provider_save (storageProvider this) path kept (disk w2) with
              | (Throw e, d) => (Throw e, setDisk d w2)
              | (Normal _, d) =>
                  match thisCache this w2 with
                  | Throw e => (Throw e, setDisk d w2)
                  | Normal c2 =>
                      (Normal tt,
                       setThisCache this {| dirty := false; store := store c2 |} (setDisk d w2))
                  end
              end
          end
      end
  end.

(** The task handed to [debounce]: [try], a [catch] that only logs, and
    [finally] the release of the lock. *)
Definition saveTask (id : nat) (w : World) : World :=
  match getThis id w with
  | Throw _ => w
  | Normal this => unLock (saveLock this) (snd (saveTry this w))
  end.

(** The timer of [key] fires. *)
Definition fireTimer (key : string) (w : World) : World :=
  match timers w !! key with
  | None => w
  | Some id => saveTask id (setTimers (delete key (timers w)) w)
  end.

(** The elements of a value that passed [Array.isArray]. *)
Definition elements (v : JsValue) : list JsPrim :=
  match v with
  | JsArray elems => elems
  | JsPrimitive _ => []
  end.

(** The argument of [add] is a bare string or a [MemoryDocument]:
    [typeof document === 'string' ? doc(document) : doc(document.content,
    document.metadata)]. *)
Definition asDocument (document : string + MemoryDocument) : MemoryDocument :=
  match document with
  | inl text => doc text None
  | inr m => doc (content m) (metadata m)
  end.

(** [add(document)] *)
Definition add (id : nat) (document : string + MemoryDocument) (w : World)
    : Completion MemoryVectorData * World :=
  match getThis id w with
  | Throw e => (Throw e, w)
  | Normal this =>
      let d := asDocument document in
      let w1 := emit (ParserCalled (content d)) w in
      match vectorParser this (content d) with
      | Throw e => (Throw e, w1)
      | Normal vector =>
          if negb (Array_isArray vector)
          then (Throw (JsError "Vector parser must return an array"), w1)
          else
            match thisCache this w1 with
            | Throw e => (Throw e, w1)
            | Normal c =>
                let entry := {| e_metadata := metadata d; e_vector := elements vector |} in
                let w2 :=
                  setThisCache this
                    {| dirty := true; store := JsMap.set (store c) (content d) entry |} w1 in
                let w3 := if autoSave (options this) then snd (save id w2) else w2 in
                (Normal {| document := d; vector := vector |}, w3)
            end
      end
  end.

(** One iteration of the loop of [cosineSimilarity]; the accumulator is
    [(dotProduct, normA, normB)]. *)
Definition cosineStep (a b : list JsPrim) (acc : float * float * float) (i : nat)
    : float * float * float :=
  let '(dotProduct, normA, normB) := acc in
  let ai := ToNumber (index a i) in
  let bi := ToNumber (index b i) in
  ((dotProduct + ai * bi)%float, (normA + ai * ai)%float, (normB + bi * bi)%float).

Definition cosineLoop (a b : list JsPrim) : float * float * float :=
  fold_left (cosineStep a b) (seq 0 (length a)) (zero, zero, zero).

Definition cosineResult (acc : float * float * float) : float :=
  let '(dotProduct, normA, normB) := acc in
  if (PrimFloat.eqb normA zero || PrimFloat.eqb normB zero)%bool then zero
  else (dotProduct / (sqrt normA * sqrt normB))%float.

(** [cosineSimilarity(a, b)].  [a] is whatever the parser returned for the
    query: reading [length] of [undefined] or [null] throws, and on a
    number or a boolean it gives [undefined], so that the loop does not
    run. *)
Definition cosineSimilarity (a : JsValue) (b : list JsPrim) : Completion float :=
  match a with
  | JsArray elems => Normal (cosineResult (cosineLoop elems b))
  | JsPrimitive (JsUndefined | JsNull) => Throw readOfUndefined
  | JsPrimitive (JsBool _ | JsNumber _) => Normal (cosineResult (zero, zero, zero))
  end.

Record Scored : Type := {
  item : MemoryDocument;
  score : float
}.

Record SearchResult : Type := {
  r_content : string;
  r_metadata : option T;
  r_score : float
}.

(** An [async] call either is still waiting or has settled. *)
Inductive Async (A : Type) : Type :=
  | Suspended
  | Settled (c : Completion A).
Arguments Suspended {A}.
Arguments Settled {A} c.

Fixpoint mapC {A B : Type} (f : A -> Completion B) (l : list A) : Completion (list B) :=
  match l with
  | [] => Normal []
  | x :: rest =>
      let! y := f x in
      let! ys := mapC f rest in
      Normal (y :: ys)
  end.

Definition toDocument (entry : string * Embedding) : MemoryDocument :=
  {| content := fst entry; metadata := e_metadata (snd entry) |}.

Definition scoreOf (m : JsMap.t Embedding) (queryVector : JsValue)
    (candidate : MemoryDocument) : Completion Scored :=
  match JsMap.get m (content candidate) with
  | None => Throw readOfUndefined
  | Some e =>
      let! s := cosineSimilarity queryVector (e_vector e) in
      Normal {| item := candidate; score := s |}
  end.

(** [(a, b) => b.score - a.score] *)
Definition byScore (a b : Scored) : float := (score b - score a)%float.

Definition toResult (r : Scored) : SearchResult :=
  {| r_content := content (item r); r_metadata := metadata (item r);
     r_score := score r |}.

(** [similaritySearch(query, k?, filter?)] *)
Definition similaritySearch (id : nat) (query : string) (k : option float)
    (filter : option (MemoryDocument -> bool)) (w : World)
    : Async (list SearchResult) * World :=
  match getThis id w with
  | Throw e => (Settled (Throw e), w)
  | Normal this =>
      if negb (isResolved (wait (saveLock this)) w) then (Suspended, w)
      else
        match thisCache this w with
        | Throw e => (Settled (Throw e), w)
        | Normal c =>
            let '(queryVector, w1) :=
              match JsMap.get (store c) query with
              | Some e => (Normal (JsArray (e_vector e)), w)
              | None => (vectorParser this query, emit (ParserCalled query) w)
              end in
            match queryVector with
            | Throw e => (Settled (Throw e), w1)
            | Normal queryVector =>
                let candidates := map toDocument (JsMap.entries (store c)) in
                let candidates :=
                  match filter with
                  | Some f => List.filter f candidates
                  | None => candidates
                  end in
                match mapC (scoreOf (store c) queryVector) candidates with
                | Throw e => (Settled (Throw e), w1)
                | Normal scoredResults =>
                    let sorted := Array_sort byScore scoredResults in
                    (Settled (Normal (map toResult (slice0 sorted k))), w1)
                end
            end
        end
  end.

(** [remove(content)] *)
Definition remove (id : nat) (content : string) (w : World) : Completion unit * World :=
  match getThis id w with
  | Throw e => (Throw e, w)
  | Normal this =>
      match thisCache this w with
      | Throw e => (Throw e, w)
      | Normal c =>
          let initialLength := JsMap.size (store c) in
          let store' := JsMap.delete (store c) content in
          let w1 := setThisCache this {| dirty := dirty c; store := store' |} w in
          if negb (Nat.eqb (JsMap.size store') initialLength) then
            let w2 := setThisCache this {| dirty := true; store := store' |} w1 in
            (Normal tt, if autoSave (options this) then snd (save id w2) else w2)
          else (Normal tt, w1)
      end
  end.

(** [clear()] *)
Definition clear (id : nat) (w : World) : Completion unit * World :=
  match getThis id w with
  | Throw e => (Throw e, w)
  | Normal this =>
      match thisCache this w with
      | Throw e => (Throw e, w)
      | Normal c =>
          if Nat.ltb 0 (JsMap.size (store c)) then
            let w1 :=
              setThisCache this {| dirty := true; store := JsMap.clear (store c) |} w in
            (Normal tt, if autoSave (options this) then snd (save id w1) else w1)
          else (Normal tt, w)
      end
  end.

(** [getAll()] *)
Definition getAll (id : nat) (w : World) : Completion (list MemoryDocument) :=
  let! this := getThis id w in
  let! c := thisCache this w in
  Normal (map toDocument (JsMap.entries (store c))).

(** [count()] *)
Definition count (id : nat) (w : World) : Completion nat :=
  let! this := getThis id w in
  let! c := thisCache this w in
  Normal (JsMap.size (store c)).
End Model.

Arguments autoSave {P} _.
Arguments debug {P} _.
Arguments maxFileSizeMB {P} _.
Arguments storagePath {P} _.
Arguments Suspended {A}.
Arguments Settled {A} c.

(** ** [Math.min] and [Math.max]

    [NaN] if an argument is [NaN]; [-0] counts as smaller than [+0]. *)
Definition Math_min (x y : float) : float :=
  if (is_nan x || is_nan y)%bool then nan
  else if PrimFloat.ltb x y then x
  else if PrimFloat.ltb y x then y
  else if get_sign x then x else y.

Definition Math_max (x y : float) : float :=
  if (is_nan x || is_nan y)%bool then nan
  else if PrimFloat.ltb y x then x
  else if PrimFloat.ltb x y then y
  else if get_sign x then y else x.

(** ** The factories ([src/core/node.ts], [src/core/browser.ts]) *)

(** A property of the options object a caller passes: it may be left out,
    and when it is there its value may still be [undefined]. *)
Inductive Property (A : Type) : Type :=
  | Missing
  | Present (value : option A).
Arguments Missing {A}.
Arguments Present {A} value.

(** [Partial<MemoryVectorStoreOptions>] *)
Record PartialOptions : Type := {
  given_autoSave : Property bool;
  given_debug : Property bool;
  given_maxFileSizeMB : Property float;
  given_storagePath : Property string
}.

(** [{ ...undefined }] *)
Definition noOptions : PartialOptions :=
  {| given_autoSave := Missing; given_debug := Missing;
     given_maxFileSizeMB := Missing; given_storagePath := Missing |}.

(** One property of [{ ...defaults, ...options }]. *)
Definition spread {A : Type} (dflt : A) (given : Property A) : option A :=
  match given with
  | Missing => Some dflt
  | Present value => value
  end.

(** A flag is only ever tested for truthiness: [undefined] is [false]. *)
Definition flagOf (value : option bool) : bool := default false value.

(** [ToNumber] on a number that may be [undefined]. *)
Definition numberOf (value : option float) : float := default nan value.

Section Factories.
Context {T Disk : Type}.

(** [memoryVectorStore(vectorParser, options?)].  [defaultStoragePath] is
    [join(process.cwd(), 'node_modules/__mvsl__/data.json')] and
    [NodeStorageProvider] the provider of [src/storage/node-file-storage.ts],
    whose methods work on the file system. *)
Definition memoryVectorStore (defaultStoragePath : string)
    (NodeStorageProvider : @MemoryVectorStorageProvider T Disk)
    (vectorParser : MemoryVectorParser) (options : option PartialOptions)
    (w : @World T Disk) : nat * World :=
  let given := default noOptions options in
  let defaultOptions :=
    {| autoSave := flagOf (spread true (given_autoSave given));
       debug := flagOf (spread false (given_debug given));
       maxFileSizeMB :=
         Math_max (Math_min (numberOf (spread 500%float (given_maxFileSizeMB given)))
                            1000%float) 1%float;
       storagePath := spread defaultStoragePath (given_storagePath given) |} in
  newVectorStore vectorParser NodeStorageProvider defaultOptions w.

(** [browserMemoryVectorStore(vectorParser, options?)]; the lower bound is
    the number [0.1] of the source, written out. *)
Definition browserMemoryVectorStore
    (BrowserStorageProvider : @MemoryVectorStorageProvider T Disk)
    (vectorParser : MemoryVectorParser) (options : option PartialOptions)
    (w : @World T Disk) : nat * World :=
  let given := default noOptions options in
  let defaultOptions :=
    {| autoSave := flagOf (spread true (given_autoSave given));
       debug := flagOf (spread false (given_debug given));
       maxFileSizeMB :=
         Math_max (Math_min (numberOf (spread 3%float (given_maxFileSizeMB given)))
                            3%float) 0x1.999999999999ap-4%float;
       storagePath := spread "memory-vector-store" (given_storagePath given) |} in
  newVectorStore vectorParser BrowserStorageProvider defaultOptions w.
End Factories.

(** ** The storage providers ([src/storage]) *)
Section StorageProviders.
Context {T : Type}.

(** [JSON.stringify] and [JSON.parse] belong to the runtime.  Both may
    throw.  [JSON_parse] stands for [JSON.parse] on the texts whose value
    is an array of records, as the return type of [load] says; a text with
    another value (a file that [save] did not write) is outside it. *)
Variable JSON_stringify : list (@MemoryVectorDataSerialize T) -> Completion string.
Variable JSON_parse : string -> Completion (list (@MemoryVectorDataSerialize T)).

(** *** [localStorage] *)

(** The items of the storage area. *)
Definition Storage : Type := gmap string string.

(** Whether the storage area has room for an item is up to the browser. *)
Variable hasRoomFor : Storage -> string -> string -> bool.

(** [localStorage.setItem(key, value)]; when it throws, the area is as it
    was. *)
Definition setItem (key value : string) (area : Storage) : Completion unit * Storage :=
  if hasRoomFor area key value then (Normal tt, <[key := value]> area)
  else (Throw (Thrown "QuotaExceededError"), area).

(** [localStorage.getItem(key)]; [None] is [null]. *)
Definition getItem (key : string) (area : Storage) : option string := area !! key.

(** [BrowserStorageProvider] ([src/storage/browser-local-storage.ts]) *)
Definition BrowserStorageProvider : @MemoryVectorStorageProvider T Storage :=
  {| provider_save := fun key vectors area =>
       match JSON_stringify vectors with
       | Throw e => (Throw e, area)
       | Normal text => setItem key text area
       end;
     provider_load := fun key area =>
       match getItem key area with
       | Some data => if truthy data then JSON_parse data else Normal []
       | None => Normal []
       end;
     provider_exists := fun key area =>
       Normal (match getItem key area with Some _ => true | None => false end) |}.

(** *** The file system *)

(** The functions of [fs] and [path] the provider calls, on a state [Fs]
    of the file system.  The two that write give the state they leave,
    also when they throw. *)
Record FileSystem (Fs : Type) : Type := {
  existsSync : string -> Fs -> bool;
  mkdirSync : string -> Fs -> Completion unit * Fs;
  writeFileSync : string -> string -> Fs -> Completion unit * Fs;
  readFileSync : string -> Fs -> Completion string;
  dirname : string -> string
}.
Arguments existsSync {Fs} _ _ _.
Arguments mkdirSync {Fs} _ _ _.
Arguments writeFileSync {Fs} _ _ _ _.
Arguments readFileSync {Fs} _ _ _.
Arguments dirname {Fs} _ _.

(** [NodeStorageProvider] ([src/storage/node-file-storage.ts]) *)
Definition NodeStorageProvider {Fs : Type} (fs : FileSystem Fs)
    : @MemoryVectorStorageProvider T Fs :=
  {| provider_save := fun key vectors disk =>
       let dir := dirname fs key in
       let '(made, disk1) :=
         if negb (existsSync fs dir disk) then mkdirSync fs dir disk
         else (Normal tt, disk) in
       match made with
       | Throw e => (Throw e, disk1)
       | Normal _ =>
           match JSON_stringify vectors with
           | Throw e => (Throw e, disk1)
           | Normal text => writeFileSync fs key text disk1
           end
       end;
     provider_load := fun key disk =>
       if negb (existsSync fs key disk) then Normal []
       else
         let! data := readFileSync fs key disk in
         JSON_parse (if truthy data then data else "[]");
     provider_exists := fun key disk => Normal (existsSync fs key disk) |}.

(** A file that has been written exists and reads as written. *)
Definition writesAreRead {Fs : Type} (fs : FileSystem Fs) : Prop :=
  forall path text disk disk',
    writeFileSync fs path text disk = (Normal tt, disk') ->
    existsSync fs path disk' = true /\ readFileSync fs path disk' = Normal text.
End StorageProviders.

Arguments existsSync {Fs} _ _ _.
Arguments mkdirSync {Fs} _ _ _.
Arguments writeFileSync {Fs} _ _ _ _.
Arguments readFileSync {Fs} _ _ _.
Arguments dirname {Fs} _ _.

(** * The vocabulary of the statements *)

(** ** Numbers *)
Module Float64.
Local Open Scope Z_scope.

(** [x] is a number other than zero, finite or infinite, of sign [s]. *)
Definition signed_nonzero (s : bool) (x : spec_float) : Prop :=
  match x with
  | S754_finite s' _ _ | S754_infinity s' => s' = s
  | _ => False
  end.

(** A key whose lexicographic order is the order of the numbers. *)
Definition key (x : spec_float) : Z * Z * Z :=
  match x with
  | S754_nan => (0, 0, 0)
  | S754_zero _ => (0, 0, 0)
  | S754_infinity true => (-2, 0, 0)
  | S754_infinity false => (2, 0, 0)
  | S754_finite true m e => (-1, - e, Zneg m)
  | S754_finite false m e => (1, e, Zpos m)
  end.

Definition key_lt (a b : Z * Z * Z) : Prop :=
  let '(a1, a2, a3) := a in
  let '(b1, b2, b3) := b in
  a1 < b1 \/ (a1 = b1 /\ (a2 < b2 \/ (a2 = b2 /\ a3 < b3))).

Definition key_le (a b : Z * Z * Z) : Prop :=
  let '(a1, a2, a3) := a in
  let '(b1, b2, b3) := b in
  a1 < b1 \/ (a1 = b1 /\ (a2 < b2 \/ (a2 = b2 /\ a3 <= b3))).
End Float64.

(** ** Cosine similarity in the words of the specification *)

(** The score in the words of the specification, for two vectors of numbers:
    the dot product over the product of the norms, and [0] when a norm is
    zero. *)
Module Spec.
Local Open Scope float_scope.

Definition dot (a b : list float) : float :=
  fold_left (fun s xy => s + fst xy * snd xy) (combine a b) zero.

Definition sumOfSquares (a : list float) : float :=
  fold_left (fun s x => s + x * x) a zero.

Definition norm (a : list float) : float := sqrt (sumOfSquares a).

Definition cosine (a b : list float) : float :=
  if ((norm a =? zero) || (norm b =? zero))%bool then zero
  else dot a b / (norm a * norm b).

(** Every component is [+0] or [-0]. *)
Definition allZero (a : list float) : Prop := Forall (fun x => is_zero x = true) a.
End Spec.

(** A vector of numbers as the array the code receives. *)
Definition numbers (a : list float) : list JsPrim := map JsNumber a.

(** Whether a value is an array of numbers. *)
Definition isNumberArray (v : JsValue) : bool :=
  match v with
  | JsArray elems =>
      forallb (fun p => match p with JsNumber _ => true | _ => false end) elems
  | JsPrimitive _ => false
  end.

(** ** Instances, mutations and searches *)
Section Vocabulary.
Context {T Disk : Type}.
Implicit Types (w : @World T Disk) (this : @VectorStore T Disk) (c : @StoreCache T).
Implicit Types (m : JsMap.t (@Embedding T)).

(** From [w] to [w'] every instance is still there, with the same
    reference, embedding function, provider and options, and every
    registered path is still registered. *)
Definition evolves w w' : Prop :=
  (forall j this, instances w !! j = Some this ->
     exists this', instances w' !! j = Some this' /\
       cache this' = cache this /\ options this' = options this /\
       vectorParser this' = vectorParser this /\
       storageProvider this' = storageProvider this) /\
  (forall path, is_Some (globalCache w !! path) -> is_Some (globalCache w' !! path)).

(** The three mutating operations of the interface. *)
Inductive Mutation : Type :=
  | DoAdd (document : string + @MemoryDocument T)
  | DoRemove (key : string)
  | DoClear.

Definition mutate (id : nat) (m : Mutation) (w : @World T Disk) : @World T Disk :=
  match m with
  | DoAdd document => snd (add id document w)
  | DoRemove key => snd (remove id key w)
  | DoClear => snd (clear id w)
  end.

(** A run of mutations, each through the instance named with it. *)
Definition mutateAll (ms : list (nat * Mutation)) (w : @World T Disk) : @World T Disk :=
  fold_left (fun w '(id, m) => mutate id m w) ms w.

(** The documents that survive the filter, in map order. *)
Definition candidatesOf c (filter : option (@MemoryDocument T -> bool)) : list MemoryDocument :=
  let all := map toDocument (JsMap.entries (store c)) in
  match filter with
  | Some f => List.filter f all
  | None => all
  end.

(** The query vector is the stored vector of [query] if there is one, and
    else the array the embedding function returns. *)
Definition queryResolvesTo this c (query : string) (qv : list JsPrim) : Prop :=
  match JsMap.get (store c) query with
  | Some e => e_vector e = qv
  | None => vectorParser this query = Normal (JsArray qv)
  end.

(** No candidate has a score that is [NaN]. *)
Definition scoresAreNumbers m (qv : list JsPrim) (candidates : list (@MemoryDocument T)) : bool :=
  forallb
    (fun d =>
       match scoreOf m (JsArray qv) d with
       | Normal r => negb (is_nan (score r))
       | Throw _ => false
       end)
    candidates.

(** [r1] may come before [r2]: its score is at least as large. *)
Definition descending (s1 s2 : float) : Prop := PrimFloat.leb s2 s1 = true.
End Vocabulary.

(** ** Runs of the whole system *)
Section Runs.
Context {T Disk : Type}.
Variable jsonByteLength : list (string * list JsPrim * option T) -> Completion N.

(** What can happen to the process: a call of the interface, or a timer of
    [debounce] that fires. *)
Inductive Call : Type :=
  | CallNew (parser : MemoryVectorParser) (provider : @MemoryVectorStorageProvider T Disk)
      (opts : MemoryVectorStoreOptions (option string))
  | CallAdd (id : nat) (document : string + @MemoryDocument T)
  | CallRemove (id : nat) (key : string)
  | CallClear (id : nat)
  | CallSave (id : nat)
  | TimerFires (key : string).

Definition step (call : Call) (w : @World T Disk) : @World T Disk :=
  match call with
  | CallNew parser provider opts => snd (newVectorStore parser provider opts w)
  | CallAdd id document => snd (add id document w)
  | CallRemove id key => snd (remove id key w)
  | CallClear id => snd (clear id w)
  | CallSave id => snd (save id w)
  | TimerFires key => fireTimer jsonByteLength key w
  end.

Definition run (calls : list Call) (w : @World T Disk) : @World T Disk :=
  fold_left (fun w call => step call w) calls w.

(** Every instance refers to a registered shared state, and no map has a
    key twice. *)
Definition WorldInvariant (w : @World T Disk) : Prop :=
  (forall id this, instances w !! id = Some this ->
     is_Some (globalCache w !! cache this)) /\
  (forall path c, globalCache w !! path = Some c -> JsMap.wf (store c)).
End Runs.

(** ** Lockers, timers and writes *)
Section Scheduling.
Context {T Disk : Type}.
Implicit Types (w : @World T Disk) (this : @VectorStore T Disk).

(** An instance after [lock()]: the same object with a new promise. *)
Definition relock this (p : nat) : VectorStore :=
  {| vectorParser := vectorParser this; storageProvider := storageProvider this;
     options := options this; cache := cache this; saveLock := {| promise := p |} |}.

(** What a call can do to the lockers, the promises and the timers. *)
Inductive Scheduling w w' : Prop :=
  | NothingScheduled :
      instances w' = instances w -> timers w' = timers w ->
      resolved w' = resolved w -> nextPromise w' = nextPromise w ->
      Scheduling w w'
  | SaveScheduled id this :
      instances w !! id = Some this ->
      instances w' = <[id := relock this (nextPromise w)]> (instances w) ->
      timers w' = <[storagePath (options this) := id]> (timers w) ->
      resolved w' = resolved w -> nextPromise w' = S (nextPromise w) ->
      Scheduling w w'
  | InstanceCreated this :
      promise (saveLock this) = nextPromise w ->
      cache this = storagePath (options this) ->
      instances w' = instances w ++ [this] -> timers w' = timers w ->
      resolved w' = {[nextPromise w]} ∪ resolved w ->
      nextPromise w' = S (nextPromise w) ->
      Scheduling w w'
  | TaskRan key id this :
      timers w !! key = Some id -> instances w !! id = Some this ->
      instances w' = instances w -> timers w' = delete key (timers w) ->
      resolved w' = {[promise (saveLock this)]} ∪ resolved w ->
      nextPromise w' = nextPromise w ->
      Scheduling w w'
  | TaskLost key id :
      timers w !! key = Some id -> instances w !! id = None ->
      instances w' = instances w -> timers w' = delete key (timers w) ->
      resolved w' = resolved w -> nextPromise w' = nextPromise w ->
      Scheduling w w'.

(** Promises are numbered in the order of their creation, a timer belongs
    to an instance of the path it is keyed by, and the shared state of an
    instance is the one registered under its path. *)
Definition SchedulerInvariant w : Prop :=
  (forall p, p ∈ resolved w -> p < nextPromise w) /\
  (forall j this, instances w !! j = Some this -> promise (saveLock this) < nextPromise w) /\
  (forall key j, timers w !! key = Some j ->
     exists this, instances w !! j = Some this /\ storagePath (options this) = key) /\
  (forall j this, instances w !! j = Some this -> cache this = storagePath (options this)).

(** The promise [p] is pending, and no pending timer runs the task of an
    instance whose locker holds [p]. *)
Definition abandoned (p : nat) w : Prop :=
  p < nextPromise w /\ (p ∉ resolved w) /\
  forall key j this,
    timers w !! key = Some j -> instances w !! j = Some this ->
    promise (saveLock this) <> p.
End Scheduling.


(** ** Writes to storage *)
Section Writes.
Context {T Disk : Type}.

Definition isProviderSave (e : @Event T) : bool :=
  match e with
  | ProviderSave _ _ => true
  | _ => false
  end.

(** The calls of [storageProvider.save] so far. *)
Definition providerSaves (w : @World T Disk) : list Event :=
  List.filter isProviderSave (trace w).

Definition isTimerFires (call : @Call T Disk) : bool :=
  match call with
  | TimerFires _ => true
  | _ => false
  end.
End Writes.

(** ** Order of results *)
(** [x] occurs in [l] at an earlier position than [y]. *)
Definition comesBefore {A : Type} (l : list A) (x y : A) : Prop :=
  exists l1 l2 l3, l = l1 ++ x :: l2 ++ y :: l3.

(** The document of a search result. *)
Definition documentOf {T : Type} (r : @SearchResult T) : @MemoryDocument T :=
  {| content := r_content r; metadata := r_metadata r |}.

(** Ranking with ties in the order of the input. *)
Definition rankedAfter {T : Type} (l : list (@Scored T)) (u v : @Scored T) : Prop :=
  descending (score u) (score v) /\
  (PrimFloat.eqb (score u) (score v) = true -> comesBefore l u v).

(** The accumulator of [cosineSimilarity] with the two norms exchanged. *)
Definition swapNorms (acc : float * float * float) : float * float * float :=
  let '(d, na, nb) := acc in (d, nb, na).

(** ** Storage *)
Section ProviderContract.
Context {T Disk : Type}.

(** A storage provider that reads back what it wrote: after [save(key,
    data)] has returned, [exists(key)] is true and [load(key)] gives
    [data]. *)
Definition readsBackWhatItWrote (provider : @MemoryVectorStorageProvider T Disk) : Prop :=
  forall key data d d',
    provider_save provider key data d = (Normal tt, d') ->
    provider_exists provider key d' = Normal true /\
    provider_load provider key d' = Normal data.
End ProviderContract.

(** ** Paths *)
Section Paths.
Context {T Disk : Type}.

(** The storage path a call works on: the path of the instance it goes
    through, the key of the timer, or the path a constructor is given. *)
Definition pathOf (call : @Call T Disk) (w : @World T Disk) : option string :=
  match call with
  | CallNew _ _ opts => Some (default "default" (storagePath opts))
  | CallAdd id _ | CallRemove id _ | CallClear id | CallSave id =>
      match instances w !! id with
      | Some this => Some (storagePath (options this))
      | None => None
      end
  | TimerFires key => Some key
  end.

(** A result with score [0]. *)
Definition unscored (d : @MemoryDocument T) : @SearchResult T :=
  {| r_content := content d; r_metadata := metadata d; r_score := zero |}.
End Paths.

(** ** Records of the storage *)
Section Records.
Context {T : Type}.

(** The content of a record of the storage. *)
Definition contentOf (item : @MemoryVectorDataSerialize T) : string := fst (fst item).

(** The entry a record of the storage stands for. *)
Definition entryOf (item : @MemoryVectorDataSerialize T) : @Embedding T :=
  {| e_metadata := snd item; e_vector := snd (fst item) |}.
End Records.

(** ** A concrete configuration

    Used to run the model: an in-memory storage provider, the embedding
    function [text => [text.length, 1]], and a size measure that charges
    two bytes for the brackets and sixteen for each record. *)
Module Example.
Definition Meta : Type := string.
Definition Record_ : Type := (string * list JsPrim * option Meta)%type.
Definition Disk : Type := JsMap.t (list Record_).

Definition memoryProvider : @MemoryVectorStorageProvider Meta Disk :=
  {| provider_save := fun key data d => (Normal tt, JsMap.set d key data);
     provider_load := fun key d => Normal (default [] (JsMap.get d key));
     provider_exists := fun key d => Normal (JsMap.has d key) |}.

Definition lengthParser : MemoryVectorParser :=
  fun text =>
    Normal (JsArray [JsNumber (number_of_N (N.of_nat (String.length text)));
                     JsNumber one]).

(** An embedding function whose arrays hold no number. *)
Definition sloppyParser : MemoryVectorParser :=
  fun _ => Normal (JsArray [JsBool true; JsNull]).

(** An embedding function that gives the empty vector for the empty text. *)
Definition raggedParser : MemoryVectorParser :=
  fun text =>
    Normal (JsArray (repeat (JsNumber one) (String.length text))).

Definition byteLength (data : list Record_) : Completion N :=
  Normal (2 + 16 * N.of_nat (length data))%N.

Definition optionsFor (path : string) (auto : bool) (mb : float)
    : MemoryVectorStoreOptions (option string) :=
  {| autoSave := auto; debug := false; maxFileSizeMB := mb; storagePath := Some path |}.

Definition world0 : @World Meta Disk := initialWorld JsMap.empty.

(** One instance without auto-save, then three documents, then two more. *)
Definition world1 : World :=
  snd (newVectorStore lengthParser memoryProvider (optionsFor "vectors.json" false 1) world0).

Definition addAll (id : nat) (texts : list string) (w : @World Meta Disk) : World :=
  fold_left (fun w text => snd (add id (inl text) w)) texts w.

Definition world3 : World := addAll 0 ["a"; "bb"; "ccc"] world1.

Definition world5 : World := addAll 0 ["dddd"; "eeeee"] world3.

(** A limit of 40 bytes: two records fit, three do not. *)
Definition tinyLimit : float := (40 / (1024 * 1024))%float.

Definition worldTiny : World :=
  addAll 0 ["a"; "bb"; "ccc"]
    (snd (newVectorStore lengthParser memoryProvider
            (optionsFor "tiny.json" false tinyLimit) world0)).

Definition worldSloppy : World :=
  snd (newVectorStore sloppyParser memoryProvider (optionsFor "sloppy.json" false 1) world0).

(** An embedding function whose vectors differ in length: ['y'] gets one
    component, the other texts two. *)
Definition mixedParser : MemoryVectorParser :=
  fun text =>
    Normal (JsArray (if String.eqb text "x" then [JsNumber one; JsNumber zero]
                     else if String.eqb text "y" then [JsNumber one]
                     else [JsNumber one; JsNumber one])).

Definition worldMixed : World :=
  addAll 0 ["x"; "y"; "z"]
    (snd (newVectorStore mixedParser memoryProvider (optionsFor "mixed.json" false 1) world0)).

(** An embedding function that returns no array at all. *)
Definition brokenParser : MemoryVectorParser :=
  fun _ => Normal (JsPrimitive JsUndefined).

Definition worldBroken : World :=
  snd (newVectorStore brokenParser memoryProvider (optionsFor "broken.json" false 1) world0).

(** The instance created by [newVectorStore parser memoryProvider
    (optionsFor path auto mb) world0]. *)
Definition instanceFor (parser : MemoryVectorParser) (path : string) (auto : bool)
    (mb : float) : @VectorStore Meta Disk :=
  {| vectorParser := parser; storageProvider := memoryProvider;
     options := {| autoSave := auto; debug := false; maxFileSizeMB := mb;
                   storagePath := path |};
     cache := path; saveLock := {| promise := 0 |} |}.

Definition first : VectorStore := instanceFor lengthParser "vectors.json" false 1.
Definition tiny : VectorStore := instanceFor lengthParser "tiny.json" false tinyLimit.
Definition broken : VectorStore := instanceFor brokenParser "broken.json" false 1.

(** Arguments of [add]. *)
Definition textX : string + @MemoryDocument Meta := inl "x".
Definition textBB : string + @MemoryDocument Meta := inl "bb".
Definition documentA : string + @MemoryDocument Meta := inr (doc "a" (Some "note")).

(** The shared state registered under [path]. *)
Definition sharedState (path : string) (w : @World Meta Disk) : StoreCache :=
  default {| dirty := false; store := JsMap.empty |} (globalCache w !! path).

Definition state1 : StoreCache := Eval vm_compute in sharedState "vectors.json" world1.
Definition state3 : StoreCache := Eval vm_compute in sharedState "vectors.json" world3.
Definition stateTiny : StoreCache := Eval vm_compute in sharedState "tiny.json" worldTiny.
Definition stateSloppy : StoreCache := Eval vm_compute in sharedState "sloppy.json" worldSloppy.
Definition stateBroken : StoreCache := Eval vm_compute in sharedState "broken.json" worldBroken.

(** A second instance on the path of the first, with its own embedding
    function and auto-save. *)
Definition world3' : World :=
  snd (newVectorStore raggedParser memoryProvider (optionsFor "vectors.json" true 1) world3).

(** Calls of the runs below. *)
Definition newFirst : @Call Meta Disk :=
  CallNew lengthParser memoryProvider (optionsFor "vectors.json" false 1).
Definition newSecond : @Call Meta Disk :=
  CallNew raggedParser memoryProvider (optionsFor "vectors.json" true 1).
Definition newAuto : @Call Meta Disk :=
  CallNew lengthParser memoryProvider (optionsFor "auto.json" true 1).

(** One instance with a document that is not saved yet. *)
Definition runDirty : list (@Call Meta Disk) := [newFirst; CallAdd 0 (inl "a")].

(** Two instances on one path, and one document. *)
Definition runShared : list (@Call Meta Disk) :=
  [newFirst; newSecond; CallAdd 0 (inl "a")].

(** The second instance of [runShared] and the instance of [newAuto]. *)
Definition second : @VectorStore Meta Disk :=
  {| vectorParser := raggedParser; storageProvider := memoryProvider;
     options := {| autoSave := true; debug := false; maxFileSizeMB := 1;
                   storagePath := "vectors.json" |};
     cache := "vectors.json"; saveLock := {| promise := 1 |} |}.
Definition auto : @VectorStore Meta Disk := instanceFor lengthParser "auto.json" true 1.

(** Another argument of [add]. *)
Definition textA : string + @MemoryDocument Meta := inl "a".

(** An embedding function that fails. *)
Definition failingParser : MemoryVectorParser :=
  fun _ => Throw (JsError "no embedding").
Definition worldFailing : @World Meta Disk :=
  snd (newVectorStore failingParser memoryProvider (optionsFor "failing.json" false 1) world0).
Definition failing : @VectorStore Meta Disk :=
  instanceFor failingParser "failing.json" false 1.
Definition stateFailing : StoreCache :=
  Eval vm_compute in sharedState "failing.json" worldFailing.

(** A second instance on the path of the first whose embedding function
    returns no array. *)
Definition world3Broken : @World Meta Disk :=
  snd (newVectorStore brokenParser memoryProvider (optionsFor "vectors.json" false 1) world3).
Definition brokenSecond : @VectorStore Meta Disk :=
  {| vectorParser := brokenParser; storageProvider := memoryProvider;
     options := {| autoSave := false; debug := false; maxFileSizeMB := 1;
                   storagePath := "vectors.json" |};
     cache := "vectors.json"; saveLock := {| promise := 1 |} |}.

(** The state of the first instance once its save task has run. *)
Definition state3Saved : StoreCache :=
  Eval vm_compute in sharedState "vectors.json" (saveTask byteLength 0 world3).

(** A JSON codec that knows the empty array, the one value the runs of
    the storage providers below serialise. *)
Definition stringifyEmpty (data : list Record_) : Completion string :=
  match data with
  | [] => Normal "[]"
  | _ :: _ => Throw (JsTypeError "not serialised here")
  end.
Definition parseEmpty (text : string) : Completion (list Record_) :=
  if String.eqb text "[]" then Normal [] else Throw (Thrown "SyntaxError").

(** A storage area with room for everything. *)
Definition roomy : Storage -> string -> string -> bool := fun _ _ _ => true.

(** A file system with one directory, ['.'], that holds every file. *)
Definition flatFs : FileSystem (gmap string string) :=
  {| existsSync := fun path files =>
       (String.eqb path "." || bool_decide (is_Some (files !! path)))%bool;
     mkdirSync := fun _ files => (Normal tt, files);
     writeFileSync := fun path text files => (Normal tt, <[path := text]> files);
     readFileSync := fun path files =>
       match files !! path with
       | Some text => Normal text
       | None => Throw (Thrown "ENOENT")
       end;
     dirname := fun _ => "." |}.

(** A file system that lacks the directory of the data file and has no
    room for a file: [mkdirSync] creates the directory and [writeFileSync]
    throws. *)
Definition fullFs : FileSystem (gmap string string) :=
  {| existsSync := fun path files => bool_decide (is_Some (files !! path));
     mkdirSync := fun dir files => (Normal tt, <[dir := "<dir>"]> files);
     writeFileSync := fun _ _ files => (Throw (Thrown "ENOSPC"), files);
     readFileSync := fun path files =>
       match files !! path with
       | Some text => Normal text
       | None => Throw (Thrown "ENOENT")
       end;
     dirname := fun _ => "data" |}.

(** An instance that saves to that file system, with a store that is
    empty again and dirty. *)
Definition nodeOnFullDisk : @MemoryVectorStorageProvider Meta (gmap string string) :=
  NodeStorageProvider stringifyEmpty parseEmpty fullFs.
Definition onFullDisk : @VectorStore Meta (gmap string string) :=
  {| vectorParser := lengthParser; storageProvider := nodeOnFullDisk;
     options := {| autoSave := false; debug := false; maxFileSizeMB := 1;
                   storagePath := "data/v.json" |};
     cache := "data/v.json"; saveLock := {| promise := 0 |} |}.
Definition worldFullDisk : @World Meta (gmap string string) :=
  run byteLength
    [CallNew lengthParser nodeOnFullDisk (optionsFor "data/v.json" false 1);
     CallAdd 0 textA; CallRemove 0 "a"]
    (initialWorld ∅).
Definition stateFullDisk : @StoreCache Meta := {| dirty := true; store := JsMap.empty |}.

(** Options that ask for more than the factories allow, and options that
    pass [undefined] as the limit. *)
Definition tooLarge : PartialOptions :=
  {| given_autoSave := Missing; given_debug := Missing;
     given_maxFileSizeMB := Present (Some 5000%float); given_storagePath := Missing |}.
Definition noLimit : PartialOptions :=
  {| given_autoSave := Missing; given_debug := Missing;
     given_maxFileSizeMB := Present None; given_storagePath := Missing |}.

(** A storage in which one file has two records of the content ['a']. *)
Definition diskTwice : Disk :=
  [("twice.json",
    [("a", [JsNumber 1], None); ("b", [JsNumber 2], None); ("a", [JsNumber 3], Some "later")])].
Definition recordsTwice : list Record_ :=
  [("a", [JsNumber 1], None); ("b", [JsNumber 2], None); ("a", [JsNumber 3], Some "later")].

Definition worldTwice : @World Meta Disk := initialWorld diskTwice.

(** The auto-saving instance after one [add], and its state once the
    timer has fired. *)
Definition worldAuto : @World Meta Disk :=
  snd (add 0 textA (run byteLength [newAuto] (initialWorld JsMap.empty))).
Definition stateAutoSaved : StoreCache :=
  Eval vm_compute in sharedState "auto.json" (fireTimer byteLength "auto.json" worldAuto).

(** Two auto-saving instances on one path.  Each adds a document before
    the timer of the path fires; then the second adds another one and the
    timer fires again. *)
Definition runStuck : list (@Call Meta Disk) :=
  [newAuto; newAuto; CallAdd 0 textA; CallAdd 1 textBB; TimerFires "auto.json";
   CallAdd 1 textX; TimerFires "auto.json"].
Definition worldStuck : @World Meta Disk := run byteLength runStuck (initialWorld JsMap.empty).

(** The second instance of [world3'] adds a document. *)
Definition worldSharedAdd : @World Meta Disk := run byteLength [CallAdd 1 textX] world3'.
End Example.

(** * Properties *)

(** ** The insertion-ordered map *)
Module JsMapFacts.
Section JsMapFacts.
Context {V : Type}.
Implicit Types (m : JsMap.t V) (k : string) (v : V).

Lemma get_set_eq m k v : JsMap.get (JsMap.set m k v) k = Some v.
Proof.
  induction m as [|[k' v'] m IH]; simpl.
  - now rewrite String.eqb_refl.
  - destruct (String.eqb k' k) eqn:E; simpl; rewrite E; auto.
Qed.

Lemma get_set_ne m k k' v : k <> k' -> JsMap.get (JsMap.set m k v) k' = JsMap.get m k'.
Proof.
  intros Hne. induction m as [|[k0 v0] m IH]; simpl.
  - destruct (String.eqb k k') eqn:E; auto.
    apply String.eqb_eq in E. contradiction.
  - destruct (String.eqb k0 k) eqn:E; simpl.
    + apply String.eqb_eq in E. subst k0.
      destruct (String.eqb k k') eqn:E'; auto.
      apply String.eqb_eq in E'. contradiction.
    + now rewrite IH.
Qed.

Lemma keys_set_present m k v :
  JsMap.has m k = true -> JsMap.keys (JsMap.set m k v) = JsMap.keys m.
Proof.
  unfold JsMap.has. induction m as [|[k' v'] m IH]; simpl; [discriminate|].
  destruct (String.eqb k' k) eqn:E; simpl; intros H; [reflexivity|].
  f_equal. now apply IH.
Qed.

Lemma keys_set_absent m k v :
  JsMap.get m k = None -> JsMap.keys (JsMap.set m k v) = JsMap.keys m ++ [k].
Proof.
  induction m as [|[k' v'] m IH]; simpl; [reflexivity|].
  destruct (String.eqb k' k) eqn:E; simpl; intros H; [discriminate|].
  f_equal. now apply IH.
Qed.

Lemma set_absent m k v : JsMap.get m k = None -> JsMap.set m k v = m ++ [(k, v)].
Proof.
  induction m as [|[k' v'] m IH]; simpl; [reflexivity|].
  destruct (String.eqb k' k) eqn:E; simpl; intros H; [discriminate|].
  f_equal. now apply IH.
Qed.

Lemma size_set_present m k v :
  JsMap.has m k = true -> JsMap.size (JsMap.set m k v) = JsMap.size m.
Proof.
  intros H. unfold JsMap.size.
  rewrite <- (length_map fst (JsMap.set m k v)), <- (length_map fst m).
  change (map fst (JsMap.set m k v)) with (JsMap.keys (JsMap.set m k v)).
  now rewrite keys_set_present.
Qed.

Lemma get_None_not_in m k : JsMap.get m k = None <-> ~ In k (JsMap.keys m).
Proof.
  induction m as [|[k' v'] m IH]; simpl.
  - tauto.
  - destruct (String.eqb k' k) eqn:E.
    + apply String.eqb_eq in E. split; [discriminate | tauto].
    + apply String.eqb_neq in E. rewrite IH. tauto.
Qed.

Lemma get_entry m k v : In (k, v) m -> exists v', JsMap.get m k = Some v'.
Proof.
  induction m as [|[k' v'] m IH]; simpl; [tauto|].
  intros [H | H].
  - inversion H; subst. rewrite String.eqb_refl. eauto.
  - destruct (String.eqb k' k); eauto.
Qed.

Lemma delete_absent m k : JsMap.get m k = None -> JsMap.delete m k = m.
Proof.
  induction m as [|[k' v'] m IH]; simpl; [reflexivity|].
  destruct (String.eqb k' k); [discriminate|].
  intros H. f_equal. now apply IH.
Qed.

Lemma size_delete_present m k :
  JsMap.has m k = true -> S (JsMap.size (JsMap.delete m k)) = JsMap.size m.
Proof.
  unfold JsMap.has, JsMap.size. induction m as [|[k' v'] m IH]; simpl; [discriminate|].
  destruct (String.eqb k' k); simpl; [reflexivity|].
  intros H. f_equal. now apply IH.
Qed.

Lemma wf_set m k v : JsMap.wf m -> JsMap.wf (JsMap.set m k v).
Proof.
  unfold JsMap.wf. intros Hnd.
  destruct (JsMap.get m k) eqn:E.
  - rewrite keys_set_present; [assumption|]. unfold JsMap.has. now rewrite E.
  - rewrite keys_set_absent by assumption.
    apply NoDup_app. repeat split; [assumption | | apply NoDup_singleton].
    intros x Hx Hx'. apply list_elem_of_In in Hx. apply list_elem_of_In in Hx'.
    destruct Hx' as [<-|[]]. now apply get_None_not_in in E.
Qed.

Lemma wf_delete m k : JsMap.wf m -> JsMap.wf (JsMap.delete m k).
Proof.
  unfold JsMap.wf. induction m as [|[k' v'] m IH]; simpl; [auto|].
  intros Hnd. apply NoDup_cons in Hnd as [Hnotin Hnd].
  destruct (String.eqb k' k); simpl; [assumption|].
  apply NoDup_cons. split; [|now apply IH].
  intros Hin. apply Hnotin. clear -Hin.
  apply list_elem_of_In in Hin. apply list_elem_of_In.
  induction m as [|[k0 v0] m IH]; simpl in *; [tauto|].
  destruct (String.eqb k0 k); simpl in *; tauto.
Qed.
End JsMapFacts.
End JsMapFacts.

(** ** How [save] touches the state *)
Section SaveFrame.
Context {T Disk : Type}.
Implicit Types (w : @World T Disk) (this : @VectorStore T Disk).

Lemma save_globalCache id w : globalCache (snd (save id w)) = globalCache w.
Proof.
  unfold save. destruct (getThis id w) as [this|]; [|reflexivity].
  destruct (thisCache this w) as [c|]; [|reflexivity].
  destruct (negb (dirty c) || negb (truthy (storagePath (options this))))%bool;
    reflexivity.
Qed.

Lemma save_trace id w : trace (snd (save id w)) = trace w.
Proof.
  unfold save. destruct (getThis id w) as [this|]; [|reflexivity].
  destruct (thisCache this w) as [c|]; [|reflexivity].
  destruct (negb (dirty c) || negb (truthy (storagePath (options this))))%bool;
    reflexivity.
Qed.

(** [save] replaces at most the locker of the instance it is called on. *)
Lemma save_instances id w j this :
  instances w !! j = Some this ->
  exists this',
    instances (snd (save id w)) !! j = Some this' /\
    cache this' = cache this /\ options this' = options this /\
    vectorParser this' = vectorParser this /\
    storageProvider this' = storageProvider this /\
    (j <> id -> this' = this).
Proof.
  intros Hj.
  assert (Hsame : exists this',
    instances w !! j = Some this' /\
    cache this' = cache this /\ options this' = options this /\
    vectorParser this' = vectorParser this /\
    storageProvider this' = storageProvider this /\
    (j <> id -> this' = this)) by (exists this; repeat split; auto).
  unfold save, getThis.
  destruct (instances w !! id) as [self|] eqn:Hid; [|exact Hsame].
  destruct (thisCache self w) as [c|]; [|exact Hsame].
  destruct (negb (dirty c) || negb (truthy (storagePath (options self))))%bool;
    [exact Hsame|].
  clear Hsame. simpl. destruct (decide (j = id)) as [->|Hne].
  - assert (self = this) as -> by congruence.
    eexists. split.
    + apply list_lookup_insert_eq. eapply lookup_lt_Some, Hid.
    + simpl. repeat split; auto. contradiction.
  - exists this. rewrite list_lookup_insert_ne by congruence.
    repeat split; auto.
Qed.

Lemma setThisCache_id this w c :
  globalCache w !! cache this = Some c -> setThisCache this c w = w.
Proof.
  intros H. destruct w. unfold setThisCache, setGlobalCache. simpl in *.
  f_equal. now apply insert_id.
Qed.

Lemma thisCache_setThisCache this this' c w :
  cache this' = cache this -> thisCache this' (setThisCache this c w) = Normal c.
Proof.
  intros H. unfold thisCache, setThisCache. simpl. rewrite H.
  now rewrite lookup_insert_eq.
Qed.

Lemma StoreCache_eta (c : @StoreCache T) : {| dirty := dirty c; store := store c |} = c.
Proof. now destruct c. Qed.
End SaveFrame.

(** ** [save], [remove], [clear], [getAll], [count] and [add] *)
Section Mutations.
Context {T Disk : Type}.
Implicit Types (w : @World T Disk) (this : @VectorStore T Disk) (c : @StoreCache T).

(** C8: when the shared state is not dirty, or the storage path is the
    empty string (the only way to have none: the constructor replaces a
    missing path by 'default'), [save()] returns an already resolved promise
    and leaves the whole state as it was: the map, the dirty flag, the locker
    and its promises, the pending timers, and the trace of provider calls. *)
Theorem save_noop_when_clean_or_pathless id w this c :
  getThis id w = Normal this ->
  thisCache this w = Normal c ->
  dirty c = false \/ storagePath (options this) = "" ->
  save id w = (Normal ResolvedNow, w).
Proof.
  intros Hthis Hc Hguard. unfold save. rewrite Hthis, Hc.
  destruct Hguard as [-> | ->]; [reflexivity|].
  now rewrite orb_true_r.
Qed.

Lemma remove_absent id w this c key :
  getThis id w = Normal this ->
  thisCache this w = Normal c ->
  JsMap.get (store c) key = None ->
  remove id key w = (Normal tt, w).
Proof.
  intros Hthis Hc Habs. unfold remove. rewrite Hthis, Hc.
  rewrite JsMapFacts.delete_absent by assumption.
  rewrite Nat.eqb_refl. simpl. f_equal.
  rewrite StoreCache_eta. apply setThisCache_id.
  unfold thisCache in Hc. destruct (globalCache w !! cache this); congruence.
Qed.

Lemma remove_present id w this c key :
  getThis id w = Normal this ->
  thisCache this w = Normal c ->
  JsMap.has (store c) key = true ->
  fst (remove id key w) = Normal tt /\
  thisCache this (snd (remove id key w)) =
    Normal {| dirty := true; store := JsMap.delete (store c) key |}.
Proof.
  intros Hthis Hc Hhas. unfold remove. rewrite Hthis, Hc.
  pose proof (JsMapFacts.size_delete_present _ _ Hhas) as Hsize.
  destruct (Nat.eqb_spec (JsMap.size (JsMap.delete (store c) key)) (JsMap.size (store c)))
    as [Heq | _]; [lia|].
  simpl. split; [reflexivity|].
  destruct (autoSave (options this)).
  - unfold thisCache. rewrite save_globalCache. simpl. now rewrite lookup_insert_eq.
  - now apply thisCache_setThisCache.
Qed.

(** The map after [remove] and after [clear]. *)
Lemma remove_store id w this c key :
  getThis id w = Normal this ->
  thisCache this w = Normal c ->
  exists flag,
    thisCache this (snd (remove id key w)) =
      Normal {| dirty := flag; store := JsMap.delete (store c) key |}.
Proof.
  intros Hthis Hc. unfold remove. rewrite Hthis, Hc.
  destruct (negb _); simpl.
  - exists true. destruct (autoSave (options this)).
    + unfold thisCache. rewrite save_globalCache. simpl. now rewrite lookup_insert_eq.
    + now apply thisCache_setThisCache.
  - exists (dirty c). now apply thisCache_setThisCache.
Qed.

Lemma clear_store id w this c :
  getThis id w = Normal this ->
  thisCache this w = Normal c ->
  exists flag,
    thisCache this (snd (clear id w)) = Normal {| dirty := flag; store := JsMap.empty |}.
Proof.
  intros Hthis Hc. unfold clear. rewrite Hthis, Hc.
  destruct (Nat.ltb_spec 0 (JsMap.size (store c))) as [Hpos | Hzero]; simpl.
  - exists true. destruct (autoSave (options this)).
    + unfold thisCache. rewrite save_globalCache. simpl. now rewrite lookup_insert_eq.
    + now apply thisCache_setThisCache.
  - exists (dirty c). rewrite Hc. f_equal. destruct c as [flag m]. simpl in *.
    destruct m; [reflexivity | simpl in Hzero; lia].
Qed.

(** C9: on an instance attached to its shared state, [remove], [clear],
    [getAll] and [count] complete normally whatever the arguments; removing
    a content that is not stored leaves the whole state, dirty flag
    included, as it was, and removing a stored one sets the dirty flag. *)
Theorem remove_clear_getAll_count_never_throw id w this c key :
  getThis id w = Normal this ->
  thisCache this w = Normal c ->
  fst (remove id key w) = Normal tt /\
  fst (clear id w) = Normal tt /\
  getAll id w = Normal (map toDocument (JsMap.entries (store c))) /\
  count id w = Normal (JsMap.size (store c)) /\
  (JsMap.has (store c) key = false -> remove id key w = (Normal tt, w)) /\
  (JsMap.has (store c) key = true ->
   exists c', thisCache this (snd (remove id key w)) = Normal c' /\ dirty c' = true).
Proof.
  intros Hthis Hc. repeat split.
  - unfold remove. rewrite Hthis, Hc.
    now destruct (negb _).
  - unfold clear. rewrite Hthis, Hc. now destruct (Nat.ltb _ _).
  - unfold getAll. now rewrite Hthis; simpl; rewrite Hc.
  - unfold count. now rewrite Hthis; simpl; rewrite Hc.
  - intros Hhas. eapply remove_absent; eauto.
    unfold JsMap.has in Hhas. now destruct (JsMap.get (store c) key).
  - intros Hhas. eexists. split; [eapply remove_present; eauto | reflexivity].
Qed.

Lemma add_trace id w this document :
  getThis id w = Normal this ->
  trace (snd (add id document w)) =
    trace w ++ [ParserCalled (content (asDocument document))].
Proof.
  intros Hthis. unfold add. rewrite Hthis.
  destruct (vectorParser this _) as [v|]; [|reflexivity].
  destruct (negb (Array_isArray v)); [reflexivity|].
  destruct (thisCache this _) as [c|]; [|reflexivity].
  destruct (autoSave (options this)); simpl; [now rewrite save_trace|reflexivity].
Qed.

Lemma thisCache_emit this e w : thisCache this (emit e w) = thisCache this w.
Proof. reflexivity. Qed.

(** What a successful [add] leaves behind. *)
Lemma add_array id w this c document elems :
  getThis id w = Normal this ->
  thisCache this w = Normal c ->
  vectorParser this (content (asDocument document)) = Normal (JsArray elems) ->
  let d := asDocument document in
  let entry := {| e_metadata := metadata d; e_vector := elems |} in
  fst (add id document w) = Normal {| document := d; vector := JsArray elems |} /\
  thisCache this (snd (add id document w)) =
    Normal {| dirty := true; store := JsMap.set (store c) (content d) entry |}.
Proof.
  intros Hthis Hc Hv d entry. subst d entry. unfold add. rewrite Hthis. cbv zeta.
  rewrite Hv. simpl. rewrite thisCache_emit, Hc. simpl. split; [reflexivity|].
  destruct (autoSave (options this)).
  - unfold thisCache. rewrite save_globalCache. simpl. now rewrite lookup_insert_eq.
  - now apply thisCache_setThisCache.
Qed.

(** C10: a call to [add] on an instance calls the embedding function once,
    with the content of the document, and nothing else of the collaborators;
    this holds whether or not the content is already stored.  When the
    function returns an array, that array is what the map holds for the
    content afterwards. *)
Theorem add_always_calls_parser_once id w this c document :
  getThis id w = Normal this ->
  thisCache this w = Normal c ->
  let d := asDocument document in
  trace (snd (add id document w)) = trace w ++ [ParserCalled (content d)] /\
  (forall elems,
     vectorParser this (content d) = Normal (JsArray elems) ->
     exists c',
       thisCache this (snd (add id document w)) = Normal c' /\
       JsMap.get (store c') (content d) =
         Some {| e_metadata := metadata d; e_vector := elems |}).
Proof.
  intros Hthis Hc d. split; [now apply (add_trace id w this)|].
  intros elems Hv.
  destruct (add_array id w this c document elems Hthis Hc Hv) as [_ Hc'].
  eexists. split; [exact Hc'|]. simpl. apply JsMapFacts.get_set_eq.
Qed.

Lemma count_after id w this c' :
  getThis id w = Normal this ->
  forall w', (exists this', getThis id w' = Normal this' /\ cache this' = cache this) ->
  thisCache this w' = Normal c' ->
  count id w' = Normal (JsMap.size (store c')).
Proof.
  intros _ w' (this' & Hthis' & Hcache) Hc'. unfold count. rewrite Hthis'. simpl.
  unfold thisCache in *. rewrite Hcache. destruct (globalCache w' !! cache this); [|discriminate].
  simpl. congruence.
Qed.

Lemma add_keeps_instance id w this document :
  getThis id w = Normal this ->
  exists this', getThis id (snd (add id document w)) = Normal this' /\
                cache this' = cache this.
Proof.
  intros Hthis. unfold add. rewrite Hthis.
  assert (Hsame : exists this', getThis id w = Normal this' /\ cache this' = cache this)
    by eauto.
  destruct (vectorParser this _) as [v|]; [|exact Hsame].
  destruct (negb (Array_isArray v)); [exact Hsame|].
  destruct (thisCache this _) as [c|]; [|exact Hsame].
  destruct (autoSave (options this)); [|exact Hsame].
  simpl. unfold getThis in Hthis.
  destruct (instances w !! id) as [x|] eqn:Hid; [|discriminate].
  assert (x = this) as -> by congruence.
  edestruct (save_instances id
    (setThisCache this
       {| dirty := true;
          store := JsMap.set (store c) (content (asDocument document))
                     {| e_metadata := metadata (asDocument document);
                        e_vector := elements v |} |}
       (emit (ParserCalled (content (asDocument document))) w)) id this)
    as (this' & Hl & Hcache & _); [exact Hid|].
  exists this'. unfold getThis. now rewrite Hl.
Qed.

(** C5: adding a document whose content is already a key of the map
    replaces the vector and the metadata stored under that key by those of
    this call, leaves every other entry, the order of the keys and hence
    [count()] as they were, and returns the document and the vector of this
    call. *)
Theorem add_existing_overwrites id w this c document elems old :
  getThis id w = Normal this ->
  thisCache this w = Normal c ->
  JsMap.get (store c) (content (asDocument document)) = Some old ->
  vectorParser this (content (asDocument document)) = Normal (JsArray elems) ->
  let d := asDocument document in
  let w' := snd (add id document w) in
  fst (add id document w) = Normal {| document := d; vector := JsArray elems |} /\
  exists c',
    thisCache this w' = Normal c' /\
    JsMap.get (store c') (content d) =
      Some {| e_metadata := metadata d; e_vector := elems |} /\
    (forall key, key <> content d -> JsMap.get (store c') key = JsMap.get (store c) key) /\
    JsMap.keys (store c') = JsMap.keys (store c) /\
    count id w' = count id w.
Proof.
  intros Hthis Hc Hold Hv d w'.
  destruct (add_array id w this c document elems Hthis Hc Hv) as [Hres Hc'].
  split; [exact Hres|]. eexists. split; [exact Hc'|]. simpl.
  assert (Hhas : JsMap.has (store c) (content d) = true)
    by (unfold JsMap.has; fold d in Hold; now rewrite Hold).
  repeat split.
  - apply JsMapFacts.get_set_eq.
  - intros key Hne. apply JsMapFacts.get_set_ne. intros Heq. now apply Hne.
  - now apply JsMapFacts.keys_set_present.
  - rewrite (count_after id w this _ Hthis w' (add_keeps_instance id w this document Hthis) Hc').
    simpl. rewrite JsMapFacts.size_set_present by assumption.
    symmetry. eapply count_after; eauto.
Qed.

(** C3, as the code has it: the check is [Array.isArray].  When the
    embedding function returns something that is not an array, [add]
    throws 'Vector parser must return an array' and the only change to the
    state is the record of the call to the function; in particular the map
    and the dirty flag keep their values.  When it returns an array, the
    array is stored whatever its elements are. *)
Theorem add_rejects_non_array id w this c document v :
  getThis id w = Normal this ->
  thisCache this w = Normal c ->
  vectorParser this (content (asDocument document)) = Normal v ->
  let d := asDocument document in
  (Array_isArray v = false ->
   add id document w =
     (Throw (JsError "Vector parser must return an array"),
      emit (ParserCalled (content d)) w) /\
   globalCache (snd (add id document w)) = globalCache w) /\
  (forall elems, v = JsArray elems ->
   fst (add id document w) = Normal {| document := d; vector := v |} /\
   thisCache this (snd (add id document w)) =
     Normal {| dirty := true;
               store := JsMap.set (store c) (content d)
                          {| e_metadata := metadata d; e_vector := elems |} |}).
Proof.
  intros Hthis Hc Hv d. split.
  - intros Harr. subst d. unfold add. rewrite Hthis. cbv zeta.
    rewrite Hv, Harr. simpl. auto.
  - intros elems ->. now apply add_array.
Qed.
End Mutations.

(** ** Instances and the registry over time *)
Section Sharing.
Context {T Disk : Type}.
Implicit Types (w : @World T Disk) (this : @VectorStore T Disk) (c : @StoreCache T).

Lemma evolves_refl w : evolves w w.
Proof.
  split; [|auto]. intros j this Hj. exists this. auto.
Qed.

Lemma evolves_trans w1 w2 w3 : evolves w1 w2 -> evolves w2 w3 -> evolves w1 w3.
Proof.
  intros [Hi1 Hg1] [Hi2 Hg2]. split; [|auto].
  intros j this Hj.
  destruct (Hi1 _ _ Hj) as (this' & Hj' & Hc & Ho & Hp & Hs).
  destruct (Hi2 _ _ Hj') as (this'' & Hj'' & Hc' & Ho' & Hp' & Hs').
  exists this''. repeat split; congruence.
Qed.

Lemma evolves_same w w' :
  instances w' = instances w ->
  (forall path, is_Some (globalCache w !! path) -> is_Some (globalCache w' !! path)) ->
  evolves w w'.
Proof.
  intros Hi Hg. split; [|assumption].
  intros j this Hj. exists this. rewrite Hi. auto.
Qed.

Lemma evolves_setThisCache this c w : evolves w (setThisCache this c w).
Proof.
  apply evolves_same; [reflexivity|]. intros path Hp. simpl.
  destruct (decide (cache this = path)) as [<-|Hne].
  - rewrite lookup_insert_eq. eauto.
  - now rewrite lookup_insert_ne.
Qed.

Lemma evolves_emit e w : evolves w (emit e w).
Proof. now apply evolves_same. Qed.

Lemma evolves_save id w : evolves w (snd (save id w)).
Proof.
  split.
  - intros j this Hj.
    destruct (save_instances id w j this Hj) as (this' & H1 & H2 & H3 & H4 & H5 & _).
    eauto 10.
  - intros path. now rewrite save_globalCache.
Qed.

Lemma evolves_add id document w : evolves w (snd (add id document w)).
Proof.
  unfold add. destruct (getThis id w) as [this|]; [|apply evolves_refl].
  cbv zeta. destruct (vectorParser this _) as [v|]; [|apply evolves_emit].
  destruct (negb (Array_isArray v)); [apply evolves_emit|].
  destruct (thisCache this _) as [c|]; [|apply evolves_emit].
  simpl. eapply evolves_trans; [apply evolves_emit|].
  eapply evolves_trans; [apply evolves_setThisCache|].
  destruct (autoSave (options this)); [apply evolves_save|apply evolves_refl].
Qed.

Lemma evolves_remove id key w : evolves w (snd (remove id key w)).
Proof.
  unfold remove. destruct (getThis id w) as [this|]; [|apply evolves_refl].
  destruct (thisCache this w) as [c|]; [|apply evolves_refl].
  destruct (negb _); simpl; [|apply evolves_setThisCache].
  eapply evolves_trans; [apply evolves_setThisCache|].
  eapply evolves_trans; [apply evolves_setThisCache|].
  destruct (autoSave (options this)); [apply evolves_save|apply evolves_refl].
Qed.

Lemma evolves_clear id w : evolves w (snd (clear id w)).
Proof.
  unfold clear. destruct (getThis id w) as [this|]; [|apply evolves_refl].
  destruct (thisCache this w) as [c|]; [|apply evolves_refl].
  destruct (Nat.ltb _ _); simpl; [|apply evolves_refl].
  eapply evolves_trans; [apply evolves_setThisCache|].
  destruct (autoSave (options this)); [apply evolves_save|apply evolves_refl].
Qed.

Lemma evolves_mutate id m w : evolves w (mutate id m w).
Proof.
  destruct m; simpl; [apply evolves_add | apply evolves_remove | apply evolves_clear].
Qed.

Lemma evolves_mutateAll ms w : evolves w (mutateAll ms w).
Proof.
  revert w. induction ms as [|[id m] ms IH]; intros w; simpl.
  - apply evolves_refl.
  - eapply evolves_trans; [apply evolves_mutate | apply IH].
Qed.

(** Two instances that hold the same reference read the same data. *)
Lemma same_reference_same_reads w id1 id2 this1 this2 :
  getThis id1 w = Normal this1 ->
  getThis id2 w = Normal this2 ->
  cache this1 = cache this2 ->
  thisCache this1 w = thisCache this2 w /\
  count id1 w = count id2 w /\
  getAll id1 w = getAll id2 w /\
  (forall query k filter,
     vectorParser this1 query = vectorParser this2 query ->
     isResolved (wait (saveLock this1)) w = true ->
     isResolved (wait (saveLock this2)) w = true ->
     similaritySearch id1 query k filter w = similaritySearch id2 query k filter w).
Proof.
  intros H1 H2 Hc.
  assert (Hsame : thisCache this1 w = thisCache this2 w)
    by (unfold thisCache; now rewrite Hc).
  repeat split.
  - exact Hsame.
  - unfold count. rewrite H1, H2. simpl. now rewrite Hsame.
  - unfold getAll. rewrite H1, H2. simpl. now rewrite Hsame.
  - intros query k filter Hp Hr1 Hr2. unfold similaritySearch.
    rewrite H1, H2, Hr1, Hr2, Hsame, Hp. reflexivity.
Qed.

Lemma newVectorStore_attaches parser provider opts w path c0 :
  default "default" (storagePath opts) = path ->
  globalCache w !! path = Some c0 ->
  let id2 := fst (newVectorStore parser provider opts w) in
  let w1 := snd (newVectorStore parser provider opts w) in
  trace w1 = trace w /\ disk w1 = disk w /\ globalCache w1 = globalCache w /\
  id2 = length (instances w) /\
  (exists this2, getThis id2 w1 = Normal this2 /\ cache this2 = path /\
                 vectorParser this2 = parser /\
                 isResolved (wait (saveLock this2)) w1 = true) /\
  (forall id1 this1, getThis id1 w = Normal this1 -> getThis id1 w1 = Normal this1).
Proof.
  intros Hpath Hreg. unfold newVectorStore, newLocker, lock, newPromise, initializeStore.
  cbn -[default]. rewrite Hpath, Hreg. cbn.
  split; [reflexivity|]. split; [reflexivity|]. split; [reflexivity|].
  split; [reflexivity|]. split.
  - eexists. split.
    + unfold getThis. cbn. rewrite lookup_app_r by lia.
      rewrite Nat.sub_diag. reflexivity.
    + split; [reflexivity|]. split; [reflexivity|].
      unfold isResolved. cbn. apply bool_decide_eq_true. set_solver.
  - intros id1 this1. unfold getThis. cbn.
    destruct (instances w !! id1) as [x|] eqn:Hx; [|discriminate].
    intros H. rewrite lookup_app_l by (eapply lookup_lt_Some; eauto).
    now rewrite Hx.
Qed.

End Sharing.

(** ** The save task and its size bound *)
Section SaveTask.
Context {T Disk : Type}.
Variable jsonByteLength : list (string * list JsPrim * option T) -> Completion N.
Implicit Types (w : @World T Disk) (this : @VectorStore T Disk) (c : @StoreCache T).
Implicit Types (m : JsMap.t (@Embedding T)).

Lemma deserializeInto_serializeItem m (entry : string * @Embedding T) :
  deserializeInto m (serializeItem entry) = JsMap.set m (fst entry) (snd entry).
Proof. destruct entry as [k [md v]]. reflexivity. Qed.

(** Re-inserting the entries of a map into a map that has none of their
    keys appends them in order. *)
Lemma rebuild_app m acc :
  JsMap.wf m ->
  (forall k, In k (JsMap.keys m) -> ~ In k (JsMap.keys acc)) ->
  fold_left deserializeInto (map serializeItem m) acc = acc ++ m.
Proof.
  unfold JsMap.wf. revert acc.
  induction m as [|[k e] m IH]; intros acc Hnd Hdisj; cbn [map fold_left].
  - now rewrite app_nil_r.
  - apply NoDup_cons in Hnd as [Hk Hnd].
    rewrite (deserializeInto_serializeItem acc (k, e)). cbn [fst snd].
    rewrite JsMapFacts.set_absent
      by (apply JsMapFacts.get_None_not_in, Hdisj; simpl; auto).
    rewrite IH; [now rewrite <- app_assoc | assumption |].
    intros k' Hin Hin'. unfold JsMap.keys in Hin'. rewrite map_app in Hin'.
    apply in_app_iff in Hin' as [Hin' | [<- | []]].
    + apply (Hdisj k'); simpl; auto.
    + apply Hk. now apply list_elem_of_In.
Qed.

Lemma wf_drop m k : JsMap.wf m -> JsMap.wf (drop k m).
Proof.
  unfold JsMap.wf, JsMap.keys. intros H.
  rewrite <- List.skipn_map.
  rewrite <- (take_drop k (map fst m)) in H. now apply NoDup_app in H as (_ & _ & H).
Qed.

Lemma serialize_drop m k :
  drop k (map serializeItem m) = map serializeItem (drop k m).
Proof. apply List.skipn_map. Qed.

(** What the loop computes: the number of records dropped from the
    front. *)
Lemma trim_spec limit l n :
  jsonByteLength l = Normal n ->
  (forall k, exists size, jsonByteLength (drop k l) = Normal size) ->
  exists k n',
    trim jsonByteLength limit l n = Normal (drop k l, n') /\
    k <= length l /\
    jsonByteLength (drop k l) = Normal n' /\
    (drop k l = [] \/ exceeds n' limit = false) /\
    (forall j size, j < k -> jsonByteLength (drop j l) = Normal size ->
                    exceeds size limit = true).
Proof.
  revert n. induction l as [|x rest IH]; intros n Hn Htotal.
  - exists 0, n. simpl. repeat split; auto. intros j size Hj. lia.
  - simpl. destruct (exceeds n limit) eqn:Hex.
    + destruct (Htotal 1) as [size Hsize]. simpl in Hsize. rewrite drop_0 in Hsize.
      rewrite Hsize. simpl.
      destruct (IH size Hsize) as (k & n' & Htrim & Hk & Hjson & Hfit & Hmax).
      { intros k. apply (Htotal (S k)). }
      exists (S k), n'. simpl. repeat split; auto; [lia|].
      intros [|j] sz Hj Hsz.
      * rewrite drop_0 in Hsz. congruence.
      * simpl in Hsz. apply (Hmax j); [lia | assumption].
    + exists 0, n. rewrite drop_0. repeat split; auto; [lia|].
      intros j size Hj. lia.
Qed.

Lemma number_or_truthy x d :
  PrimFloat.eqb x zero = false -> is_nan x = false -> number_or x d = x.
Proof. intros H1 H2. unfold number_or. now rewrite H1, H2. Qed.

(** C4: the save task, run on a state whose serialisation can be measured.
    It drops [k] records from the front of the serialised entries: the rest
    fits in [maxFileSizeMB] mebibytes or is empty, while every longer
    suffix, the full sequence included, is too large (so nothing is dropped
    when the sequence fits).  Afterwards the map holds exactly the entries
    that were not dropped, in their order; the [save] of the storage
    provider is called once, with those records; and no dropped record is
    in the map or in the data handed to the provider. *)
Theorem save_task_evicts_oldest_until_fit id w this c :
  getThis id w = Normal this ->
  thisCache this w = Normal c ->
  JsMap.wf (store c) ->
  PrimFloat.eqb (maxFileSizeMB (options this)) zero = false ->
  is_nan (maxFileSizeMB (options this)) = false ->
  let serialized := map serializeItem (JsMap.entries (store c)) in
  let limit := (maxFileSizeMB (options this) * 1024 * 1024)%float in
  (forall k, exists size, jsonByteLength (drop k serialized) = Normal size) ->
  exists k,
    k <= length serialized /\
    let evicted := take k serialized in
    let kept := drop k serialized in
    (kept = [] \/
     exists size, jsonByteLength kept = Normal size /\ exceeds size limit = false) /\
    (forall j size, j < k -> jsonByteLength (drop j serialized) = Normal size ->
                    exceeds size limit = true) /\
    let w' := saveTask jsonByteLength id w in
    (exists c',
       thisCache this w' = Normal c' /\
       JsMap.entries (store c') = drop k (JsMap.entries (store c)) /\
       map serializeItem (JsMap.entries (store c')) = kept /\
       (forall item, In item evicted ->
          JsMap.get (store c') (fst (fst item)) = None /\ ~ In item kept)) /\
    trace w' = trace w ++ [ProviderSave (storagePath (options this)) kept].
Proof.
  intros Hthis Hc Hwf Hnz Hnan serialized limit Htotal.
  assert (Hlimit : maxSizeBytes (options this) = limit)
    by (unfold maxSizeBytes, limit; now rewrite number_or_truthy).
  (* the number of dropped records and the state of the map after the
     trimming step *)
  assert (Htrim : exists k n',
    k <= length serialized /\
    jsonByteLength (drop k serialized) = Normal n' /\
    (drop k serialized = [] \/ exceeds n' limit = false) /\
    (forall j size, j < k -> jsonByteLength (drop j serialized) = Normal size ->
                    exceeds size limit = true) /\
    exists r w1,
      saveTry jsonByteLength this w = (r, w1) /\
      trace w1 = trace w ++ [ProviderSave (storagePath (options this)) (drop k serialized)] /\
      exists c', thisCache this w1 = Normal c' /\ store c' = drop k (store c)).
  { destruct (Htotal 0) as [n0 Hn0]. rewrite drop_0 in Hn0.
    unfold saveTry. rewrite Hc. fold serialized. rewrite Hn0, Hlimit.
    destruct (exceeds n0 limit && Nat.ltb 0 (length serialized))%bool eqn:Hcond.
    - apply andb_true_iff in Hcond as [Hex _].
      destruct (trim_spec limit serialized n0 Hn0 Htotal)
        as (k & n' & Htr & Hk & Hjson & Hfit & Hmax).
      exists k, n'. repeat split; auto.
      rewrite Htr.
      match goal with
      | |- context [fold_left ?f ?l ?a] =>
          assert (Hre : fold_left f l a = drop k (store c));
            [unfold serialized, JsMap.entries, JsMap.clear;
             rewrite serialize_drop, rebuild_app; auto using wf_drop
            | rewrite Hre]
      end.
      match goal with
      | |- context [provider_save ?p ?key ?data ?dsk] =>
          destruct (provider_save p key data dsk) as [[u|e] d]
      end.
      + rewrite thisCache_emit. rewrite thisCache_setThisCache by reflexivity.
        do 2 eexists. split; [reflexivity|]. split; [reflexivity|].
        eexists. split; [apply thisCache_setThisCache; reflexivity | reflexivity].
      + do 2 eexists. split; [reflexivity|]. split; [reflexivity|].
        eexists. change (thisCache this (setDisk ?d ?x)) with (thisCache this x).
        rewrite thisCache_emit.
        split; [apply thisCache_setThisCache; reflexivity | reflexivity].
    - exists 0, n0. rewrite drop_0.
      assert (Hfit : serialized = [] \/ exceeds n0 limit = false).
      { apply andb_false_iff in Hcond as [Hex | Hlen]; [now right | left].
        destruct serialized; [reflexivity | discriminate]. }
      repeat split; auto; [lia | intros j size Hj; lia |].
      match goal with
      | |- context [provider_save ?p ?key ?data ?dsk] =>
          destruct (provider_save p key data dsk) as [[u|e] d]
      end.
      + rewrite thisCache_emit, Hc.
        do 2 eexists. split; [reflexivity|]. split; [reflexivity|].
        eexists. split; [apply thisCache_setThisCache; reflexivity | reflexivity].
      + do 2 eexists. split; [reflexivity|]. split; [reflexivity|].
        exists c. change (thisCache this (setDisk ?d ?x)) with (thisCache this x).
        now rewrite thisCache_emit. }
  destruct Htrim as (k & n' & Hk & Hjson & Hfit & Hmax & r & w1 & Htry & Htrace & c' & Hc' & Hstore).
  exists k. split; [assumption|]. cbv zeta.
  split; [destruct Hfit; eauto|]. split; [assumption|].
  unfold saveTask. rewrite Hthis, Htry. simpl. split; [|assumption].
  exists c'. split; [exact Hc'|]. unfold JsMap.entries. rewrite Hstore.
  split; [reflexivity|]. split; [now rewrite <- serialize_drop|].
  intros item Hin.
  assert (Hnd : NoDup (map (fun x => fst (fst x)) serialized)).
  { unfold serialized, JsMap.entries. rewrite List.map_map.
    erewrite List.map_ext; [exact Hwf|]. now intros [key e]. }
  rewrite <- (take_drop k serialized) in Hnd. rewrite List.map_app in Hnd.
  apply NoDup_app in Hnd as (_ & Hdisj & _).
  assert (Hkey : fst (fst item) ∈ map (fun x => fst (fst x)) (take k serialized)).
  { apply list_elem_of_In. now apply (in_map (fun x => fst (fst x))). }
  specialize (Hdisj _ Hkey). split.
  - apply JsMapFacts.get_None_not_in. intros Hin'. apply Hdisj.
    unfold serialized, JsMap.entries. rewrite serialize_drop.
    rewrite List.map_map. apply list_elem_of_In.
    erewrite List.map_ext; [exact Hin'|]. now intros [key e].
  - intros Hin'. apply Hdisj. apply list_elem_of_In.
    now apply (in_map (fun x => fst (fst x))).
Qed.
End SaveTask.

(** ** Binary64 arithmetic

    Facts about the specification of IEEE-754 arithmetic ([SpecFloat]) that
    the comparator of [similaritySearch] and the guard of [cosineSimilarity]
    rest on. *)
Module Binary64.
Local Open Scope Z_scope.
Import Float64.

Abbreviation emin := (SpecFloat.emin prec emax).
Abbreviation fexp := (SpecFloat.fexp prec emax).

Lemma emin_value : emin = -1074.
Proof. reflexivity. Qed.

Lemma digits2_bounds (p : positive) :
  2 ^ (Zpos (digits2_pos p) - 1) <= Zpos p < 2 ^ Zpos (digits2_pos p).
Proof.
  induction p as [p IH | p IH |]; simpl digits2_pos.
  - rewrite Pos2Z.inj_succ.
    replace (Z.succ (Zpos (digits2_pos p)) - 1) with (Z.succ (Zpos (digits2_pos p) - 1)) by lia.
    rewrite !Z.pow_succ_r by lia. lia.
  - rewrite Pos2Z.inj_succ.
    replace (Z.succ (Zpos (digits2_pos p)) - 1) with (Z.succ (Zpos (digits2_pos p) - 1)) by lia.
    rewrite !Z.pow_succ_r by lia. lia.
  - simpl. lia.
Qed.

Lemma shr_m_of_loc m l : shr_m (shr_record_of_loc m l) = m.
Proof. now destruct l as [|[]]. Qed.

Lemma shr_1_spec mrs :
  0 <= shr_m mrs -> shr_m (shr_1 mrs) = Z.shiftr (shr_m mrs) 1 /\ 0 <= shr_m (shr_1 mrs).
Proof.
  destruct mrs as [m r s]. simpl. intros Hm.
  destruct m as [|[p|p|]|p]; simpl; try lia; split; try lia; reflexivity.
Qed.

Lemma shr_m_iter p mrs :
  0 <= shr_m mrs ->
  shr_m (SpecFloat.iter_pos shr_1 p mrs) = Z.shiftr (shr_m mrs) (Zpos p) /\
  0 <= shr_m (SpecFloat.iter_pos shr_1 p mrs).
Proof.
  revert mrs. induction p as [p IH | p IH |]; intros mrs Hm; simpl SpecFloat.iter_pos.
  - destruct (shr_1_spec mrs Hm) as [E1 P1].
    destruct (IH _ P1) as [E2 P2]. destruct (IH _ P2) as [E3 P3].
    split; [|assumption]. rewrite E3, E2, E1.
    rewrite !Z.shiftr_shiftr by lia. f_equal. lia.
  - destruct (IH _ Hm) as [E2 P2]. destruct (IH _ P2) as [E3 P3].
    split; [|assumption]. rewrite E3, E2.
    rewrite !Z.shiftr_shiftr by lia. f_equal. lia.
  - now apply shr_1_spec.
Qed.

Lemma shiftr_pos (p : positive) n :
  0 <= n < Zpos (digits2_pos p) -> 0 < Z.shiftr (Zpos p) n.
Proof.
  intros Hn. rewrite Z.shiftr_div_pow2 by lia.
  apply Z.div_str_pos. split; [apply Z.pow_pos_nonneg; lia|].
  pose proof (digits2_bounds p) as [Hlo _].
  eapply Z.le_trans; [|exact Hlo]. apply Z.pow_le_mono_r; lia.
Qed.

Lemma shr_fexp_pos m e l :
  0 < m -> emin <= e ->
  0 < shr_m (fst (shr_fexp prec emax m e l)) /\ emin <= snd (shr_fexp prec emax m e l).
Proof.
  intros Hm He. unfold shr_fexp, shr.
  destruct m as [|p|p]; try lia. simpl Zdigits2.
  set (d := Zpos (digits2_pos p)).
  assert (Hd : 1 <= d) by (unfold d; lia).
  destruct (fexp (d + e) - e) as [|n|n] eqn:En; simpl; rewrite ?shr_m_of_loc; try lia.
  assert (Hn : Zpos n < d).
  { rewrite <- En. unfold SpecFloat.fexp. rewrite emin_value in *.
    change prec with 53. lia. }
  destruct (shr_m_iter n (shr_record_of_loc (Zpos p) l)) as [E _];
    [rewrite shr_m_of_loc; lia|].
  rewrite E, shr_m_of_loc. split; [apply shiftr_pos; fold d; lia | lia].
Qed.

Lemma round_nearest_even_ge m l : m <= round_nearest_even m l.
Proof. destruct l as [|[]]; simpl; try destruct (Z.even m); lia. Qed.

(** Rounding a positive mantissa at an exponent that is not below [emin]
    never gives zero. *)
Lemma binary_round_aux_nonzero s m e l :
  0 < m -> emin <= e -> signed_nonzero s (binary_round_aux prec emax s m e l).
Proof.
  intros Hm He. unfold binary_round_aux.
  pose proof (shr_fexp_pos m e l Hm He) as [H1 H2].
  destruct (shr_fexp prec emax m e l) as [mrs' e']. simpl in H1, H2.
  pose proof (round_nearest_even_ge (shr_m mrs') (loc_of_shr_record mrs')) as Hr.
  pose proof (shr_fexp_pos (round_nearest_even (shr_m mrs') (loc_of_shr_record mrs'))
                e' loc_Exact ltac:(lia) H2) as [H3 H4].
  destruct (shr_fexp prec emax _ e' loc_Exact) as [mrs'' e'']. simpl in H3, H4.
  destruct (shr_m mrs'') as [|q|q]; try lia.
  now destruct (e'' <=? emax - prec).
Qed.

Lemma binary_round_nonzero s m e :
  emin <= e -> signed_nonzero s (binary_round prec emax s m e).
Proof.
  intros He. unfold binary_round, shl_align.
  destruct (fexp (Zpos (digits2_pos m) + e) - e) as [|d|d] eqn:Ed;
    apply binary_round_aux_nonzero; try lia.
  unfold SpecFloat.fexp. lia.
Qed.

Lemma binary_normalize_positive M e :
  emin <= e -> SFltb (S754_zero false) (binary_normalize prec emax M e false) = (0 <? M).
Proof.
  intros He. destruct M as [|p|p]; simpl binary_normalize.
  - reflexivity.
  - pose proof (binary_round_nonzero false p e He) as H.
    destruct (binary_round prec emax false p e) as [| s | | s m' e']; simpl in H;
      try contradiction; now subst s.
  - pose proof (binary_round_nonzero true p e He) as H.
    destruct (binary_round prec emax true p e) as [| s | | s m' e']; simpl in H;
      try contradiction; now subst s.
Qed.

Lemma iter_xO m d : Zpos (Pos.iter xO m d) = Zpos m * 2 ^ Zpos d.
Proof.
  induction d as [|d IH] using Pos.peano_ind.
  - simpl. lia.
  - rewrite Pos.iter_succ, Pos2Z.inj_succ, Z.pow_succ_r by lia.
    rewrite Pos2Z.inj_xO, IH. lia.
Qed.

Lemma shl_align_value m e e' :
  e' <= e -> Zpos (fst (shl_align m e e')) = Zpos m * 2 ^ (e - e').
Proof.
  intros Hle. unfold shl_align.
  destruct (e' - e) as [|d|d] eqn:Ed; simpl fst.
  - replace (e - e') with 0 by lia. simpl. lia.
  - lia.
  - rewrite iter_xO. f_equal. f_equal. lia.
Qed.

(** A canonical mantissa has at most [prec] digits, and exactly [prec]
    above the smallest exponent. *)
Lemma canonical_digits m e :
  canonical_mantissa prec emax m e = true ->
  (emin <= e) /\ (Zpos (digits2_pos m) <= prec) /\
  ((emin < e) -> Zpos (digits2_pos m) = prec).
Proof.
  unfold canonical_mantissa, SpecFloat.fexp. intros H. apply Z.eqb_eq in H.
  rewrite emin_value in *. change prec with 53 in *. lia.
Qed.

Lemma canonical_lt mx ex my ey :
  canonical_mantissa prec emax mx ex = true ->
  canonical_mantissa prec emax my ey = true ->
  ex < ey ->
  Zpos mx < Zpos my * 2 ^ (ey - ex).
Proof.
  intros Hx Hy Hlt.
  destruct (canonical_digits _ _ Hx) as (Hex & Hdx & _).
  destruct (canonical_digits _ _ Hy) as (_ & _ & Hdy).
  specialize (Hdy ltac:(lia)).
  pose proof (digits2_bounds mx) as [_ Hmx].
  pose proof (digits2_bounds my) as [Hmy _].
  rewrite Hdy in Hmy. change prec with 53 in *.
  assert (Hpx : 2 ^ Zpos (digits2_pos mx) <= 2 ^ 53) by (apply Z.pow_le_mono_r; lia).
  assert (Hp : 2 ^ 1 <= 2 ^ (ey - ex)) by (apply Z.pow_le_mono_r; lia).
  change (2 ^ 1) with 2 in Hp. change (2 ^ (53 - 1)) with 4503599627370496 in Hmy.
  change (2 ^ 53) with 9007199254740992 in Hpx. nia.
Qed.

(** The order of two canonical positive magnitudes is the order of their
    mantissas once aligned on the smaller exponent. *)
Lemma canonical_compare mx ex my ey :
  canonical_mantissa prec emax mx ex = true ->
  canonical_mantissa prec emax my ey = true ->
  match ex ?= ey with
  | Lt => Lt
  | Gt => Gt
  | Eq => Pos.compare_cont Eq mx my
  end =
  (Zpos (fst (shl_align mx ex (Z.min ex ey))) ?= Zpos (fst (shl_align my ey (Z.min ex ey)))).
Proof.
  intros Hx Hy. rewrite !shl_align_value by lia.
  destruct (Z.compare_spec ex ey) as [Heq | Hlt | Hgt].
  - subst ey. rewrite Z.min_id, Z.sub_diag. simpl. rewrite !Pos.mul_1_r. reflexivity.
  - rewrite Z.min_l by lia. rewrite Z.sub_diag, Z.mul_1_r.
    symmetry. apply Z.compare_lt_iff. now apply canonical_lt.
  - rewrite Z.min_r by lia. rewrite Z.sub_diag, Z.mul_1_r.
    symmetry. apply Z.compare_gt_iff. now apply canonical_lt.
Qed.

Lemma valid_finite s m e :
  valid_binary (S754_finite s m e) = true ->
  canonical_mantissa prec emax m e = true /\ (emin <= e).
Proof.
  simpl. unfold bounded. intros H. apply andb_true_iff in H as [H _].
  split; [assumption | now apply canonical_digits in H].
Qed.

(** The sign of a difference tells the order of its operands. *)
Lemma SFltb_sub x y :
  valid_binary x = true -> valid_binary y = true ->
  x <> S754_nan -> y <> S754_nan ->
  SFltb (S754_zero false) (SF64sub y x) = SFltb x y.
Proof.
  intros Vx Vy Nx Ny.
  destruct x as [sx | sx | | sx mx ex]; try congruence;
  destruct y as [sy | sy | | sy my ey]; try congruence;
  try (destruct sx, sy; reflexivity); try (destruct sx; reflexivity);
  try (destruct sy; reflexivity).
  apply valid_finite in Vx as [Cx Ex]. apply valid_finite in Vy as [Cy Ey].
  unfold SF64sub, SFsub. rewrite binary_normalize_positive by lia.
  pose proof (canonical_compare mx ex my ey Cx Cy) as Hcmp.
  rewrite (Z.min_comm ey ex).
  set (A := Zpos (fst (shl_align mx ex (Z.min ex ey)))) in *.
  set (B := Zpos (fst (shl_align my ey (Z.min ex ey)))) in *.
  assert (HA : 0 < A) by (unfold A; lia). assert (HB : 0 < B) by (unfold B; lia).
  assert (Hord : (A < B /\ match ex ?= ey with
                           | Lt => Lt | Gt => Gt | Eq => Pos.compare_cont Eq mx my
                           end = Lt) \/
                 (A = B /\ match ex ?= ey with
                           | Lt => Lt | Gt => Gt | Eq => Pos.compare_cont Eq mx my
                           end = Eq) \/
                 (B < A /\ match ex ?= ey with
                           | Lt => Lt | Gt => Gt | Eq => Pos.compare_cont Eq mx my
                           end = Gt)).
  { rewrite Hcmp. destruct (Z.compare_spec A B); auto. }
  clear Hcmp. unfold SFltb, SFcompare.
  destruct sx, sy; unfold cond_Zopp;
    match goal with |- (0 <? ?M) = _ => destruct (Z.ltb_spec 0 M) end;
    try reflexivity; try lia;
    destruct Hord as [[Hab Hm] | [[Hab Hm] | [Hab Hm]]]; try lia;
    destruct (ex ?= ey); try discriminate; try reflexivity;
    rewrite Hm; reflexivity.
Qed.

(** *** The order on numbers that are not [NaN] *)

Lemma SFcompare_key x y :
  x <> S754_nan -> y <> S754_nan ->
  match SFcompare x y with
  | Some Lt => key_lt (key x) (key y)
  | Some Eq => key x = key y
  | Some Gt => key_lt (key y) (key x)
  | None => False
  end.
Proof.
  intros Nx Ny.
  destruct x as [sx | sx | | sx mx ex]; try congruence;
  destruct y as [sy | sy | | sy my ey]; try congruence;
  try (destruct sx, sy; simpl; auto; lia); try (destruct sx; simpl; auto; lia);
  try (destruct sy; simpl; auto; lia).
  unfold SFcompare.
  change (Pos.compare_cont Eq mx my) with (Zpos mx ?= Zpos my).
  destruct sx, sy; simpl key; unfold key_lt; try lia;
    destruct (Z.compare_spec ex ey); try lia;
    destruct (Z.compare_spec (Zpos mx) (Zpos my)); simpl; try lia;
    f_equal; try lia; f_equal; lia.
Qed.

Lemma SFltb_key x y :
  x <> S754_nan -> y <> S754_nan ->
  SFltb x y = true <-> key_lt (key x) (key y).
Proof.
  intros Nx Ny. pose proof (SFcompare_key x y Nx Ny) as H. unfold SFltb.
  destruct (key x) as [[a1 a2] a3], (key y) as [[b1 b2] b3].
  destruct (SFcompare x y) as [[| |]|]; simpl in *; try tauto;
    split; try discriminate; try reflexivity; intros; try inversion H; lia.
Qed.

Lemma SFleb_key x y :
  x <> S754_nan -> y <> S754_nan ->
  SFleb x y = true <-> key_le (key x) (key y).
Proof.
  intros Nx Ny. pose proof (SFcompare_key x y Nx Ny) as H. unfold SFleb.
  destruct (key x) as [[a1 a2] a3], (key y) as [[b1 b2] b3].
  destruct (SFcompare x y) as [[| |]|]; simpl in *; try tauto;
    split; try discriminate; try reflexivity; intros; try inversion H; lia.
Qed.

Lemma SFeqb_refl x : x <> S754_nan -> SFeqb x x = true.
Proof.
  intros Nx. pose proof (SFcompare_key x x Nx Nx) as H. unfold SFeqb.
  destruct (key x) as [[a1 a2] a3].
  destruct (SFcompare x x) as [[| |]|]; simpl in *; try tauto; lia.
Qed.

(** *** Square roots *)

Lemma SFsqrt_is_zero x :
  valid_binary x = true ->
  SFeqb (SF64sqrt x) (S754_zero false) = SFeqb x (S754_zero false).
Proof.
  intros Vx. destruct x as [s | [|] | | [|] m e]; try reflexivity.
  apply valid_finite in Vx as [_ He].
  unfold SF64sqrt, SFsqrt, SFsqrt_core_binary.
  set (e' := Z.min (fexp (Z.div2 (Zdigits2 (Zpos m) + e + 1))) (Z.div2 e)).
  assert (He' : emin <= e' /\ 2 * e' <= e).
  { unfold e', SpecFloat.fexp. rewrite !Z.div2_div. rewrite emin_value in *.
    assert (-537 <= e / 2) by (apply Z.div_le_lower_bound; lia).
    assert (2 * (e / 2) <= e) by (apply Z.mul_div_le; lia).
    lia. }
  set (m' := match e - 2 * e' with
             | Zpos _ => Z.shiftl (Zpos m) (e - 2 * e')
             | Z0 => Zpos m
             | Zneg _ => 0
             end).
  assert (Hm' : 0 < m').
  { unfold m'. destruct (e - 2 * e') as [|p|p] eqn:Es; try lia.
    rewrite Z.shiftl_mul_pow2 by lia. apply Z.mul_pos_pos; [lia|].
    apply Z.pow_pos_nonneg; lia. }
  pose proof (Z.sqrtrem_sqrt m') as Hq.
  destruct (Z.sqrtrem m') as [q r]. simpl in Hq.
  assert (0 < q) by (rewrite Hq; apply Z.sqrt_pos; lia).
  match goal with
  | |- SFeqb (binary_round_aux _ _ _ _ _ ?l) _ = _ =>
      pose proof (binary_round_aux_nonzero false q e' l ltac:(lia) ltac:(lia)) as Hnz;
      destruct (binary_round_aux prec emax false q e' l) as [| s | | s m2 e2];
      simpl in Hnz; try contradiction; subst s; reflexivity
  end.
Qed.
End Binary64.

(** ** Numbers: what the proofs need of binary64 arithmetic *)
Module Number.
Local Open Scope float_scope.

Lemma not_nan x : is_nan x = false -> Prim2SF x <> S754_nan.
Proof.
  unfold is_nan. rewrite FloatAxioms.eqb_spec. intros H E. rewrite E in H. discriminate.
Qed.

Lemma is_nan_spec x : is_nan x = false <-> Prim2SF x <> S754_nan.
Proof.
  split; [apply not_nan|]. intros H. unfold is_nan. rewrite FloatAxioms.eqb_spec.
  now rewrite Binary64.SFeqb_refl.
Qed.

(** [0 < y - x] exactly when [x < y]. *)
Lemma ltb_sub x y :
  is_nan x = false -> is_nan y = false -> (zero <? y - x) = (x <? y).
Proof.
  intros Nx Ny. rewrite !FloatAxioms.ltb_spec, FloatAxioms.sub_spec.
  apply Binary64.SFltb_sub; auto using Prim2SF_valid, not_nan.
Qed.

Lemma ltb_leb x y : (x <? y) = true -> (x <=? y) = true.
Proof.
  rewrite FloatAxioms.ltb_spec, FloatAxioms.leb_spec. unfold SFltb, SFleb.
  now destruct (SFcompare (Prim2SF x) (Prim2SF y)) as [[| |]|].
Qed.

Lemma not_ltb_leb x y :
  is_nan x = false -> is_nan y = false -> (x <? y) = false -> (y <=? x) = true.
Proof.
  intros Nx Ny. apply not_nan in Nx. apply not_nan in Ny.
  rewrite FloatAxioms.ltb_spec, FloatAxioms.leb_spec. intros H.
  apply Binary64.SFleb_key; auto.
  assert (Hn : ~ Float64.key_lt (Float64.key (Prim2SF x)) (Float64.key (Prim2SF y))).
  { intros Hlt. apply Binary64.SFltb_key in Hlt; auto. congruence. }
  revert Hn. unfold Float64.key_lt, Float64.key_le.
  destruct (Float64.key (Prim2SF x)) as [[a1 a2] a3],
           (Float64.key (Prim2SF y)) as [[b1 b2] b3]. lia.
Qed.

Lemma leb_trans x y z :
  is_nan x = false -> is_nan y = false -> is_nan z = false ->
  (x <=? y) = true -> (y <=? z) = true -> (x <=? z) = true.
Proof.
  intros Nx Ny Nz. apply not_nan in Nx. apply not_nan in Ny. apply not_nan in Nz.
  rewrite !FloatAxioms.leb_spec. intros H1 H2.
  apply Binary64.SFleb_key in H1; auto. apply Binary64.SFleb_key in H2; auto.
  apply Binary64.SFleb_key; auto.
  revert H1 H2. unfold Float64.key_le.
  destruct (Float64.key (Prim2SF x)) as [[a1 a2] a3],
           (Float64.key (Prim2SF y)) as [[b1 b2] b3],
           (Float64.key (Prim2SF z)) as [[c1 c2] c3]. lia.
Qed.

Lemma sqrt_is_zero x : (sqrt x =? zero) = (x =? zero).
Proof.
  rewrite !FloatAxioms.eqb_spec, FloatAxioms.sqrt_spec.
  apply Binary64.SFsqrt_is_zero, Prim2SF_valid.
Qed.

(** The two zeros are the only numbers equal to zero. *)
Lemma eqb_zero x : (x =? zero) = true -> x = zero \/ x = neg_zero.
Proof.
  rewrite FloatAxioms.eqb_spec. intros H.
  rewrite <- (SF2Prim_Prim2SF x).
  destruct (Prim2SF x) as [[|] | [|] | | [|] m e]; try discriminate; auto.
Qed.
End Number.

(** ** Cosine similarity *)

Section Cosine.
Local Open Scope float_scope.

Lemma length_numbers a : length (numbers a) = length a.
Proof. apply List.length_map. Qed.

Lemma index_numbers a i : i < length a -> exists x, index (numbers a) i = JsNumber x /\ In x a.
Proof.
  revert i. induction a as [|x a IH]; intros i Hi; simpl in *; [lia|].
  destruct i as [|i]; [eauto|].
  destruct (IH i ltac:(lia)) as (y & Hy & Hin). eauto.
Qed.

Lemma cosineStep_shift x y a b acc i :
  cosineStep (x :: a) (y :: b) acc (S i) = cosineStep a b acc i.
Proof. reflexivity. Qed.

Lemma cosineFold_shift x y a b n s acc :
  fold_left (cosineStep (x :: a) (y :: b)) (seq (S s) n) acc =
  fold_left (cosineStep a b) (seq s n) acc.
Proof.
  revert s acc. induction n as [|n IH]; intros s acc; [reflexivity|].
  cbn [seq fold_left]. rewrite cosineStep_shift. apply IH.
Qed.

(** The indexed loop computes the three sums of the specification. *)
Lemma cosineLoop_sums a b d na nb :
  length a = length b ->
  fold_left (cosineStep (numbers a) (numbers b)) (seq 0 (length a)) (d, na, nb) =
  (fold_left (fun s xy => s + fst xy * snd xy) (combine a b) d,
   fold_left (fun s x => s + x * x) a na,
   fold_left (fun s x => s + x * x) b nb).
Proof.
  revert b d na nb. induction a as [|x a IH]; intros [|y b] d na nb Hlen;
    try discriminate; [reflexivity|].
  cbn [length seq fold_left combine numbers map].
  change (map JsNumber a) with (numbers a). change (map JsNumber b) with (numbers b).
  rewrite cosineFold_shift. cbn [cosineStep index nth ToNumber fst snd].
  apply IH. simpl in Hlen. lia.
Qed.

Lemma zero_square x : is_zero x = true -> x * x = zero.
Proof.
  intros H. destruct (Number.eqb_zero x H) as [-> | ->]; reflexivity.
Qed.

(** A vector of zeros keeps its accumulator at [+0], whatever the other
    accumulators are doing. *)
Lemma cosineFold_normA a b n s acc :
  (forall i, s <= i < s + n -> is_zero (ToNumber (index a i)) = true) ->
  snd (fst acc) = zero ->
  snd (fst (fold_left (cosineStep a b) (seq s n) acc)) = zero.
Proof.
  revert s acc. induction n as [|n IH]; intros s [[d na] nb] Hz Hacc; [assumption|].
  cbn [seq fold_left]. apply IH.
  - intros i Hi. apply Hz. lia.
  - simpl in *. subst na. rewrite zero_square by (apply Hz; lia). reflexivity.
Qed.

Lemma cosineFold_normB a b n s acc :
  (forall i, s <= i < s + n -> is_zero (ToNumber (index b i)) = true) ->
  snd acc = zero ->
  snd (fold_left (cosineStep a b) (seq s n) acc) = zero.
Proof.
  revert s acc. induction n as [|n IH]; intros s [[d na] nb] Hz Hacc; [assumption|].
  cbn [seq fold_left]. apply IH.
  - intros i Hi. apply Hz. lia.
  - simpl in *. subst nb. rewrite zero_square by (apply Hz; lia). reflexivity.
Qed.

Lemma allZero_index a i :
  Spec.allZero a -> i < length a -> is_zero (ToNumber (index (numbers a) i)) = true.
Proof.
  intros Hz Hi. destruct (index_numbers a i Hi) as (x & -> & Hin).
  simpl. unfold Spec.allZero in Hz. rewrite Forall_forall in Hz.
  apply Hz. now apply list_elem_of_In.
Qed.

(** C6, as the code has it.  For two vectors of numbers of the same
    length the score is the dot product over the product of the norms,
    in binary64 arithmetic, and [+0] when a norm is zero.  The score is
    exactly [+0] whenever every component of [a] is zero (the empty [a]
    included), whatever [b] is, and whenever [b] is at least as long as [a]
    and every component of [b] is zero. *)
Theorem cosineSimilarity_same_length_or_zero (a b : list float) :
  (length a = length b ->
   cosineSimilarity (JsArray (numbers a)) (numbers b) = Normal (Spec.cosine a b)) /\
  (Spec.allZero a \/ (length a <= length b /\ Spec.allZero b) ->
   cosineSimilarity (JsArray (numbers a)) (numbers b) = Normal zero).
Proof.
  split.
  - intros Hlen. unfold cosineSimilarity, cosineLoop, cosineResult.
    rewrite length_numbers, cosineLoop_sums by assumption.
    unfold Spec.cosine, Spec.norm, Spec.dot, Spec.sumOfSquares.
    now rewrite !Number.sqrt_is_zero.
  - intros Hz. unfold cosineSimilarity, cosineLoop. f_equal.
    set (acc := fold_left _ _ _).
    assert (H : snd (fst acc) = zero \/ snd acc = zero).
    { unfold acc. rewrite length_numbers.
      destruct Hz as [Ha | [Hlen Hb]].
      - left. apply cosineFold_normA; [|reflexivity].
        intros i Hi. apply allZero_index; [assumption | lia].
      - right. apply cosineFold_normB; [|reflexivity].
        intros i Hi. apply allZero_index; [assumption | lia]. }
    destruct acc as [[d na] nb]. simpl in H. unfold cosineResult.
    destruct H as [-> | ->]; [reflexivity|].
    now rewrite orb_true_r.
Qed.
End Cosine.

(** ** Sorting and slicing *)
Section SortFacts.
Context {A : Type} (comparefn : A -> A -> float).

Lemma sortInsert_Permutation x l : Permutation (sortInsert comparefn x l) (x :: l).
Proof.
  induction l as [|y l IH]; simpl; [reflexivity|].
  destruct (comesAfter comparefn x y); [|reflexivity].
  rewrite IH. apply perm_swap.
Qed.

Lemma Array_sort_Permutation l : Permutation (Array_sort comparefn l) l.
Proof.
  induction l as [|x l IH]; simpl; [reflexivity|].
  rewrite sortInsert_Permutation. now constructor.
Qed.

Lemma Array_sort_length l : length (Array_sort comparefn l) = length l.
Proof. apply Permutation_length, Array_sort_Permutation. Qed.

(** A comparator result that is [NaN] is not positive either. *)
Lemma comesAfter_ltb x y : comesAfter comparefn x y = PrimFloat.ltb zero (comparefn x y).
Proof.
  unfold comesAfter. destruct (is_nan (comparefn x y)) eqn:E; [|reflexivity].
  rewrite FloatAxioms.ltb_spec.
  destruct (Prim2SF (comparefn x y)) as [s | s | | s m e] eqn:P; try reflexivity;
    assert (is_nan (comparefn x y) = false)
      by (apply Number.is_nan_spec; rewrite P; discriminate);
    congruence.
Qed.

(** The sort orders by [R] the elements on which the comparator agrees
    with it. *)
Context (P : A -> Prop) (R : A -> A -> Prop).
Hypothesis after : forall x y, P x -> P y -> comesAfter comparefn x y = true -> R y x.
Hypothesis before : forall x y, P x -> P y -> comesAfter comparefn x y = false -> R x y.
Hypothesis R_trans : forall x y z, P x -> P y -> P z -> R x y -> R y z -> R x z.

Lemma sortInsert_sorted x l :
  P x -> Forall P l -> StronglySorted R l -> StronglySorted R (sortInsert comparefn x l).
Proof.
  intros Px Pl Hs. induction Hs as [|y l Hs IH Hy]; simpl.
  - repeat constructor.
  - apply Forall_cons in Pl as [Py Pl].
    destruct (comesAfter comparefn x y) eqn:E.
    + constructor; [now apply IH|].
      rewrite sortInsert_Permutation. constructor; [now apply after | assumption].
    + assert (Rxy : R x y) by now apply before.
      constructor; [now constructor|].
      constructor; [assumption|].
      rewrite Forall_forall in Hy, Pl. apply Forall_forall. intros z Hz.
      apply (R_trans x y z); auto.
Qed.

Lemma Array_sort_sorted l : Forall P l -> StronglySorted R (Array_sort comparefn l).
Proof.
  induction l as [|x l IH]; intros Pl; simpl; [constructor|].
  apply Forall_cons in Pl as [Px Pl].
  apply sortInsert_sorted; auto.
  now rewrite Array_sort_Permutation.
Qed.
End SortFacts.

Lemma StronglySorted_take {A : Type} (R : A -> A -> Prop) n l :
  StronglySorted R l -> StronglySorted R (take n l).
Proof.
  intros Hs. revert n. induction Hs as [|x l Hs IH Hx]; intros [|n]; simpl; try constructor.
  - apply IH.
  - now apply Forall_take.
Qed.

Lemma In_take {A : Type} (x : A) n l : In x (take n l) -> In x l.
Proof.
  revert n. induction l as [|y l IH]; intros [|n]; simpl; try tauto.
  intros [H | H]; [now left | right; eauto].
Qed.

Lemma StronglySorted_map {A B : Type} (f : A -> B) (R : B -> B -> Prop) l :
  StronglySorted (fun x y => R (f x) (f y)) l -> StronglySorted R (map f l).
Proof.
  induction 1 as [|x l Hs IH Hx]; simpl; constructor; [assumption|].
  rewrite Forall_forall in Hx. apply Forall_forall. intros y Hy.
  apply list_elem_of_In, in_map_iff in Hy as (z & <- & Hz).
  apply Hx. now apply list_elem_of_In.
Qed.

(** The number of elements [slice(0, end)] keeps. *)
Lemma slice0_length {A : Type} (arr : list A) (e : float) z :
  ToIntegerOrInfinity e = Finite z ->
  length (slice0 arr (Some e)) =
    if (z <? 0)%Z then length arr - Z.to_nat (- z) else Nat.min (Z.to_nat z) (length arr).
Proof.
  intros Hz. unfold slice0. rewrite Hz, length_take.
  destruct (Z.ltb_spec z 0); lia.
Qed.

Lemma slice0_all {A : Type} (arr : list A) (e : float) z :
  ToIntegerOrInfinity e = Finite z ->
  (Z.of_nat (length arr) <= z)%Z ->
  slice0 arr (Some e) = arr.
Proof.
  intros Hz Hle. unfold slice0. rewrite Hz.
  destruct (Z.ltb_spec z 0); [lia|]. apply take_ge. lia.
Qed.

Lemma slice0_undefined {A : Type} (arr : list A) : slice0 arr None = arr.
Proof. unfold slice0. apply take_ge. lia. Qed.

(** [slice(0, end)] keeps the first elements: [end] of them, or all but
    the last [-end] when [end] is negative. *)
Lemma slice0_take {A : Type} (arr : list A) (e : float) z :
  ToIntegerOrInfinity e = Finite z ->
  slice0 arr (Some e) =
    take (if (z <? 0)%Z then length arr - Z.to_nat (- z) else Z.to_nat z) arr.
Proof.
  intros Hz. unfold slice0. rewrite Hz.
  destruct (Z.ltb_spec z 0); [f_equal; lia|].
  destruct (Z.le_gt_cases z (Z.of_nat (length arr))).
  - f_equal. lia.
  - rewrite !take_ge by lia. reflexivity.
Qed.

Lemma In_drop {A : Type} (x : A) n l : In x (drop n l) -> In x l.
Proof.
  revert n. induction l as [|y l IH]; intros [|n]; simpl; try tauto.
  intros H. right. eauto.
Qed.

(** In a sorted list every element of a prefix is related to every
    element of the rest. *)
Lemma StronglySorted_take_drop {A : Type} (R : A -> A -> Prop) n l x y :
  StronglySorted R l -> In x (take n l) -> In y (drop n l) -> R x y.
Proof.
  intros Hs. revert n. induction Hs as [|z l Hs IH Hz]; intros [|n]; simpl; try tauto.
  intros [<- | Hx] Hy.
  - rewrite Forall_forall in Hz. apply Hz, list_elem_of_In. eapply In_drop, Hy.
  - eapply IH; eassumption.
Qed.

(** ** [similaritySearch] *)
Section Search.
Context {T Disk : Type}.
Implicit Types (w : @World T Disk) (this : @VectorStore T Disk) (c : @StoreCache T).
Implicit Types (m : JsMap.t (@Embedding T)).

Lemma candidates_stored c filter d :
  In d (candidatesOf c filter) -> exists e, JsMap.get (store c) (content d) = Some e.
Proof.
  intros Hin.
  assert (Hall : In d (map toDocument (JsMap.entries (store c)))).
  { unfold candidatesOf in Hin. destruct filter; [|assumption].
    now apply filter_In in Hin. }
  apply in_map_iff in Hall as ([key e] & <- & Hentry).
  eapply JsMapFacts.get_entry. exact Hentry.
Qed.

Lemma mapC_scoreOf m qv candidates :
  (forall d, In d candidates -> exists e, JsMap.get m (content d) = Some e) ->
  exists scored,
    mapC (scoreOf m (JsArray qv)) candidates = Normal scored /\
    map item scored = candidates /\
    Forall (fun r => scoreOf m (JsArray qv) (item r) = Normal r) scored.
Proof.
  induction candidates as [|d rest IH]; intros Hstored.
  - exists []. repeat split. constructor.
  - destruct IH as (scored & Hmap & Hitems & Hall); [intros; apply Hstored; now right|].
    destruct (Hstored d (or_introl eq_refl)) as [e He].
    exists ({| item := d; score := cosineResult (cosineLoop qv (e_vector e)) |} :: scored).
    simpl. unfold scoreOf at 1. rewrite He. simpl. rewrite Hmap. simpl.
    repeat split; [now rewrite Hitems|].
    constructor; [|assumption]. unfold scoreOf. simpl. now rewrite He.
Qed.

(** Under the conditions below the search settles with the first
    elements of the sorted scores. *)
Lemma similaritySearch_settles id w this c query qv k filter :
  getThis id w = Normal this ->
  thisCache this w = Normal c ->
  isResolved (wait (saveLock this)) w = true ->
  queryResolvesTo this c query qv ->
  exists scored,
    mapC (scoreOf (store c) (JsArray qv)) (candidatesOf c filter) = Normal scored /\
    map item scored = candidatesOf c filter /\
    Forall (fun r => scoreOf (store c) (JsArray qv) (item r) = Normal r) scored /\
    fst (similaritySearch id query k filter w) =
      Settled (Normal (map toResult (slice0 (Array_sort byScore scored) k))).
Proof.
  intros Hthis Hc Hlock Hq.
  destruct (mapC_scoreOf (store c) qv (candidatesOf c filter))
    as (scored & Hmap & Hitems & Hall); [apply candidates_stored|].
  exists scored. repeat split; try assumption.
  unfold similaritySearch. rewrite Hthis, Hlock, Hc. simpl.
  unfold queryResolvesTo in Hq. unfold candidatesOf in Hmap.
  destruct (JsMap.get (store c) query) as [e|].
  - subst qv. now rewrite Hmap.
  - rewrite Hq. now rewrite Hmap.
Qed.

Lemma scoresAreNumbers_Forall m qv scored :
  Forall (fun r => scoreOf m (JsArray qv) (item r) = Normal r) scored ->
  scoresAreNumbers m qv (map item scored) = true ->
  Forall (fun r => is_nan (score r) = false) scored.
Proof.
  intros Hall Hnum. unfold scoresAreNumbers in Hnum. rewrite forallb_forall in Hnum.
  rewrite Forall_forall in Hall. apply Forall_forall. intros r Hr.
  specialize (Hall r Hr). apply list_elem_of_In in Hr.
  specialize (Hnum (item r) (in_map item _ _ Hr)). rewrite Hall in Hnum.
  now apply negb_true_iff in Hnum.
Qed.

Lemma byScore_sorted (scored : list (@Scored T)) :
  Forall (fun r => is_nan (score r) = false) scored ->
  StronglySorted (fun r1 r2 => descending (score r1) (score r2)) (Array_sort byScore scored).
Proof.
  intros Hnn.
  apply (Array_sort_sorted byScore (fun r => is_nan (score r) = false)
           (fun r1 r2 => descending (score r1) (score r2)));
    [| | | exact Hnn]; unfold descending.
  - intros x y Px Py. rewrite comesAfter_ltb. unfold byScore.
    rewrite Number.ltb_sub by assumption. apply Number.ltb_leb.
  - intros x y Px Py. rewrite comesAfter_ltb. unfold byScore.
    rewrite Number.ltb_sub by assumption. now apply Number.not_ltb_leb.
  - intros x y z Px Py Pz Hxy Hyz.
    now apply (Number.leb_trans (score z) (score y) (score x)).
Qed.

(** C1, as the code has it.  Let the search run on an instance that is
    not waiting for a save, with a query vector that is an array, and with
    a [k] whose integer part is [z]; let [n] be the number of documents that
    pass the filter.  The ranking is what the search returns without [k]:
    - it holds the surviving documents, each once;
    - every score is the cosine similarity of the query vector and the
      stored vector of the result's content;
    - when no score is [NaN], every entry's score is at least the score of
      every later entry.
    With [k] the search returns the first entries of that ranking:
    - for [z >= 0] the first [z] of them, that is [min z n] results: at
      most [k], all [n] when [n <= z], none when [z = 0];
    - for [z < 0] all but the last [|z|] of them, that is [n - |z|]
      results (none when [|z| >= n]), as [slice(0, k)] does;
    - so, when no score is [NaN], every result's score is at least the
      score of every candidate that is not returned. *)
Theorem similaritySearch_returns_sorted_slice id w this c query qv k z filter :
  getThis id w = Normal this ->
  thisCache this w = Normal c ->
  isResolved (wait (saveLock this)) w = true ->
  queryResolvesTo this c query qv ->
  ToIntegerOrInfinity k = Finite z ->
  let candidates := candidatesOf c filter in
  let n := length candidates in
  exists ranking results,
    fst (similaritySearch id query None filter w) = Settled (Normal ranking) /\
    fst (similaritySearch id query (Some k) filter w) = Settled (Normal results) /\
    Permutation (map (fun r => (r_content r, r_metadata r)) ranking)
                (map (fun d => (content d, metadata d)) candidates) /\
    Forall (fun r => exists e,
              JsMap.get (store c) (r_content r) = Some e /\
              cosineSimilarity (JsArray qv) (e_vector e) = Normal (r_score r)) ranking /\
    (scoresAreNumbers (store c) qv candidates = true ->
     StronglySorted (fun r1 r2 => descending (r_score r1) (r_score r2)) ranking) /\
    ((0 <= z)%Z ->
     results = take (Z.to_nat z) ranking /\ length results = Nat.min (Z.to_nat z) n) /\
    ((z < 0)%Z ->
     results = take (n - Z.to_nat (- z)) ranking /\ length results = n - Z.to_nat (- z)) /\
    ((Z.of_nat n <= z)%Z -> results = ranking) /\
    Forall (fun r => exists e,
              JsMap.get (store c) (r_content r) = Some e /\
              cosineSimilarity (JsArray qv) (e_vector e) = Normal (r_score r)) results /\
    (scoresAreNumbers (store c) qv candidates = true ->
     StronglySorted (fun r1 r2 => descending (r_score r1) (r_score r2)) results /\
     forall r r', In r results -> In r' (drop (length results) ranking) ->
                  descending (r_score r) (r_score r')).
Proof.
  intros Hthis Hc Hlock Hq Hz candidates n.
  destruct (similaritySearch_settles id w this c query qv (Some k) filter Hthis Hc Hlock Hq)
    as (scored & Hmap & Hitems & Hall & Hres).
  destruct (similaritySearch_settles id w this c query qv None filter Hthis Hc Hlock Hq)
    as (scored' & Hmap' & _ & _ & Hres').
  assert (scored' = scored) as -> by congruence. clear Hmap'.
  rewrite slice0_undefined in Hres'.
  fold candidates in Hitems.
  assert (Hn : length scored = n).
  { unfold n. rewrite <- Hitems. now rewrite List.length_map. }
  set (sorted := Array_sort byScore scored) in *.
  set (ranking := map toResult sorted) in *.
  assert (Hlen : length ranking = n)
    by (unfold ranking, sorted; now rewrite List.length_map, Array_sort_length).
  set (m := if (z <? 0)%Z then n - Z.to_nat (- z) else Z.to_nat z).
  assert (Hresults : map toResult (slice0 sorted (Some k)) = take m ranking).
  { rewrite (slice0_take _ k z Hz). unfold sorted at 1.
    rewrite Array_sort_length, Hn. unfold ranking. symmetry. apply List.firstn_map. }
  rewrite Hresults in Hres.
  assert (Hscores : Forall (fun r => exists e,
              JsMap.get (store c) (r_content r) = Some e /\
              cosineSimilarity (JsArray qv) (e_vector e) = Normal (r_score r)) ranking).
  { apply Forall_forall. intros r Hr.
    apply list_elem_of_In, in_map_iff in Hr as (s & <- & Hs).
    assert (Hin : In s scored)
      by (eapply Permutation_in; [apply Array_sort_Permutation | exact Hs]).
    rewrite Forall_forall in Hall. specialize (Hall s (proj2 (list_elem_of_In _ _) Hin)).
    unfold scoreOf in Hall. simpl.
    destruct (JsMap.get (store c) (content (item s))) as [e|]; [|discriminate].
    exists e. split; [reflexivity|]. simpl in Hall. now inversion Hall. }
  assert (Hsorted : scoresAreNumbers (store c) qv candidates = true ->
     StronglySorted (fun r1 r2 => descending (r_score r1) (r_score r2)) ranking).
  { intros Hnum. rewrite <- Hitems in Hnum.
    pose proof (scoresAreNumbers_Forall _ _ _ Hall Hnum) as Hnn.
    apply (StronglySorted_map toResult (fun r1 r2 => descending (r_score r1) (r_score r2))).
    now apply byScore_sorted. }
  exists ranking, (take m ranking).
  split; [exact Hres'|]. split; [exact Hres|].
  split.
  { unfold ranking. rewrite List.map_map. rewrite <- Hitems, List.map_map.
    apply Permutation_map. apply Array_sort_Permutation. }
  split; [exact Hscores|]. split; [exact Hsorted|].
  split.
  { intros Hpos. unfold m. destruct (Z.ltb_spec z 0); [lia|].
    split; [reflexivity|]. rewrite length_take, Hlen. reflexivity. }
  split.
  { intros Hneg. unfold m. destruct (Z.ltb_spec z 0); [|lia].
    split; [reflexivity|]. rewrite length_take, Hlen. lia. }
  split.
  { intros Hfit. unfold m. destruct (Z.ltb_spec z 0); [lia|]. apply take_ge. lia. }
  split.
  { apply Forall_take. exact Hscores. }
  intros Hnum. split.
  - apply StronglySorted_take. now apply Hsorted.
  - intros r r' Hr Hr'. rewrite length_take, Hlen in Hr'.
    destruct (Nat.le_gt_cases m n) as [Hle | Hgt].
    + rewrite Nat.min_l in Hr' by assumption.
      exact (StronglySorted_take_drop
               (fun r1 r2 => descending (r_score r1) (r_score r2)) m ranking r r'
               (Hsorted Hnum) Hr Hr').
    + rewrite Nat.min_r in Hr' by lia.
      rewrite drop_ge in Hr' by lia. destruct Hr'.
Qed.

(** With no [k] the slice keeps everything. *)
Lemma similaritySearch_without_k id w this c query qv filter :
  getThis id w = Normal this ->
  thisCache this w = Normal c ->
  isResolved (wait (saveLock this)) w = true ->
  queryResolvesTo this c query qv ->
  exists results,
    fst (similaritySearch id query None filter w) = Settled (Normal results) /\
    length results = length (candidatesOf c filter).
Proof.
  intros Hthis Hc Hlock Hq.
  destruct (similaritySearch_settles id w this c query qv None filter Hthis Hc Hlock Hq)
    as (scored & _ & Hitems & _ & Hres).
  eexists. split; [exact Hres|].
  rewrite List.length_map, slice0_undefined, Array_sort_length.
  rewrite <- Hitems. now rewrite List.length_map.
Qed.
End Search.

(** ** Reachable states

    Every state the collaborating calls can produce keeps each instance
    attached to a registered shared state and each map free of duplicate
    keys: the premises of the statements above hold throughout a run. *)
Section Reachable.
Context {T Disk : Type}.
Variable jsonByteLength : list (string * list JsPrim * option T) -> Completion N.
Implicit Types (w : @World T Disk) (this : @VectorStore T Disk) (c : @StoreCache T).

Lemma invariant_frame w w' :
  globalCache w' = globalCache w -> instances w' = instances w ->
  WorldInvariant w -> WorldInvariant w'.
Proof.
  intros Hg Hi [Hatt Hwf]. split.
  - intros id this. rewrite Hi, Hg. apply Hatt.
  - intros path c. rewrite Hg. apply Hwf.
Qed.

Lemma invariant_setThisCache this c w :
  JsMap.wf (store c) -> WorldInvariant w -> WorldInvariant (setThisCache this c w).
Proof.
  intros Hc [Hatt Hwf]. split.
  - intros id x Hx. simpl in *. specialize (Hatt id x Hx).
    destruct (decide (cache this = cache x)) as [->|Hne].
    + rewrite lookup_insert_eq. eauto.
    + now rewrite lookup_insert_ne.
  - intros path c'. simpl.
    destruct (decide (cache this = path)) as [<-|Hne].
    + rewrite lookup_insert_eq. now intros [= <-].
    + rewrite lookup_insert_ne by assumption. apply Hwf.
Qed.

Lemma invariant_save id w : WorldInvariant w -> WorldInvariant (snd (save id w)).
Proof.
  intros [Hatt Hwf]. split.
  - intros j x Hx. rewrite save_globalCache.
    unfold save, getThis in Hx.
    destruct (instances w !! id) as [self|] eqn:Hid; [|now apply (Hatt j)].
    destruct (thisCache self w) as [c|]; [|now apply (Hatt j)].
    destruct (negb (dirty c) || negb (truthy (storagePath (options self))))%bool;
      [now apply (Hatt j)|].
    simpl in Hx. destruct (decide (j = id)) as [->|Hne].
    + rewrite list_lookup_insert_eq in Hx by (eapply lookup_lt_Some, Hid).
      injection Hx as <-. simpl. now apply (Hatt id).
    + rewrite list_lookup_insert_ne in Hx by congruence. now apply (Hatt j).
  - intros path c. rewrite save_globalCache. apply Hwf.
Qed.

Lemma invariant_thisCache w this c :
  WorldInvariant w -> thisCache this w = Normal c -> JsMap.wf (store c).
Proof.
  intros [_ Hwf] Hc. unfold thisCache in Hc.
  destruct (globalCache w !! cache this) as [x|] eqn:E; [|discriminate].
  injection Hc as <-. eapply Hwf, E.
Qed.

Lemma invariant_add id document w :
  WorldInvariant w -> WorldInvariant (snd (add id document w)).
Proof.
  intros Hinv. unfold add. destruct (getThis id w) as [this|]; [|assumption].
  cbv zeta. assert (He : forall e, WorldInvariant (emit e w))
    by (intros e; now apply (invariant_frame w)).
  destruct (vectorParser this _) as [v|]; [|apply He].
  destruct (negb (Array_isArray v)); [apply He|].
  destruct (thisCache this _) as [c|] eqn:Hc; [|apply He].
  simpl.
  assert (Hset : WorldInvariant
            (setThisCache this
               {| dirty := true;
                  store := JsMap.set (store c) (content (asDocument document))
                             {| e_metadata := metadata (asDocument document);
                                e_vector := elements v |} |}
               (emit (ParserCalled (content (asDocument document))) w))).
  { apply invariant_setThisCache; [|apply He]. simpl. apply JsMapFacts.wf_set.
    eapply invariant_thisCache; [apply He | exact Hc]. }
  destruct (autoSave (options this)); [now apply invariant_save | assumption].
Qed.

Lemma invariant_remove id key w :
  WorldInvariant w -> WorldInvariant (snd (remove id key w)).
Proof.
  intros Hinv. unfold remove. destruct (getThis id w) as [this|]; [|assumption].
  destruct (thisCache this w) as [c|] eqn:Hc; [|assumption].
  pose proof (invariant_thisCache w this c Hinv Hc) as Hwf.
  assert (H1 : forall b, WorldInvariant
            (setThisCache this {| dirty := b; store := JsMap.delete (store c) key |} w))
    by (intros b; apply invariant_setThisCache; [now apply JsMapFacts.wf_delete | assumption]).
  destruct (negb _); simpl; [|apply H1].
  assert (H2 : WorldInvariant
            (setThisCache this {| dirty := true; store := JsMap.delete (store c) key |}
               (setThisCache this
                  {| dirty := dirty c; store := JsMap.delete (store c) key |} w)))
    by (apply invariant_setThisCache; [now apply JsMapFacts.wf_delete | apply H1]).
  destruct (autoSave (options this)); [now apply invariant_save | assumption].
Qed.

Lemma invariant_clear id w :
  WorldInvariant w -> WorldInvariant (snd (clear id w)).
Proof.
  intros Hinv. unfold clear. destruct (getThis id w) as [this|]; [|assumption].
  destruct (thisCache this w) as [c|] eqn:Hc; [|assumption].
  destruct (Nat.ltb _ _); simpl; [|assumption].
  assert (H1 : WorldInvariant
            (setThisCache this {| dirty := true; store := JsMap.clear (store c) |} w))
    by (apply invariant_setThisCache; [apply NoDup_nil_2 | assumption]).
  destruct (autoSave (options this)); [now apply invariant_save | assumption].
Qed.

Lemma wf_deserialize (data : list (@MemoryVectorDataSerialize T)) m :
  JsMap.wf m -> JsMap.wf (fold_left deserializeInto data m).
Proof.
  revert m. induction data as [|[[key v] md] data IH]; intros m Hm; simpl; [assumption|].
  apply IH. now apply JsMapFacts.wf_set.
Qed.

Lemma load_wf provider opts w : JsMap.wf (fst (load provider opts w)).
Proof.
  unfold load. destruct (negb (truthy (storagePath opts))); [apply NoDup_nil_2|].
  destruct (provider_exists provider _ _) as [[|]|]; simpl; try apply NoDup_nil_2.
  destruct (provider_load provider _ _) as [data|]; simpl; [|apply NoDup_nil_2].
  apply wf_deserialize, NoDup_nil_2.
Qed.

Lemma load_frame provider opts w :
  globalCache (snd (load provider opts w)) = globalCache w /\
  instances (snd (load provider opts w)) = instances w.
Proof.
  unfold load. destruct (negb (truthy (storagePath opts))); [auto|].
  destruct (provider_exists provider _ _) as [[|]|]; simpl; auto.
  destruct (provider_load provider _ _) as [data|]; simpl; auto.
Qed.

Lemma invariant_newVectorStore parser provider opts w :
  WorldInvariant w -> WorldInvariant (snd (newVectorStore parser provider opts w)).
Proof.
  intros [Hatt Hwf]. unfold newVectorStore, newLocker, lock, newPromise, initializeStore.
  cbn -[default load]. set (path := default "default" (storagePath opts)).
  destruct (globalCache w !! path) as [c0|] eqn:Hreg; cbn -[load].
  - split.
    + intros id x Hx. cbn in *. apply lookup_app_Some in Hx as [Hx | [_ Hx]].
      * now apply (Hatt id).
      * destruct (id - length (instances w)) as [|n]; [|discriminate].
        injection Hx as <-. simpl. rewrite Hreg. eauto.
    + intros p c. cbn. apply Hwf.
  - set (opts' := {| autoSave := autoSave opts; debug := debug opts;
                     maxFileSizeMB := maxFileSizeMB opts; storagePath := path |}).
    set (w2 := unLock _ _).
    pose proof (load_wf provider opts' w2) as Hload.
    destruct (load_frame provider opts' w2) as [Hg Hi].
    destruct (load provider opts' w2) as [m w3]. simpl in Hload, Hg, Hi. cbn.
    rewrite Hg, Hi. cbn. split.
    + intros id x Hx. cbn in *. apply lookup_app_Some in Hx as [Hx | [_ Hx]].
      * specialize (Hatt id x Hx).
        destruct (decide (path = cache x)) as [<-|Hne].
        -- rewrite lookup_insert_eq. eauto.
        -- now rewrite lookup_insert_ne.
      * destruct (id - length (instances w)) as [|n]; [|discriminate].
        injection Hx as <-. simpl. rewrite lookup_insert_eq. eauto.
    + intros p c. cbn. destruct (decide (path = p)) as [<-|Hne].
      * rewrite lookup_insert_eq. now intros [= <-].
      * rewrite lookup_insert_ne by assumption. apply Hwf.
Qed.

Lemma invariant_saveTry this w :
  WorldInvariant w -> WorldInvariant (snd (saveTry jsonByteLength this w)).
Proof.
  intros Hinv. unfold saveTry. destruct (thisCache this w) as [c|] eqn:Hc; [|assumption].
  pose proof (invariant_thisCache w this c Hinv Hc) as Hwf.
  destruct (jsonByteLength _) as [dataSize|]; [|assumption].
  assert (Hsave : forall kept w1,
    WorldInvariant w1 ->
    WorldInvariant
      (snd (let path := storagePath (options this) in
            let w2 := emit (ProviderSave path kept) w1 in
            match provider_save (storageProvider this) path kept (disk w2) with
            | (Throw e, d) => (Throw e, setDisk d w2)
            | (Normal _, d) =>
                match thisCache this w2 with
                | Throw e => (Throw e, setDisk d w2)
                | Normal c2 =>
                    (Normal tt,
                     setThisCache this {| dirty := false; store := store c2 |} (setDisk d w2))
                end
            end))).
  { intros kept w1 H1. cbv zeta.
    assert (H2 : WorldInvariant (emit (ProviderSave (storagePath (options this)) kept) w1))
      by now apply (invariant_frame w1).
    destruct (provider_save _ _ _ _) as [[u|e] d];
      [|now apply (invariant_frame
                     (emit (ProviderSave (storagePath (options this)) kept) w1))].
    destruct (thisCache this (emit _ _)) as [c2|] eqn:Hc2;
      [|now apply (invariant_frame
                     (emit (ProviderSave (storagePath (options this)) kept) w1))].
    simpl. apply invariant_setThisCache.
    - simpl. eapply invariant_thisCache; [exact H2 | exact Hc2].
    - now apply (invariant_frame (emit (ProviderSave (storagePath (options this)) kept) w1)). }
  destruct (exceeds dataSize _ && Nat.ltb 0 _)%bool.
  - destruct (trim jsonByteLength _ _ _) as [[kept size]|]; [|assumption].
    apply Hsave. apply invariant_setThisCache; [|assumption].
    simpl. apply wf_deserialize, NoDup_nil_2.
  - now apply Hsave.
Qed.

Lemma invariant_fireTimer key w :
  WorldInvariant w -> WorldInvariant (fireTimer jsonByteLength key w).
Proof.
  intros Hinv. unfold fireTimer. destruct (timers w !! key) as [id|]; [|assumption].
  unfold saveTask.
  assert (H1 : WorldInvariant (setTimers (delete key (timers w)) w))
    by now apply (invariant_frame w).
  destruct (getThis id _) as [this|]; [|assumption].
  apply (invariant_frame (snd (saveTry jsonByteLength this
                                 (setTimers (delete key (timers w)) w))));
    [reflexivity | reflexivity | now apply invariant_saveTry].
Qed.

Lemma invariant_step call w :
  WorldInvariant w -> WorldInvariant (step jsonByteLength call w).
Proof.
  destruct call; simpl.
  - apply invariant_newVectorStore.
  - apply invariant_add.
  - apply invariant_remove.
  - apply invariant_clear.
  - apply invariant_save.
  - apply invariant_fireTimer.
Qed.

(** From the initial state, whatever the calls and the timers that fire. *)
Theorem reachable_states_are_well_formed (d : Disk) (calls : list (@Call T Disk)) :
  WorldInvariant (run jsonByteLength calls (initialWorld d)).
Proof.
  unfold run.
  assert (H0 : WorldInvariant (@initialWorld T Disk d)).
  { split.
    - intros id this H. discriminate.
    - intros path c H. simpl in H. rewrite lookup_empty in H. discriminate. }
  revert H0. generalize (@initialWorld T Disk d).
  induction calls as [|call calls IH]; intros w Hw; simpl; [assumption|].
  apply IH. now apply invariant_step.
Qed.
End Reachable.

(** ** Instances of one path over whole runs *)
Section SharedRuns.
Context {T Disk : Type}.
Variable jsonByteLength : list (string * list JsPrim * option T) -> Completion N.
Implicit Types (w : @World T Disk) (this : @VectorStore T Disk) (c : @StoreCache T).

Lemma evolves_newVectorStore parser provider opts w :
  evolves w (snd (newVectorStore parser provider opts w)).
Proof.
  unfold newVectorStore, newLocker, lock, newPromise, initializeStore.
  cbn -[default load].
  set (opts' := {| autoSave := autoSave opts; debug := debug opts;
                   maxFileSizeMB := maxFileSizeMB opts;
                   storagePath := default "default" (storagePath opts) |}).
  set (w2 := unLock _ _).
  assert (Hw2 : instances w2 = instances w /\ globalCache w2 = globalCache w)
    by (split; reflexivity).
  destruct Hw2 as [Hi2 Hg2].
  destruct (globalCache w !! default "default" (storagePath opts)) as [c0|] eqn:Hreg.
  - cbn. split.
    + intros j this Hj. exists this. cbn [instances setInstances].
      rewrite lookup_app_l by (eapply lookup_lt_Some; eauto). auto.
    + intros path. auto.
  - pose proof (load_frame provider opts' w2) as Hframe.
    destruct (load provider opts' w2) as [m w3]. cbn in Hframe. cbn. split.
    + intros j this Hj. exists this. cbn [instances setInstances].
      destruct Hframe as [_ ->]. rewrite ?Hi2.
      rewrite lookup_app_l by (eapply lookup_lt_Some; eauto). auto.
    + intros path Hp. cbn [globalCache setInstances setGlobalCache].
      destruct Hframe as [-> _]. rewrite ?Hg2.
      destruct (decide (default "default" (storagePath opts) = path)) as [<-|Hne].
      * rewrite lookup_insert_eq. eauto.
      * now rewrite lookup_insert_ne.
Qed.

Lemma evolves_saveTry this w : evolves w (snd (saveTry jsonByteLength this w)).
Proof.
  unfold saveTry. destruct (thisCache this w) as [c|]; [|apply evolves_refl].
  destruct (jsonByteLength _) as [dataSize|]; [|apply evolves_refl].
  assert (Hsave : forall kept w1,
    evolves w w1 ->
    evolves w
      (snd (let path := storagePath (options this) in
            let w2 := emit (ProviderSave path kept) w1 in
            match provider_save (storageProvider this) path kept (disk w2) with
            | (Throw e, d) => (Throw e, setDisk d w2)
            | (Normal _, d) =>
                match thisCache this w2 with
                | Throw e => (Throw e, setDisk d w2)
                | Normal c2 =>
                    (Normal tt,
                     setThisCache this {| dirty := false; store := store c2 |} (setDisk d w2))
                end
            end))).
  { intros kept w1 H1. cbv zeta. eapply evolves_trans; [exact H1|].
    destruct (provider_save _ _ _ _) as [[u|e] d]; [|now apply evolves_same].
    destruct (thisCache this (emit _ _)) as [c2|]; [|now apply evolves_same].
    cbn [snd]. eapply evolves_trans; [|apply evolves_setThisCache].
    now apply evolves_same. }
  destruct (exceeds dataSize _ && Nat.ltb 0 _)%bool.
  - destruct (trim jsonByteLength _ _ _) as [[kept size]|]; [|apply evolves_refl].
    apply Hsave. apply evolves_setThisCache.
  - apply Hsave. apply evolves_refl.
Qed.

Lemma evolves_fireTimer key w : evolves w (fireTimer jsonByteLength key w).
Proof.
  unfold fireTimer. destruct (timers w !! key) as [id|]; [|apply evolves_refl].
  unfold saveTask.
  eapply evolves_trans; [apply (evolves_same w (setTimers (delete key (timers w)) w));
                         [reflexivity | auto]|].
  destruct (getThis id _) as [this|]; [|apply evolves_refl].
  eapply evolves_trans; [apply evolves_saveTry|]. now apply evolves_same.
Qed.

Lemma evolves_step call w : evolves w (step jsonByteLength call w).
Proof.
  destruct call; simpl.
  - apply evolves_newVectorStore.
  - apply evolves_add.
  - apply evolves_remove.
  - apply evolves_clear.
  - apply evolves_save.
  - apply evolves_fireTimer.
Qed.

Lemma evolves_run calls w : evolves w (run jsonByteLength calls w).
Proof.
  revert w. induction calls as [|call calls IH]; intros w.
  - apply evolves_refl.
  - eapply evolves_trans; [apply evolves_step | apply IH].
Qed.

(** A search waits for the lock of the instance it goes through, and for
    nothing else. *)
Lemma similaritySearch_waits id w this query k filter :
  getThis id w = Normal this ->
  isResolved (wait (saveLock this)) w = false ->
  fst (similaritySearch id query k filter w) = Suspended.
Proof.
  intros Hthis Hr. unfold similaritySearch. now rewrite Hthis, Hr.
Qed.

(** What a search that does not wait makes of the shared state. *)
Lemma similaritySearch_ranks_the_state id w this c query qv filter :
  getThis id w = Normal this ->
  thisCache this w = Normal c ->
  isResolved (wait (saveLock this)) w = true ->
  queryResolvesTo this c query qv ->
  exists ranking,
    fst (similaritySearch id query None filter w) = Settled (Normal ranking) /\
    Permutation (map (fun r => (r_content r, r_metadata r)) ranking)
                (map (fun d => (content d, metadata d)) (candidatesOf c filter)) /\
    forall k, exists results rest,
      fst (similaritySearch id query (Some k) filter w) = Settled (Normal results) /\
      ranking = results ++ rest.
Proof.
  intros Hthis Hc Hlock Hq.
  destruct (similaritySearch_settles id w this c query qv None filter Hthis Hc Hlock Hq)
    as (scored & Hmap & Hitems & _ & Hres).
  rewrite slice0_undefined in Hres.
  eexists. split; [exact Hres|]. split.
  - rewrite List.map_map. rewrite <- Hitems, List.map_map.
    apply Permutation_map. apply Array_sort_Permutation.
  - intros k.
    destruct (similaritySearch_settles id w this c query qv (Some k) filter
                Hthis Hc Hlock Hq) as (scored' & Hmap' & _ & _ & Hres').
    assert (scored' = scored) as -> by congruence.
    exists (map toResult (slice0 (Array_sort byScore scored) (Some k))),
           (map toResult (drop (length (slice0 (Array_sort byScore scored) (Some k)))
                            (Array_sort byScore scored))).
    split; [exact Hres'|].
    rewrite <- List.map_app. f_equal. unfold slice0.
    rewrite length_take.
    set (final := Z.to_nat _). set (l := Array_sort byScore scored).
    destruct (Nat.le_gt_cases final (length l)).
    + rewrite Nat.min_l by assumption. symmetry. apply take_drop.
    + rewrite Nat.min_r by lia. rewrite take_ge, drop_ge by lia.
      now rewrite app_nil_r.
Qed.

(** C7, as the code has it.  Constructing an instance for a storage path
    that is already in the registry asks nothing of the storage provider
    (no [exists], no [load]) and leaves the registry as it is; the new
    instance holds a reference to the registered state.  After any run of
    calls (through these or other instances, constructions included) and
    of timers that fire, both instances still refer to one and the same
    state:
    - [count()] and [getAll()] through either of them give the size and
      the documents of that state, so what one instance adds, removes or
      clears is what the other finds right after the call;
    - [similaritySearch] through an instance is suspended while the save
      lock of that instance is taken, whatever the state of the other's;
    - when the lock is released and the query vector is an array, the
      search ranks the documents of that state: without [k] it returns
      every document that passes the filter, once, and with [k] the first
      entries of that list;
    - the two instances return the same results when neither waits and
      their embedding functions agree on the query. *)
Theorem second_instance_shares_state parser provider opts w path c0 id1 this1 :
  default "default" (storagePath opts) = path ->
  globalCache w !! path = Some c0 ->
  getThis id1 w = Normal this1 ->
  cache this1 = path ->
  let id2 := fst (newVectorStore parser provider opts w) in
  let w1 := snd (newVectorStore parser provider opts w) in
  trace w1 = trace w /\ disk w1 = disk w /\ globalCache w1 = globalCache w /\
  id2 <> id1 /\
  forall calls : list Call,
    let w2 := run jsonByteLength calls w1 in
    exists a b c,
      getThis id1 w2 = Normal a /\ getThis id2 w2 = Normal b /\
      thisCache a w2 = Normal c /\ thisCache b w2 = Normal c /\
      count id1 w2 = Normal (JsMap.size (store c)) /\
      count id2 w2 = Normal (JsMap.size (store c)) /\
      getAll id1 w2 = Normal (map toDocument (JsMap.entries (store c))) /\
      getAll id2 w2 = Normal (map toDocument (JsMap.entries (store c))) /\
      (forall id x, (id = id1 /\ x = a) \/ (id = id2 /\ x = b) ->
       forall query filter,
         (isResolved (wait (saveLock x)) w2 = false ->
          forall k, fst (similaritySearch id query k filter w2) = Suspended) /\
         (isResolved (wait (saveLock x)) w2 = true ->
          forall qv, queryResolvesTo x c query qv ->
          exists ranking,
            fst (similaritySearch id query None filter w2) = Settled (Normal ranking) /\
            Permutation (map (fun r => (r_content r, r_metadata r)) ranking)
                        (map (fun d => (content d, metadata d)) (candidatesOf c filter)) /\
            forall k, exists results rest,
              fst (similaritySearch id query (Some k) filter w2)
                = Settled (Normal results) /\
              ranking = results ++ rest)) /\
      (forall query k filter,
         vectorParser a query = vectorParser b query ->
         isResolved (wait (saveLock a)) w2 = true ->
         isResolved (wait (saveLock b)) w2 = true ->
         similaritySearch id2 query k filter w2 = similaritySearch id1 query k filter w2) /\
      (forall document elems,
         vectorParser a (content (asDocument document)) = Normal (JsArray elems) ->
         thisCache b (snd (add id1 document w2)) =
           Normal {| dirty := true;
                     store := JsMap.set (store c) (content (asDocument document))
                                {| e_metadata := metadata (asDocument document);
                                   e_vector := elems |} |}) /\
      (forall key, exists flag,
         thisCache b (snd (remove id1 key w2)) =
           Normal {| dirty := flag; store := JsMap.delete (store c) key |}) /\
      (exists flag,
         thisCache b (snd (clear id1 w2)) =
           Normal {| dirty := flag; store := JsMap.empty |}).
Proof.
  intros Hpath Hreg Hthis1 Hcache id2 w1.
  destruct (newVectorStore_attaches parser provider opts w path c0 Hpath Hreg)
    as (Htrace & Hdisk & Hglobal & Hid2 & (this2 & Hthis2 & Hcache2 & _ & _) & Hkeep).
  fold id2 w1 in Htrace, Hdisk, Hglobal, Hid2, Hthis2, Hkeep.
  repeat split; try assumption.
  - unfold getThis in Hthis1.
    destruct (instances w !! id1) eqn:Hl; [|discriminate].
    apply lookup_lt_Some in Hl. lia.
  - intros calls w2.
    destruct (evolves_run calls w1) as [Hinst Hdom]. fold w2 in Hinst, Hdom.
    pose proof (Hkeep _ _ Hthis1) as Hthis1'.
    unfold getThis in Hthis1', Hthis2.
    destruct (instances w1 !! id1) as [x1|] eqn:Hl1; [|discriminate].
    destruct (instances w1 !! id2) as [x2|] eqn:Hl2; [|discriminate].
    assert (x1 = this1) as -> by congruence.
    assert (x2 = this2) as -> by congruence.
    destruct (Hinst _ _ Hl1) as (a & Ha & Hca & _ & _ & _).
    destruct (Hinst _ _ Hl2) as (b & Hb & Hcb & _ & _ & _).
    assert (Hreg2 : is_Some (globalCache w2 !! path)).
    { apply Hdom. rewrite Hglobal, Hreg. eauto. }
    destruct Hreg2 as [c Hc].
    assert (Hga : getThis id1 w2 = Normal a) by (unfold getThis; now rewrite Ha).
    assert (Hgb : getThis id2 w2 = Normal b) by (unfold getThis; now rewrite Hb).
    assert (Hab : cache b = cache a) by congruence.
    destruct (same_reference_same_reads w2 id2 id1 b a Hgb Hga Hab)
      as (_ & _ & _ & Hsearch).
    assert (Hta : thisCache a w2 = Normal c)
      by (unfold thisCache; rewrite Hca, Hcache; now rewrite Hc).
    assert (Hsame : forall w', thisCache b w' = thisCache a w')
      by (intros w'; unfold thisCache; now rewrite Hab).
    assert (Htb : thisCache b w2 = Normal c) by now rewrite Hsame.
    exists a, b, c.
    split; [exact Hga|]. split; [exact Hgb|]. split; [exact Hta|].
    split; [exact Htb|].
    split; [unfold count; rewrite Hga; simpl; now rewrite Hta|].
    split; [unfold count; rewrite Hgb; simpl; now rewrite Htb|].
    split; [unfold getAll; rewrite Hga; simpl; now rewrite Hta|].
    split; [unfold getAll; rewrite Hgb; simpl; now rewrite Htb|].
    split.
    { intros id x Hx query filter.
      assert (Hgx : getThis id w2 = Normal x /\ thisCache x w2 = Normal c)
        by (destruct Hx as [[-> ->] | [-> ->]]; auto).
      destruct Hgx as [Hgx Htx]. split.
      - intros Hwait k. now apply (similaritySearch_waits id w2 x).
      - intros Hfree qv Hq.
        now apply (similaritySearch_ranks_the_state id w2 x c query qv filter). }
    split; [intros query k filter Hp Hra Hrb; apply Hsearch; auto|].
    split; [|split].
    + intros document elems Hv. rewrite Hsame.
      now destruct (add_array id1 w2 a c document elems Hga Hta Hv).
    + intros key. destruct (remove_store id1 w2 a c key Hga Hta) as [flag Hflag].
      exists flag. now rewrite Hsame.
    + destruct (clear_store id1 w2 a c Hga Hta) as [flag Hflag].
      exists flag. now rewrite Hsame.
Qed.
End SharedRuns.

(** * Further properties of the code *)

Section SchedulingFacts.
Context {T Disk : Type}.
Variable jsonByteLength : list (string * list JsPrim * option T) -> Completion N.
Implicit Types (w : @World T Disk) (this : @VectorStore T Disk) (c : @StoreCache T).

Lemma Scheduling_after w w0 w' :
  instances w0 = instances w -> timers w0 = timers w ->
  resolved w0 = resolved w -> nextPromise w0 = nextPromise w ->
  Scheduling w0 w' -> Scheduling w w'.
Proof.
  intros Hi Ht Hr Hn H. destruct H as [? ? ? ?|id this ? ? ? ? ?|this ? ? ? ? ? ?
                                       |key id this ? ? ? ? ? ?|key id ? ? ? ? ? ?];
    rewrite ?Hi, ?Ht, ?Hr, ?Hn in *.
  - now apply NothingScheduled.
  - now apply (SaveScheduled w w' id this).
  - now apply (InstanceCreated w w' this).
  - now apply (TaskRan w w' key id this).
  - now apply (TaskLost w w' key id).
Qed.

Lemma debounce_timers key id w :
  timers (debounce key id w) = <[key := id]> (timers w).
Proof. unfold debounce. simpl. apply insert_delete_eq. Qed.

Lemma save_Scheduling id w : Scheduling w (snd (save id w)).
Proof.
  unfold save, getThis.
  destruct (instances w !! id) as [this|] eqn:Hid; [|now apply NothingScheduled].
  destruct (thisCache this w) as [c|]; [|now apply NothingScheduled].
  destruct (negb (dirty c) || negb (truthy (storagePath (options this))))%bool;
    [now apply NothingScheduled|].
  apply (SaveScheduled _ _ id this); try reflexivity; [assumption|].
  cbn. apply insert_delete_eq.
Qed.

Lemma add_Scheduling id document w : Scheduling w (snd (add id document w)).
Proof.
  unfold add. destruct (getThis id w) as [this|]; [|now apply NothingScheduled].
  cbv zeta. destruct (vectorParser this _) as [v|]; [|now apply NothingScheduled].
  destruct (negb (Array_isArray v)); [now apply NothingScheduled|].
  destruct (thisCache this _) as [c|]; [|now apply NothingScheduled].
  destruct (autoSave (options this)); simpl; [|now apply NothingScheduled].
  eapply Scheduling_after; [| | | |apply save_Scheduling]; reflexivity.
Qed.

Lemma remove_Scheduling id key w : Scheduling w (snd (remove id key w)).
Proof.
  unfold remove. destruct (getThis id w) as [this|]; [|now apply NothingScheduled].
  destruct (thisCache this w) as [c|]; [|now apply NothingScheduled].
  destruct (negb _); simpl; [|now apply NothingScheduled].
  destruct (autoSave (options this)); [|now apply NothingScheduled].
  eapply Scheduling_after; [| | | |apply save_Scheduling]; reflexivity.
Qed.

Lemma clear_Scheduling id w : Scheduling w (snd (clear id w)).
Proof.
  unfold clear. destruct (getThis id w) as [this|]; [|now apply NothingScheduled].
  destruct (thisCache this w) as [c|]; [|now apply NothingScheduled].
  destruct (Nat.ltb _ _); simpl; [|now apply NothingScheduled].
  destruct (autoSave (options this)); [|now apply NothingScheduled].
  eapply Scheduling_after; [| | | |apply save_Scheduling]; reflexivity.
Qed.

(** [load] and the [try] block of the save task touch neither lockers nor
    timers. *)
Lemma load_scheduler provider opts w :
  let w' := snd (load provider opts w) in
  instances w' = instances w /\ timers w' = timers w /\
  resolved w' = resolved w /\ nextPromise w' = nextPromise w.
Proof.
  unfold load. destruct (negb (truthy (storagePath opts))); [auto|].
  destruct (provider_exists provider _ _) as [[|]|]; simpl; auto.
  destruct (provider_load provider _ _) as [data|]; simpl; auto.
Qed.

Lemma saveTry_scheduler this w :
  let w' := snd (saveTry jsonByteLength this w) in
  instances w' = instances w /\ timers w' = timers w /\
  resolved w' = resolved w /\ nextPromise w' = nextPromise w.
Proof.
  unfold saveTry. destruct (thisCache this w) as [c|]; [|auto].
  destruct (jsonByteLength _) as [dataSize|]; [|auto].
  destruct (exceeds dataSize _ && Nat.ltb 0 _)%bool.
  - destruct (trim jsonByteLength _ _ _) as [[kept size]|]; [|auto].
    cbv zeta. destruct (provider_save _ _ _ _) as [[u|e] d]; [|simpl; auto].
    destruct (thisCache this (emit _ _)) as [c2|]; simpl; auto.
  - cbv zeta. destruct (provider_save _ _ _ _) as [[u|e] d]; [|simpl; auto].
    destruct (thisCache this (emit _ _)) as [c2|]; simpl; auto.
Qed.

Lemma newVectorStore_Scheduling parser provider opts w :
  Scheduling w (snd (newVectorStore parser provider opts w)).
Proof.
  unfold newVectorStore, newLocker, lock, newPromise, initializeStore.
  cbn -[default load]. set (path := default "default" (storagePath opts)).
  destruct (globalCache w !! path) as [c0|]; cbn -[load].
  - eapply InstanceCreated; cbn; [| |reflexivity|..]; reflexivity.
  - set (opts' := {| autoSave := autoSave opts; debug := debug opts;
                     maxFileSizeMB := maxFileSizeMB opts; storagePath := path |}).
    set (w2 := unLock _ _).
    destruct (load_scheduler provider opts' w2) as (Hi & Ht & Hr & Hn).
    destruct (load provider opts' w2) as [m w3]. simpl in Hi, Ht, Hr, Hn. cbn.
    eapply InstanceCreated; cbn; rewrite ?Hi, ?Ht, ?Hr, ?Hn; [| |reflexivity|..]; reflexivity.
Qed.

Lemma fireTimer_Scheduling key w : Scheduling w (fireTimer jsonByteLength key w).
Proof.
  unfold fireTimer. destruct (timers w !! key) as [id|] eqn:Hkey;
    [|now apply NothingScheduled].
  unfold saveTask, getThis. cbn [instances setTimers].
  destruct (instances w !! id) as [this|] eqn:Hid.
  - destruct (saveTry_scheduler this (setTimers (delete key (timers w)) w))
      as (Hi & Ht & Hr & Hn).
    apply (TaskRan _ _ key id this); auto; cbn; rewrite ?Hi, ?Ht, ?Hr, ?Hn; reflexivity.
  - now apply (TaskLost _ _ key id).
Qed.

Lemma step_Scheduling call w : Scheduling w (step jsonByteLength call w).
Proof.
  destruct call; simpl.
  - apply newVectorStore_Scheduling.
  - apply add_Scheduling.
  - apply remove_Scheduling.
  - apply clear_Scheduling.
  - apply save_Scheduling.
  - apply fireTimer_Scheduling.
Qed.

Lemma Scheduling_invariant w w' :
  Scheduling w w' -> SchedulerInvariant w -> SchedulerInvariant w'.
Proof.
  intros H (Hres & Hinst & Htim & Hcache).
  destruct H as [Hi Ht Hr Hn|id this Hid Hi Ht Hr Hn|this Hp Hc Hi Ht Hr Hn
                |key id this Hk Hid Hi Ht Hr Hn|key id Hk Hid Hi Ht Hr Hn];
    (split; [|split; [|split]]); rewrite ?Hi, ?Ht, ?Hr, ?Hn; try assumption.
  - intros p Hp. specialize (Hres p Hp). lia.
  - intros j x Hx. destruct (decide (j = id)) as [->|Hne].
    + rewrite list_lookup_insert_eq in Hx by (eapply lookup_lt_Some, Hid).
      injection Hx as <-. simpl. lia.
    + rewrite list_lookup_insert_ne in Hx by congruence.
      specialize (Hinst j x Hx). lia.
  - intros key j Hj. destruct (decide (storagePath (options this) = key)) as [<-|Hne].
    + rewrite lookup_insert_eq in Hj. injection Hj as <-.
      exists (relock this (nextPromise w)). split; [|reflexivity].
      apply list_lookup_insert_eq. eapply lookup_lt_Some, Hid.
    + rewrite lookup_insert_ne in Hj by assumption.
      destruct (Htim key j Hj) as (x & Hx & Hpath).
      destruct (decide (j = id)) as [->|Hji].
      * exists (relock this (nextPromise w)). split.
        -- apply list_lookup_insert_eq. eapply lookup_lt_Some, Hid.
        -- simpl. congruence.
      * exists x. now rewrite list_lookup_insert_ne by congruence.
  - intros j x Hx. destruct (decide (j = id)) as [->|Hne].
    + rewrite list_lookup_insert_eq in Hx by (eapply lookup_lt_Some, Hid).
      injection Hx as <-. simpl. now apply (Hcache id).
    + rewrite list_lookup_insert_ne in Hx by congruence. now apply (Hcache j).
  - intros p Hin. apply elem_of_union in Hin as [Hin | Hin].
    + apply elem_of_singleton in Hin. lia.
    + specialize (Hres p Hin). lia.
  - intros j x Hx. apply lookup_app_Some in Hx as [Hx | [_ Hx]].
    + specialize (Hinst j x Hx). lia.
    + destruct (j - length (instances w)) as [|n]; [|discriminate].
      injection Hx as <-. lia.
  - intros key j Hj. destruct (Htim key j Hj) as (x & Hx & Hpath).
    exists x. split; [|assumption]. now apply lookup_app_l_Some.
  - intros j x Hx. apply lookup_app_Some in Hx as [Hx | [_ Hx]].
    + now apply (Hcache j).
    + destruct (j - length (instances w)) as [|n]; [|discriminate].
      now injection Hx as <-.
  - intros p Hin. apply elem_of_union in Hin as [Hin | Hin].
    + apply elem_of_singleton in Hin. subst p. now apply (Hinst id).
    + now apply Hres.
  - intros k j Hj. apply lookup_delete_Some in Hj as [_ Hj]. now apply Htim.
  - intros k j Hj. apply lookup_delete_Some in Hj as [_ Hj]. now apply Htim.
Qed.

Lemma Scheduling_abandoned p w w' :
  Scheduling w w' -> abandoned p w -> abandoned p w'.
Proof.
  intros H (Hlt & Hpend & Hown).
  destruct H as [Hi Ht Hr Hn|id this Hid Hi Ht Hr Hn|this Hp Hc Hi Ht Hr Hn
                |key id this Hk Hid Hi Ht Hr Hn|key id Hk Hid Hi Ht Hr Hn];
    (split; [|split]); rewrite ?Hi, ?Ht, ?Hr, ?Hn; try assumption; try lia.
  - intros key j x Hj Hx.
    destruct (decide (j = id)) as [->|Hji].
    + rewrite list_lookup_insert_eq in Hx by (eapply lookup_lt_Some, Hid).
      injection Hx as <-. simpl. lia.
    + rewrite list_lookup_insert_ne in Hx by congruence.
      destruct (decide (storagePath (options this) = key)) as [<-|Hne].
      * rewrite lookup_insert_eq in Hj. congruence.
      * rewrite lookup_insert_ne in Hj by assumption. now apply (Hown key j).
  - intros Hin. apply elem_of_union in Hin as [Hin | Hin]; [|contradiction].
    apply elem_of_singleton in Hin. lia.
  - intros key j x Hj Hx. apply lookup_app_Some in Hx as [Hx | [_ Hx]].
    + now apply (Hown key j).
    + destruct (j - length (instances w)) as [|n]; [|discriminate].
      injection Hx as <-. lia.
  - intros Hin. apply elem_of_union in Hin as [Hin | Hin]; [|contradiction].
    apply elem_of_singleton in Hin. now apply (Hown key id this).
  - intros k j x Hj Hx. apply lookup_delete_Some in Hj as [_ Hj]. now apply (Hown k j).
  - intros k j x Hj Hx. apply lookup_delete_Some in Hj as [_ Hj]. now apply (Hown k j).
Qed.

Lemma run_app calls1 calls2 w :
  run jsonByteLength (calls1 ++ calls2) w =
  run jsonByteLength calls2 (run jsonByteLength calls1 w).
Proof. unfold run. apply fold_left_app. Qed.

Lemma run_SchedulerInvariant calls w :
  SchedulerInvariant w -> SchedulerInvariant (run jsonByteLength calls w).
Proof.
  revert w. induction calls as [|call calls IH]; intros w Hw; [assumption|].
  simpl. apply IH. eapply Scheduling_invariant; [apply step_Scheduling | assumption].
Qed.

Lemma initial_SchedulerInvariant (d : Disk) : SchedulerInvariant (@initialWorld T Disk d).
Proof.
  repeat split.
  - intros p Hp. simpl in Hp. set_solver.
  - intros j this Hj. discriminate.
  - intros key j Hj. simpl in Hj. rewrite lookup_empty in Hj. discriminate.
  - intros j this Hj. discriminate.
Qed.

Lemma run_abandoned p calls w :
  abandoned p w -> abandoned p (run jsonByteLength calls w).
Proof.
  revert w. induction calls as [|call calls IH]; intros w Hw; [assumption|].
  simpl. apply IH. eapply Scheduling_abandoned; [apply step_Scheduling | assumption].
Qed.

Lemma abandoned_pending p w : abandoned p w -> isResolved p w = false.
Proof.
  intros (_ & Hpend & _). unfold isResolved. now apply bool_decide_eq_false.
Qed.

Lemma reachable_SchedulerInvariant (d : Disk) calls :
  SchedulerInvariant (run jsonByteLength calls (initialWorld d)).
Proof. apply run_SchedulerInvariant, initial_SchedulerInvariant. Qed.

(** A [save()] that does not return at its guard. *)
Lemma save_real id w p :
  fst (save id w) = Normal (LockPromise p) ->
  exists this c,
    instances w !! id = Some this /\ thisCache this w = Normal c /\
    dirty c = true /\ truthy (storagePath (options this)) = true /\
    p = nextPromise w /\
    instances (snd (save id w)) = <[id := relock this p]> (instances w) /\
    timers (snd (save id w)) = <[storagePath (options this) := id]> (timers w) /\
    resolved (snd (save id w)) = resolved w /\
    nextPromise (snd (save id w)) = S p /\
    globalCache (snd (save id w)) = globalCache w.
Proof.
  unfold save, getThis.
  destruct (instances w !! id) as [this|] eqn:Hid; [|discriminate].
  destruct (thisCache this w) as [c|] eqn:Hc; [|discriminate].
  destruct (dirty c) eqn:Hd; [|discriminate].
  destruct (truthy (storagePath (options this))) eqn:Hp; [|discriminate].
  cbn. intros [= <-]. exists this, c. repeat split; auto.
  apply insert_delete_eq.
Qed.

Lemma save_dirty id w this c :
  getThis id w = Normal this -> thisCache this w = Normal c ->
  dirty c = true -> storagePath (options this) <> "" ->
  fst (save id w) = Normal (LockPromise (nextPromise w)).
Proof.
  intros Hthis Hc Hd Hp. unfold save. rewrite Hthis, Hc, Hd.
  unfold truthy. destruct (String.eqb_spec (storagePath (options this)) "");
    [contradiction | reflexivity].
Qed.

Lemma getThis_lookup id w this : getThis id w = Normal this <-> instances w !! id = Some this.
Proof.
  unfold getThis. destruct (instances w !! id); split; congruence.
Qed.

(** The task of a timer releases the lock of the instance it belongs to,
    whatever happens in its [try] block. *)
Lemma fireTimer_resolves key id this w :
  timers w !! key = Some id -> instances w !! id = Some this ->
  let w' := fireTimer jsonByteLength key w in
  resolved w' = {[promise (saveLock this)]} ∪ resolved w /\
  instances w' = instances w /\ timers w' = delete key (timers w) /\
  nextPromise w' = nextPromise w.
Proof.
  intros Hk Hid. unfold fireTimer. rewrite Hk. unfold saveTask, getThis.
  cbn [instances setTimers]. rewrite Hid.
  destruct (saveTry_scheduler this (setTimers (delete key (timers w)) w))
    as (Hi & Ht & Hr & Hn).
  cbn. rewrite Hi, Ht, Hr, Hn. auto.
Qed.

Lemma isResolved_true p w : isResolved p w = true <-> p ∈ resolved w.
Proof. unfold isResolved. apply bool_decide_eq_true. Qed.

Lemma isResolved_false p w : isResolved p w = false <-> p ∉ resolved w.
Proof. unfold isResolved. apply bool_decide_eq_false. Qed.

(** X14: the promise [save()] returns is pending until the timer of the path
    fires, and resolved once it has, whether the task saved or failed. *)
Theorem save_promise_resolves_when_timer_fires (d : Disk) calls id p :
  let w := run jsonByteLength calls (initialWorld d) in
  fst (save id w) = Normal (LockPromise p) ->
  let w1 := snd (save id w) in
  exists this,
    getThis id w = Normal this /\
    timers w1 !! storagePath (options this) = Some id /\
    isResolved p w1 = false /\
    isResolved p (fireTimer jsonByteLength (storagePath (options this)) w1) = true.
Proof.
  intros w Hsave w1.
  destruct (reachable_SchedulerInvariant d calls) as (Hres & _).
  destruct (save_real id w p Hsave)
    as (this & c & Hid & _ & _ & _ & Hp & Hi & Ht & Hr & _ & _).
  fold w1 in Hi, Ht, Hr. exists this.
  split; [now apply getThis_lookup|].
  split; [rewrite Ht; apply lookup_insert_eq|].
  split.
  - apply isResolved_false. rewrite Hr. intros Hin. apply Hres in Hin. fold w in Hin. lia.
  - assert (Hid1 : instances w1 !! id = Some (relock this p))
      by (rewrite Hi; apply list_lookup_insert_eq; eapply lookup_lt_Some, Hid).
    destruct (fireTimer_resolves (storagePath (options this)) id (relock this p) w1)
      as (Hr' & _); [rewrite Ht; apply lookup_insert_eq | exact Hid1 |].
    apply isResolved_true. rewrite Hr'. simpl. apply elem_of_union_l. now apply elem_of_singleton.
Qed.

(** X15: a second [save()] on an instance before the timer fires replaces
    the lock; the promise of the first call is then never resolved. *)
Theorem superseded_save_promise_is_never_resolved (d : Disk) calls id p1 :
  let w := run jsonByteLength calls (initialWorld d) in
  fst (save id w) = Normal (LockPromise p1) ->
  let w1 := snd (save id w) in
  exists p2,
    fst (save id w1) = Normal (LockPromise p2) /\ p2 <> p1 /\
    forall later, isResolved p1 (run jsonByteLength later (snd (save id w1))) = false.
Proof.
  intros w Hsave w1.
  destruct (reachable_SchedulerInvariant d calls) as (Hres & Hinst & _).
  fold w in Hres, Hinst.
  destruct (save_real id w p1 Hsave)
    as (this & c & Hid & Hc & Hd & Hp & Hp1 & Hi & Ht & Hr & Hn & Hg).
  fold w1 in Hi, Ht, Hr, Hn, Hg.
  assert (Hid1 : instances w1 !! id = Some (relock this p1))
    by (rewrite Hi; apply list_lookup_insert_eq; eapply lookup_lt_Some, Hid).
  assert (Hsave2 : fst (save id w1) = Normal (LockPromise (S p1))).
  { rewrite <- Hn. apply (save_dirty id w1 (relock this p1) c); auto.
    - now apply getThis_lookup.
    - unfold thisCache in *. simpl. now rewrite Hg.
    - simpl. intros E. rewrite E in Hp. discriminate. }
  exists (S p1). split; [exact Hsave2|]. split; [lia|].
  intros later. apply abandoned_pending, run_abandoned.
  destruct (save_real id w1 (S p1) Hsave2)
    as (this' & _ & Hid' & _ & _ & _ & _ & Hi2 & Ht2 & Hr2 & Hn2 & _).
  split; [rewrite Hn2; lia|]. split.
  - rewrite Hr2, Hr. intros Hin. apply Hres in Hin. lia.
  - intros key j x Hj Hx. rewrite Hi2 in Hx.
    destruct (decide (j = id)) as [->|Hne].
    + rewrite list_lookup_insert_eq in Hx by (eapply lookup_lt_Some, Hid').
      injection Hx as <-. simpl. lia.
    + rewrite list_lookup_insert_ne in Hx by congruence.
      rewrite Hi, list_lookup_insert_ne in Hx by congruence.
      specialize (Hinst j x Hx). lia.
Qed.

Lemma similaritySearch_suspended id w this q k filter :
  getThis id w = Normal this ->
  isResolved (wait (saveLock this)) w = false ->
  similaritySearch id q k filter w = (Suspended, w).
Proof.
  intros Hthis Hr. unfold similaritySearch. now rewrite Hthis, Hr.
Qed.

Lemma similaritySearch_settled id w this q k filter :
  getThis id w = Normal this ->
  isResolved (wait (saveLock this)) w = true ->
  exists r w', similaritySearch id q k filter w = (Settled r, w').
Proof.
  intros Hthis Hr. unfold similaritySearch. rewrite Hthis, Hr. simpl.
  destruct (thisCache this w) as [c|]; [|eauto].
  destruct (JsMap.get (store c) q) as [e|].
  - destruct (mapC _ _); eauto.
  - destruct (vectorParser this q) as [v|]; [|eauto].
    destruct (mapC _ _); eauto.
Qed.

(** X16: two instances on one path.  When both have called [save()] before
    the timer of the path fires, the timer runs the task of the second
    and releases its lock only: the first instance has no timer left, its
    searches wait, and the promise it waits on is never resolved. *)
Theorem shared_path_timer_releases_only_the_last_saver
    (d : Disk) calls id1 id2 this1 this2 p1 :
  let w := run jsonByteLength calls (initialWorld d) in
  id1 <> id2 ->
  getThis id1 w = Normal this1 ->
  getThis id2 w = Normal this2 ->
  storagePath (options this2) = storagePath (options this1) ->
  fst (save id1 w) = Normal (LockPromise p1) ->
  let path := storagePath (options this1) in
  let w2 := snd (save id2 (snd (save id1 w))) in
  let w3 := fireTimer jsonByteLength path w2 in
  exists p2,
    fst (save id2 (snd (save id1 w))) = Normal (LockPromise p2) /\
    isResolved p2 w3 = true /\
    timers w3 !! path = None /\
    (forall q k filter, similaritySearch id1 q k filter w3 = (Suspended, w3)) /\
    (forall later, isResolved p1 (run jsonByteLength later w3) = false).
Proof.
  intros w Hne Hthis1 Hthis2 Hpath Hsave path w2 w3.
  destruct (reachable_SchedulerInvariant d calls) as (Hres & Hinst & Htim & Hcache).
  fold w in Hres, Hinst, Htim, Hcache.
  apply getThis_lookup in Hthis1, Hthis2.
  destruct (save_real id1 w p1 Hsave)
    as (x & c & Hid & Hc & Hd & Hp & Hp1 & Hi & Ht & Hr & Hn & Hg).
  assert (x = this1) as -> by congruence. clear Hid.
  set (w1 := snd (save id1 w)) in *.
  assert (Hid2 : instances w1 !! id2 = Some this2)
    by (rewrite Hi, list_lookup_insert_ne by congruence; exact Hthis2).
  assert (Hsave2 : fst (save id2 w1) = Normal (LockPromise (S p1))).
  { rewrite <- Hn. apply (save_dirty id2 w1 this2 c); auto.
    - now apply getThis_lookup.
    - unfold thisCache in *. rewrite Hg, (Hcache id2 this2 Hthis2), Hpath.
      now rewrite <- (Hcache id1 this1 Hthis1).
    - rewrite Hpath. intros E. rewrite E in Hp. discriminate. }
  exists (S p1). split; [exact Hsave2|].
  destruct (save_real id2 w1 (S p1) Hsave2)
    as (y & _ & Hy & _ & _ & _ & _ & Hi2 & Ht2 & Hr2 & Hn2 & _).
  assert (y = this2) as -> by congruence. clear Hy.
  fold w2 in Hi2, Ht2, Hr2, Hn2. rewrite Hpath in Ht2. fold path in Ht, Ht2.
  assert (Hown2 : instances w2 !! id2 = Some (relock this2 (S p1)))
    by (rewrite Hi2; apply list_lookup_insert_eq; eapply lookup_lt_Some, Hid2).
  assert (Hown1 : instances w2 !! id1 = Some (relock this1 p1)).
  { rewrite Hi2, list_lookup_insert_ne by congruence.
    rewrite Hi. apply list_lookup_insert_eq. eapply lookup_lt_Some, Hthis1. }
  destruct (fireTimer_resolves path id2 (relock this2 (S p1)) w2)
    as (Hr3 & Hi3 & Ht3 & Hn3); [rewrite Ht2; apply lookup_insert_eq | exact Hown2 |].
  fold w3 in Hr3, Hi3, Ht3, Hn3. simpl in Hr3.
  assert (Hpend : p1 ∉ resolved w3).
  { rewrite Hr3, Hr2, Hr. intros Hin. apply elem_of_union in Hin as [Hin | Hin].
    - apply elem_of_singleton in Hin. lia.
    - apply Hres in Hin. lia. }
  split; [apply isResolved_true; rewrite Hr3; apply elem_of_union_l;
          now apply elem_of_singleton|].
  split; [rewrite Ht3; apply lookup_delete_eq|].
  split.
  - intros q k filter. apply (similaritySearch_suspended id1 w3 (relock this1 p1)).
    + apply getThis_lookup. now rewrite Hi3.
    + now apply isResolved_false.
  - intros later. apply abandoned_pending, run_abandoned.
    split; [rewrite Hn3, Hn2; lia|]. split; [exact Hpend|].
    intros key j z Hj Hz. rewrite Ht3 in Hj. apply lookup_delete_Some in Hj as [Hkey Hj].
    rewrite Ht2, lookup_insert_ne in Hj by assumption.
    rewrite Ht, lookup_insert_ne in Hj by assumption.
    destruct (Htim key j Hj) as (o & Ho & Hopath).
    assert (j <> id1) by (intros ->; apply Hkey; unfold path; congruence).
    assert (j <> id2) by (intros ->; apply Hkey; unfold path; congruence).
    rewrite Hi3, Hi2, list_lookup_insert_ne in Hz by congruence.
    rewrite Hi, list_lookup_insert_ne in Hz by congruence.
    specialize (Hinst j z Hz). lia.
Qed.

(** X13: on an instance with [autoSave] and a path, a successful [add]
    leaves a timer for the path and the lock taken: a search on that
    instance waits, and settles once the timer has fired. *)
Theorem autosave_add_defers_search (d : Disk) calls id this document elems :
  let w := run jsonByteLength calls (initialWorld d) in
  getThis id w = Normal this ->
  autoSave (options this) = true ->
  storagePath (options this) <> "" ->
  vectorParser this (content (asDocument document)) = Normal (JsArray elems) ->
  let path := storagePath (options this) in
  let w' := snd (add id document w) in
  timers w' !! path = Some id /\
  (forall q k filter, similaritySearch id q k filter w' = (Suspended, w')) /\
  (forall q k filter, exists r w'',
     similaritySearch id q k filter (fireTimer jsonByteLength path w') = (Settled r, w'')).
Proof.
  intros w Hthis Hauto Hpath Hv path w'.
  destruct (reachable_SchedulerInvariant d calls) as (Hres & _).
  destruct (reachable_states_are_well_formed jsonByteLength d calls) as [Hatt _].
  fold w in Hres, Hatt.
  assert (Hid : instances w !! id = Some this) by now apply getThis_lookup.
  destruct (Hatt id this Hid) as [c Hc].
  set (entry := {| e_metadata := metadata (asDocument document); e_vector := elems |}).
  set (c1 := {| dirty := true;
                store := JsMap.set (store c) (content (asDocument document)) entry |}).
  set (w0 := setThisCache this c1 (emit (ParserCalled (content (asDocument document))) w)).
  assert (Hw' : w' = snd (save id w0)).
  { unfold w', add. rewrite Hthis. cbv zeta. rewrite Hv. simpl.
    unfold thisCache. simpl. rewrite Hc, Hauto. reflexivity. }
  assert (Hsave : fst (save id w0) = Normal (LockPromise (nextPromise w))).
  { apply (save_dirty id w0 this c1); auto.
    apply thisCache_setThisCache. reflexivity. }
  destruct (save_real id w0 _ Hsave)
    as (x & _ & Hx & _ & _ & _ & _ & Hi & Ht & Hr & Hn & _).
  assert (x = this) as -> by (simpl in Hx; congruence). clear Hx.
  rewrite <- Hw' in Hi, Ht, Hr, Hn. simpl in Hi, Ht, Hr.
  assert (Hown : instances w' !! id = Some (relock this (nextPromise w)))
    by (rewrite Hi; apply list_lookup_insert_eq; eapply lookup_lt_Some, Hid).
  assert (Htimer : timers w' !! path = Some id) by (rewrite Ht; apply lookup_insert_eq).
  split; [exact Htimer|]. split.
  - intros q k filter. apply (similaritySearch_suspended id w' (relock this (nextPromise w))).
    + now apply getThis_lookup.
    + apply isResolved_false. rewrite Hr. intros Hin. apply Hres in Hin. simpl in Hin. lia.
  - intros q k filter.
    destruct (fireTimer_resolves path id (relock this (nextPromise w)) w' Htimer Hown)
      as (Hr' & Hi' & _).
    apply (similaritySearch_settled id _ (relock this (nextPromise w))).
    + apply getThis_lookup. now rewrite Hi'.
    + apply isResolved_true. rewrite Hr'. apply elem_of_union_l. now apply elem_of_singleton.
Qed.
End SchedulingFacts.

Section WritesFacts.
Context {T Disk : Type}.
Variable jsonByteLength : list (string * list JsPrim * option T) -> Completion N.
Implicit Types (w : @World T Disk) (this : @VectorStore T Disk) (c : @StoreCache T).

Lemma providerSaves_emit e w :
  providerSaves (emit e w) = providerSaves w ++ (if isProviderSave e then [e] else []).
Proof.
  unfold providerSaves. simpl. rewrite List.filter_app. simpl.
  now destruct (isProviderSave e).
Qed.

Lemma save_disk id w : disk (snd (save id w)) = disk w.
Proof.
  unfold save. destruct (getThis id w) as [this|]; [|reflexivity].
  destruct (thisCache this w) as [c|]; [|reflexivity].
  destruct (negb (dirty c) || negb (truthy (storagePath (options this))))%bool;
    reflexivity.
Qed.

Lemma save_providerSaves id w : providerSaves (snd (save id w)) = providerSaves w.
Proof. unfold providerSaves. now rewrite save_trace. Qed.

Lemma add_writes_nothing id document w :
  disk (snd (add id document w)) = disk w /\
  providerSaves (snd (add id document w)) = providerSaves w.
Proof.
  unfold add. destruct (getThis id w) as [this|]; [|auto].
  cbv zeta.
  assert (He : providerSaves (emit (ParserCalled (content (asDocument document))) w)
               = providerSaves w)
    by (rewrite providerSaves_emit; apply app_nil_r).
  destruct (vectorParser this _) as [v|]; [|auto].
  destruct (negb (Array_isArray v)); [auto|].
  destruct (thisCache this _) as [c|]; [|auto].
  destruct (autoSave (options this)); simpl; [|auto].
  now rewrite save_disk, save_providerSaves.
Qed.

Lemma remove_writes_nothing id key w :
  disk (snd (remove id key w)) = disk w /\
  providerSaves (snd (remove id key w)) = providerSaves w.
Proof.
  unfold remove. destruct (getThis id w) as [this|]; [|auto].
  destruct (thisCache this w) as [c|]; [|auto].
  destruct (negb _); simpl; [|auto].
  destruct (autoSave (options this)); [|auto].
  now rewrite save_disk, save_providerSaves.
Qed.

Lemma clear_writes_nothing id w :
  disk (snd (clear id w)) = disk w /\
  providerSaves (snd (clear id w)) = providerSaves w.
Proof.
  unfold clear. destruct (getThis id w) as [this|]; [|auto].
  destruct (thisCache this w) as [c|]; [|auto].
  destruct (Nat.ltb _ _); simpl; [|auto].
  destruct (autoSave (options this)); [|auto].
  now rewrite save_disk, save_providerSaves.
Qed.

Lemma load_writes_nothing provider opts w :
  disk (snd (load provider opts w)) = disk w /\
  providerSaves (snd (load provider opts w)) = providerSaves w.
Proof.
  unfold load. destruct (negb (truthy (storagePath opts))); [auto|].
  assert (Hquiet : forall e w0, isProviderSave e = false ->
            providerSaves (emit e w0) = providerSaves w0)
    by (intros e w0 He; rewrite providerSaves_emit, He; apply app_nil_r).
  destruct (provider_exists provider _ _) as [[|]|]; simpl; rewrite ?Hquiet; auto.
  destruct (provider_load provider _ _) as [data|]; simpl; rewrite ?Hquiet; auto.
Qed.

Lemma newVectorStore_writes_nothing parser provider opts w :
  disk (snd (newVectorStore parser provider opts w)) = disk w /\
  providerSaves (snd (newVectorStore parser provider opts w)) = providerSaves w.
Proof.
  unfold newVectorStore, newLocker, lock, newPromise, initializeStore.
  cbn -[default load]. set (path := default "default" (storagePath opts)).
  destruct (globalCache w !! path) as [c0|]; cbn -[load]; [auto|].
  set (opts' := {| autoSave := autoSave opts; debug := debug opts;
                   maxFileSizeMB := maxFileSizeMB opts; storagePath := path |}).
  set (w2 := unLock _ _).
  destruct (load_writes_nothing provider opts' w2) as [Hd Hp].
  destruct (load provider opts' w2) as [m w3]. simpl in Hd, Hp. cbn. auto.
Qed.

(** The [try] block calls [storageProvider.save] at most once, and the
    disk is what that call left or what it was. *)
Lemma saveTry_writes this w :
  let w' := snd (saveTry jsonByteLength this w) in
  (disk w' = disk w /\ providerSaves w' = providerSaves w) \/
  (exists data,
     providerSaves w' = providerSaves w ++ [ProviderSave (storagePath (options this)) data]).
Proof.
  unfold saveTry. destruct (thisCache this w) as [c|]; [|auto].
  destruct (jsonByteLength _) as [dataSize|]; [|auto].
  destruct (exceeds dataSize _ && Nat.ltb 0 _)%bool.
  - destruct (trim jsonByteLength _ _ _) as [[kept size]|]; [|auto].
    cbv zeta. right. exists kept.
    destruct (provider_save _ _ _ _) as [[u|e] d];
      [destruct (thisCache this (emit _ _)) as [c2|]|];
      unfold providerSaves; cbn; now rewrite List.filter_app.
  - cbv zeta. right. eexists.
    destruct (provider_save _ _ _ _) as [[u|e] d];
      [destruct (thisCache this (emit _ _)) as [c2|]|];
      unfold providerSaves; cbn; now rewrite List.filter_app.
Qed.

Lemma step_writes call w :
  let w' := step jsonByteLength call w in
  if isTimerFires call then
    length (providerSaves w') <= S (length (providerSaves w))
  else disk w' = disk w /\ providerSaves w' = providerSaves w.
Proof.
  destruct call; simpl.
  - apply newVectorStore_writes_nothing.
  - apply add_writes_nothing.
  - apply remove_writes_nothing.
  - apply clear_writes_nothing.
  - split; [apply save_disk | apply save_providerSaves].
  - unfold fireTimer. destruct (timers w !! key) as [id|]; [|lia].
    unfold saveTask. destruct (getThis id _) as [this|]; [|unfold providerSaves; simpl; lia].
    destruct (saveTry_writes this (setTimers (delete key (timers w)) w))
      as [[_ H] | [data H]];
      unfold providerSaves in *; simpl in *; rewrite H; [lia|].
    rewrite length_app. simpl. lia.
Qed.

(** X17: storage is written by the timers only.  In a run the number of
    calls of [storageProvider.save] grows by at most the number of timers
    that fire, and while none fires the disk is not touched, whatever is
    added, removed, cleared, saved or constructed. *)
Theorem storage_is_written_only_when_a_timer_fires calls w :
  let w' := run jsonByteLength calls w in
  length (providerSaves w') <=
    length (providerSaves w) + length (List.filter isTimerFires calls) /\
  (forallb (fun call => negb (isTimerFires call)) calls = true ->
   disk w' = disk w /\ providerSaves w' = providerSaves w).
Proof.
  revert w. induction calls as [|call calls IH]; intros w; simpl.
  - split; [lia | auto].
  - destruct (IH (step jsonByteLength call w)) as [Hlen Hquiet].
    pose proof (step_writes call w) as Hstep. simpl in Hstep.
    unfold run in *. simpl. destruct (isTimerFires call); simpl.
    + split; [lia | discriminate].
    + destruct Hstep as [Hd Hp]. rewrite Hp in Hlen. split; [lia|].
      intros Hall. destruct (Hquiet Hall) as [Hd' Hp']. split; congruence.
Qed.

(** The loop of the task keeps a suffix of the records, or stops at a
    measurement that throws. *)
Lemma trim_suffix limit l n kept n' :
  trim jsonByteLength limit l n = Normal (kept, n') -> exists k, kept = drop k l.
Proof.
  revert n. induction l as [|x rest IH]; intros n; simpl.
  - intros [= <- <-]. now exists 0.
  - destruct (exceeds n limit).
    + destruct (jsonByteLength rest) as [size|]; simpl; [|discriminate].
      intros H. destruct (IH _ H) as [k ->]. now exists (S k).
    + intros [= <- <-]. now exists 0.
Qed.

Lemma trim_throws limit l n e :
  trim jsonByteLength limit l n = Throw e ->
  exists k, jsonByteLength (drop k l) = Throw e.
Proof.
  revert n. induction l as [|x rest IH]; intros n; simpl; [discriminate|].
  destruct (exceeds n limit); [|discriminate].
  destruct (jsonByteLength rest) as [size|e'] eqn:Hrest; simpl.
  - intros H. destruct (IH _ H) as [k Hk]. now exists (S k).
  - intros [= <-]. now exists 1.
Qed.

(** X18: the outcome of the save task, on a store with pairwise distinct
    contents.  The lock is released in every case.  Either the task stops
    at a measurement of the JSON that throws: then [storageProvider.save]
    is not called and nothing but the lock has changed.  Or it calls
    [storageProvider.save] once, with the records that are left when some
    number [k] of them is dropped from the front: then the store holds
    those records and the disk is what the call left, whether it returned
    or threw; when it returned the state is clean and a following [save()]
    does nothing, when it threw the dirty flag is as it was. *)
Theorem save_task_outcome id w this c :
  getThis id w = Normal this ->
  thisCache this w = Normal c ->
  JsMap.wf (store c) ->
  let path := storagePath (options this) in
  let serialized := map serializeItem (JsMap.entries (store c)) in
  let w' := saveTask jsonByteLength id w in
  isResolved (wait (saveLock this)) w' = true /\
  ((exists k e, jsonByteLength (drop k serialized) = Throw e) /\
   w' = unLock (saveLock this) w
   \/
   exists k,
     let kept := drop k serialized in
     let outcome := provider_save (storageProvider this) path kept (disk w) in
     trace w' = trace w ++ [ProviderSave path kept] /\
     disk w' = snd outcome /\
     exists c',
       thisCache this w' = Normal c' /\
       store c' = drop k (store c) /\
       match fst outcome with
       | Normal _ => dirty c' = false /\ save id w' = (Normal ResolvedNow, w')
       | Throw _ => dirty c' = dirty c
       end).
Proof.
  intros Hthis Hc Hwf path serialized w'. unfold w', saveTask. rewrite Hthis.
  split; [apply isResolved_true; simpl; apply elem_of_union_l; now apply elem_of_singleton|].
  assert (Hclean : forall w1 c1,
    instances w1 = instances w ->
    thisCache this w1 = Normal c1 -> dirty c1 = false ->
    save id (unLock (saveLock this) w1) = (Normal ResolvedNow, unLock (saveLock this) w1)).
  { intros w1 c1 Hi Hc1 Hd. unfold save, getThis.
    change (instances (unLock (saveLock this) w1)) with (instances w1).
    rewrite Hi. apply getThis_lookup in Hthis. rewrite Hthis.
    change (thisCache this (unLock (saveLock this) w1)) with (thisCache this w1).
    now rewrite Hc1, Hd. }
  unfold saveTry. rewrite Hc. fold serialized.
  destruct (jsonByteLength serialized) as [dataSize|e] eqn:Hsize;
    [|left; split; [exists 0, e; now rewrite drop_0 | reflexivity]].
  assert (Hsave : forall k w1 c1,
    instances w1 = instances w -> disk w1 = disk w -> trace w1 = trace w ->
    thisCache this w1 = Normal c1 -> dirty c1 = dirty c -> store c1 = drop k (store c) ->
    let r := (let path := storagePath (options this) in
            let w2 := emit (ProviderSave path (drop k serialized)) w1 in
            match provider_save (storageProvider this) path (drop k serialized)
                    (disk w2) with
            | (Throw e, d) => (Throw e, setDisk d w2)
            | (Normal _, d) =>
                match thisCache this w2 with
                | Throw e => (Throw e, setDisk d w2)
                | Normal c2 =>
                    (Normal tt,
                     setThisCache this {| dirty := false; store := store c2 |} (setDisk d w2))
                end
            end) in
    let w3 := unLock (saveLock this) (snd r) in
    exists k,
      let kept := drop k serialized in
      let outcome := provider_save (storageProvider this) path kept (disk w) in
      trace w3 = trace w ++ [ProviderSave path kept] /\
      disk w3 = snd outcome /\
      exists c',
        thisCache this w3 = Normal c' /\
        store c' = drop k (store c) /\
        match fst outcome with
        | Normal _ => dirty c' = false /\ save id w3 = (Normal ResolvedNow, w3)
        | Throw _ => dirty c' = dirty c
        end).
  { intros k w1 c1 Hi Hdisk Htr Hc1 Hd Hst. cbv zeta. exists k. cbn [disk emit].
    rewrite Hdisk. fold path.
    destruct (provider_save (storageProvider this) path (drop k serialized) (disk w))
      as [[u|e] d'] eqn:Hps.
    - rewrite thisCache_emit, Hc1. cbn [snd fst].
      split; [cbn; now rewrite Htr|]. split; [reflexivity|].
      eexists. split; [unfold thisCache; cbn; rewrite lookup_insert_eq; reflexivity|].
      split; [exact Hst|]. split; [reflexivity|].
      eapply Hclean; [| apply thisCache_setThisCache; reflexivity | reflexivity].
      cbn. exact Hi.
    - cbn [snd fst]. split; [cbn; now rewrite Htr|]. split; [reflexivity|].
      exists c1. split; [exact Hc1|]. split; [exact Hst | exact Hd]. }
  destruct (exceeds dataSize _ && Nat.ltb 0 _)%bool.
  - destruct (trim jsonByteLength _ _ _) as [[kept size]|e] eqn:Htrim.
    + right. destruct (trim_suffix _ _ _ _ _ Htrim) as [k ->].
      apply (Hsave k _ {| dirty := dirty c; store := drop k (store c) |});
        try reflexivity.
      rewrite thisCache_setThisCache by reflexivity. do 2 f_equal.
      unfold serialized, JsMap.entries, JsMap.clear.
      rewrite serialize_drop. apply rebuild_app; [now apply wf_drop | intros key _ []].
    + left. split; [|reflexivity].
      destruct (trim_throws _ _ _ _ Htrim) as [k Hk]. now exists k, e.
  - right. exact (Hsave 0 w c eq_refl eq_refl eq_refl Hc eq_refl eq_refl).
Qed.
End WritesFacts.

(** ** More on the insertion-ordered map *)
Section JsMapDelete.
Context {V : Type}.
Implicit Types (m : JsMap.t V) (k : string) (v : V).

Lemma JsMap_get_delete_ne m k k' :
  k <> k' -> JsMap.get (JsMap.delete m k) k' = JsMap.get m k'.
Proof.
  intros Hne. induction m as [|[k0 v0] m IH]; simpl; [reflexivity|].
  destruct (String.eqb k0 k) eqn:E; simpl.
  - apply String.eqb_eq in E. subst k0.
    destruct (String.eqb k k') eqn:E'; [|reflexivity].
    apply String.eqb_eq in E'. contradiction.
  - now rewrite IH.
Qed.

Lemma JsMap_delete_filter m k :
  JsMap.wf m ->
  JsMap.delete m k = List.filter (fun e => negb (String.eqb (fst e) k)) m.
Proof.
  unfold JsMap.wf. induction m as [|[k0 v0] m IH]; simpl; [reflexivity|].
  intros Hnd. apply NoDup_cons in Hnd as [Hnotin Hnd].
  destruct (String.eqb k0 k) eqn:E; simpl.
  - apply String.eqb_eq in E. subst k0.
    rewrite <- IH by assumption. symmetry. apply JsMapFacts.delete_absent.
    apply JsMapFacts.get_None_not_in. intros Hin. apply Hnotin.
    now apply list_elem_of_In.
  - f_equal. now apply IH.
Qed.

Lemma JsMap_get_delete_eq m k : JsMap.wf m -> JsMap.get (JsMap.delete m k) k = None.
Proof.
  intros Hwf. rewrite JsMap_delete_filter by assumption.
  apply JsMapFacts.get_None_not_in. unfold JsMap.keys. intros Hin.
  apply in_map_iff in Hin as ([k0 v0] & Hk & Hin). simpl in Hk. subst k0.
  apply filter_In in Hin as [_ Hin]. simpl in Hin. now rewrite String.eqb_refl in Hin.
Qed.

Lemma JsMap_delete_set_absent m k v :
  JsMap.get m k = None -> JsMap.delete (JsMap.set m k v) k = m.
Proof.
  induction m as [|[k0 v0] m IH]; simpl.
  - now rewrite String.eqb_refl.
  - destruct (String.eqb k0 k) eqn:E; [discriminate|]. simpl. rewrite E.
    intros H. f_equal. now apply IH.
Qed.
End JsMapDelete.

Section StoreFacts.
Context {T Disk : Type}.
Variable jsonByteLength : list (string * list JsPrim * option T) -> Completion N.
Implicit Types (w : @World T Disk) (this : @VectorStore T Disk) (c : @StoreCache T).

(** Reading through an instance that has kept its reference. *)
Lemma reads_after id w w' this c' :
  getThis id w = Normal this -> evolves w w' ->
  thisCache this w' = Normal c' ->
  getAll id w' = Normal (map toDocument (JsMap.entries (store c'))) /\
  count id w' = Normal (JsMap.size (store c')).
Proof.
  intros Hthis [Hinst _] Hc'. apply getThis_lookup in Hthis.
  destruct (Hinst id this Hthis) as (this' & Hid' & Hcache & _).
  assert (Hc : thisCache this' w' = Normal c')
    by (unfold thisCache in *; now rewrite Hcache).
  apply getThis_lookup in Hid'.
  unfold getAll, count. rewrite Hid'. simpl. now rewrite Hc.
Qed.

Lemma toDocument_asDocument (document : string + @MemoryDocument T) e :
  e_metadata e = metadata (asDocument document) ->
  toDocument (content (asDocument document), e) = asDocument document.
Proof.
  intros H. unfold toDocument. simpl. rewrite H. now destruct document.
Qed.

(** X1: in every state a run can reach, every instance is attached to a
    registered state with pairwise distinct contents: [getAll()] and
    [count()] return, [getAll()] has [count()] documents, and no two of
    them have the same content. *)
Theorem reachable_instances_always_answer (d : Disk) calls id this :
  let w := run jsonByteLength calls (initialWorld d) in
  instances w !! id = Some this ->
  exists docs,
    getAll id w = Normal docs /\
    count id w = Normal (length docs) /\
    NoDup (map content docs).
Proof.
  intros w Hid.
  destruct (reachable_states_are_well_formed jsonByteLength d calls) as [Hatt Hwf].
  fold w in Hatt, Hwf.
  destruct (Hatt id this Hid) as [c Hc]. specialize (Hwf _ _ Hc).
  exists (map toDocument (JsMap.entries (store c))).
  unfold getAll, count, getThis, thisCache. rewrite Hid. simpl. rewrite Hc. simpl.
  split; [reflexivity|]. split.
  - now rewrite List.length_map.
  - rewrite List.map_map. exact Hwf.
Qed.

(** X2: adding a content that is not stored yet puts its document at the
    end of [getAll()] and raises [count()] by one; the documents that were
    there keep their places. *)
Theorem add_new_content_appends id w this c document elems :
  getThis id w = Normal this ->
  thisCache this w = Normal c ->
  JsMap.get (store c) (content (asDocument document)) = None ->
  vectorParser this (content (asDocument document)) = Normal (JsArray elems) ->
  let w' := snd (add id document w) in
  exists docs,
    getAll id w = Normal docs /\
    getAll id w' = Normal (docs ++ [asDocument document]) /\
    count id w' = Normal (S (length docs)).
Proof.
  intros Hthis Hc Hnew Hv w'.
  destruct (add_array id w this c document elems Hthis Hc Hv) as [_ Hc'].
  destruct (reads_after id w w' this _ Hthis (evolves_add id document w) Hc')
    as [Hall Hcount].
  exists (map toDocument (JsMap.entries (store c))).
  split; [unfold getAll; rewrite Hthis; simpl; now rewrite Hc|].
  simpl in Hall, Hcount. rewrite JsMapFacts.set_absent in Hall, Hcount by assumption.
  unfold JsMap.entries, JsMap.size in *.
  rewrite List.map_app in Hall. simpl in Hall.
  rewrite toDocument_asDocument in Hall by reflexivity.
  split; [exact Hall|]. rewrite Hcount, length_app, List.length_map. simpl.
  f_equal. lia.
Qed.

(** X3: [remove(content)] takes out the document of that content and
    nothing else: afterwards the content is not stored, every other content
    has the vector and the metadata it had, and [getAll()] is what it was
    without that document, in the same order. *)
Theorem remove_deletes_exactly_that_content id w this c key :
  getThis id w = Normal this ->
  thisCache this w = Normal c ->
  JsMap.wf (store c) ->
  let w' := snd (remove id key w) in
  exists c' docs,
    thisCache this w' = Normal c' /\
    JsMap.get (store c') key = None /\
    (forall k, k <> key -> JsMap.get (store c') k = JsMap.get (store c) k) /\
    getAll id w = Normal docs /\
    getAll id w' =
      Normal (List.filter (fun d => negb (String.eqb (content d) key)) docs) /\
    (JsMap.has (store c) key = true -> count id w' = Normal (length docs - 1)).
Proof.
  intros Hthis Hc Hwf w'.
  destruct (remove_store id w this c key Hthis Hc) as [flag Hc'].
  destruct (reads_after id w w' this _ Hthis (evolves_remove id key w) Hc')
    as [Hall Hcount].
  eexists. exists (map toDocument (JsMap.entries (store c))).
  split; [exact Hc'|]. simpl.
  split; [now apply JsMap_get_delete_eq|].
  split; [intros k Hk; apply JsMap_get_delete_ne; congruence|].
  split; [unfold getAll; rewrite Hthis; simpl; now rewrite Hc|].
  split.
  - rewrite Hall. simpl. f_equal. unfold JsMap.entries.
    rewrite JsMap_delete_filter by assumption.
    clear. induction (store c) as [|[k e] m IH]; simpl; [reflexivity|].
    destruct (negb (String.eqb k key)); simpl; now rewrite IH.
  - intros Hhas. rewrite Hcount. simpl. f_equal.
    pose proof (JsMapFacts.size_delete_present _ _ Hhas) as Hs.
    rewrite List.length_map. unfold JsMap.size, JsMap.entries in *. lia.
Qed.

(** X4: adding a content that was not stored and removing it again gives
    back the map as it was: the same contents in the same order with the
    same vectors and metadata.  Only the dirty flag remembers the calls. *)
Theorem add_then_remove_restores_the_store id w this c document elems :
  getThis id w = Normal this ->
  thisCache this w = Normal c ->
  JsMap.get (store c) (content (asDocument document)) = None ->
  vectorParser this (content (asDocument document)) = Normal (JsArray elems) ->
  let w1 := snd (add id document w) in
  let w2 := snd (remove id (content (asDocument document)) w1) in
  thisCache this w2 = Normal {| dirty := true; store := store c |} /\
  getAll id w2 = getAll id w /\
  count id w2 = count id w.
Proof.
  intros Hthis Hc Hnew Hv w1 w2.
  destruct (add_array id w this c document elems Hthis Hc Hv) as [_ Hc1].
  fold w1 in Hc1.
  destruct (evolves_add id document w) as [Hinst1 _]. fold w1 in Hinst1.
  pose proof Hthis as Hid. apply getThis_lookup in Hid.
  destruct (Hinst1 id this Hid) as (this1 & Hid1 & Hcache1 & _).
  assert (Hc1' : thisCache this1 w1 =
            Normal {| dirty := true;
                      store := JsMap.set (store c) (content (asDocument document))
                                 {| e_metadata := metadata (asDocument document);
                                    e_vector := elems |} |})
    by (unfold thisCache in *; now rewrite Hcache1).
  apply getThis_lookup in Hid1.
  assert (Hhas : JsMap.has
            (JsMap.set (store c) (content (asDocument document))
               {| e_metadata := metadata (asDocument document); e_vector := elems |})
            (content (asDocument document)) = true)
    by (unfold JsMap.has; now rewrite JsMapFacts.get_set_eq).
  destruct (remove_present id w1 this1 _ (content (asDocument document)) Hid1 Hc1' Hhas)
    as [_ Hc2].
  fold w2 in Hc2. simpl in Hc2. rewrite JsMap_delete_set_absent in Hc2 by assumption.
  assert (Hc2' : thisCache this w2 = Normal {| dirty := true; store := store c |})
    by (unfold thisCache in *; now rewrite <- Hcache1).
  split; [exact Hc2'|].
  assert (Hev : evolves w w2)
    by (eapply evolves_trans; [apply evolves_add | apply evolves_remove]).
  destruct (reads_after id w w2 this _ Hthis Hev Hc2') as [Hall Hcount].
  rewrite Hall, Hcount. unfold getAll, count. rewrite Hthis. simpl. now rewrite Hc.
Qed.

(** X5: after [clear()] the store is empty; on a store that was empty
    already the call changes nothing at all, and otherwise it marks the
    state dirty. *)
Theorem clear_empties_the_store id w this c :
  getThis id w = Normal this ->
  thisCache this w = Normal c ->
  let w' := snd (clear id w) in
  getAll id w' = Normal [] /\
  count id w' = Normal 0 /\
  (JsMap.size (store c) = 0 -> clear id w = (Normal tt, w)) /\
  (0 < JsMap.size (store c) ->
   exists c', thisCache this w' = Normal c' /\ dirty c' = true).
Proof.
  intros Hthis Hc w'.
  destruct (clear_store id w this c Hthis Hc) as [flag Hc'].
  destruct (reads_after id w w' this _ Hthis (evolves_clear id w) Hc') as [Hall Hcount].
  split; [exact Hall|]. split; [exact Hcount|]. split.
  - intros Hz. unfold clear. rewrite Hthis, Hc, Hz. reflexivity.
  - intros Hpos. unfold w', clear. rewrite Hthis, Hc.
    destruct (Nat.ltb_spec 0 (JsMap.size (store c))) as [_|Hle]; [|lia].
    simpl. exists {| dirty := true; store := JsMap.clear (store c) |}.
    split; [|reflexivity].
    destruct (autoSave (options this)).
    + unfold thisCache. rewrite save_globalCache. simpl. now rewrite lookup_insert_eq.
    + now apply thisCache_setThisCache.
Qed.

(** X6: a search only reads.  It leaves the registry, the disk, the
    instances, the timers and the promises as they are; the one trace it
    may leave is a call of the embedding function with the query, and it
    leaves none when the query is the content of a stored document. *)
Theorem similaritySearch_only_reads id query k filter w :
  let w' := snd (similaritySearch id query k filter w) in
  globalCache w' = globalCache w /\ disk w' = disk w /\
  instances w' = instances w /\ timers w' = timers w /\
  resolved w' = resolved w /\
  (w' = w \/ w' = emit (ParserCalled query) w) /\
  (forall this c,
     getThis id w = Normal this -> thisCache this w = Normal c ->
     JsMap.has (store c) query = true -> w' = w).
Proof.
  intros w'.
  assert (Hhit : forall this c,
    getThis id w = Normal this -> thisCache this w = Normal c ->
    JsMap.has (store c) query = true -> w' = w).
  { intros this c Hthis Hc Hhas. unfold w', similaritySearch. rewrite Hthis.
    destruct (negb (isResolved _ w)); [reflexivity|]. rewrite Hc.
    unfold JsMap.has in Hhas.
    destruct (JsMap.get (store c) query) as [e|]; [|discriminate].
    now destruct (mapC _ _). }
  assert (Hstep : w' = w \/ w' = emit (ParserCalled query) w).
  { unfold w', similaritySearch.
    destruct (getThis id w) as [this|]; [|auto].
    destruct (negb (isResolved _ w)); [auto|].
    destruct (thisCache this w) as [c|]; [|auto].
    destruct (JsMap.get (store c) query) as [e|].
    - destruct (mapC _ _); auto.
    - destruct (vectorParser this query) as [v|]; [|auto].
      destruct (mapC _ _); auto. }
  destruct Hstep as [H | H]; rewrite H; repeat split; auto;
    rewrite <- H; exact Hhit.
Qed.
End StoreFacts.

Section SearchMore.
Context {T Disk : Type}.
Implicit Types (w : @World T Disk) (this : @VectorStore T Disk) (c : @StoreCache T).

Lemma documentOf_toResult (s : @Scored T) : documentOf (toResult s) = item s.
Proof. unfold documentOf, toResult. simpl. now destruct (item s). Qed.

Lemma candidates_contents_NoDup c filter :
  JsMap.wf (store c) -> NoDup (map content (candidatesOf c filter)).
Proof.
  unfold JsMap.wf, JsMap.keys, candidatesOf, JsMap.entries. intros Hwf.
  assert (Hall : NoDup (map content (map toDocument (store c))))
    by (rewrite List.map_map; exact Hwf).
  destruct filter as [f|]; [|exact Hall].
  revert Hall. generalize (map toDocument (store c)). clear.
  induction l as [|d l IH]; simpl; [auto|].
  intros Hnd. apply NoDup_cons in Hnd as [Hnotin Hnd].
  destruct (f d); simpl; [|now apply IH].
  apply NoDup_cons. split; [|now apply IH].
  intros Hin. apply Hnotin. apply list_elem_of_In in Hin. apply list_elem_of_In.
  apply in_map_iff in Hin as (x & Hx & Hin). apply filter_In in Hin as [Hin _].
  apply in_map_iff. eauto.
Qed.

(** X7: the results of a search are documents of the store that pass the
    filter, each at most once, and never more than there are candidates. *)
Theorem similaritySearch_results_are_distinct_candidates
    id w this c query qv k filter :
  getThis id w = Normal this ->
  thisCache this w = Normal c ->
  isResolved (wait (saveLock this)) w = true ->
  queryResolvesTo this c query qv ->
  JsMap.wf (store c) ->
  exists results,
    fst (similaritySearch id query k filter w) = Settled (Normal results) /\
    NoDup (map r_content results) /\
    length results <= length (candidatesOf c filter) /\
    forall r, In r results ->
      (exists e, In (r_content r, e) (JsMap.entries (store c)) /\
                 e_metadata e = r_metadata r) /\
      (forall f, filter = Some f -> f (documentOf r) = true).
Proof.
  intros Hthis Hc Hlock Hq Hwf.
  destruct (similaritySearch_settles id w this c query qv k filter Hthis Hc Hlock Hq)
    as (scored & _ & Hitems & _ & Hres).
  eexists. split; [exact Hres|].
  set (sorted := Array_sort byScore scored).
  assert (Hperm : Permutation sorted scored) by apply Array_sort_Permutation.
  assert (Hslice : exists n, slice0 sorted k = take n sorted)
    by (unfold slice0; eauto).
  destruct Hslice as [n ->].
  split; [|split].
  - rewrite List.map_map.
    assert (Hnd : NoDup (map (fun s => r_content (toResult s)) sorted)).
    { rewrite Hperm. change (fun s => r_content (toResult s))
        with (fun s : @Scored T => content (item s)).
      rewrite <- (List.map_map item content), Hitems.
      now apply candidates_contents_NoDup. }
    rewrite <- (take_drop n sorted), List.map_app in Hnd.
    now apply NoDup_app in Hnd as (Hnd & _ & _).
  - rewrite List.length_map, length_take, <- Hitems, List.length_map.
    rewrite <- (Permutation_length Hperm). lia.
  - intros r Hr. apply in_map_iff in Hr as (s & <- & Hs).
    apply In_take in Hs. apply (Permutation_in _ Hperm) in Hs.
    assert (Hcand : In (item s) (candidatesOf c filter))
      by (rewrite <- Hitems; now apply in_map).
    rewrite documentOf_toResult. unfold candidatesOf in Hcand. split.
    + assert (Hall : In (item s) (map toDocument (JsMap.entries (store c))))
        by (destruct filter; [now apply filter_In in Hcand | assumption]).
      apply in_map_iff in Hall as ([key e] & Hdoc & Hin).
      exists e. simpl. rewrite <- Hdoc. simpl. auto.
    + intros f ->. now apply filter_In in Hcand.
Qed.

Lemma comesBefore_cons {A : Type} (x u v : A) l :
  comesBefore l u v -> comesBefore (x :: l) u v.
Proof.
  intros (l1 & l2 & l3 & ->). now exists (x :: l1), l2, l3.
Qed.

Lemma comesBefore_head {A : Type} (x z : A) l : In z l -> comesBefore (x :: l) x z.
Proof.
  intros Hin. apply in_split in Hin as (l2 & l3 & ->). now exists [], l2, l3.
Qed.

Lemma comesBefore_map {A B : Type} (f : A -> B) l u v :
  comesBefore l u v -> comesBefore (map f l) (f u) (f v).
Proof.
  intros (l1 & l2 & l3 & ->). exists (map f l1), (map f l2), (map f l3).
  now rewrite !List.map_app; simpl; rewrite List.map_app.
Qed.

Lemma StronglySorted_split {A : Type} (R : A -> A -> Prop) l1 x l2 y l3 :
  StronglySorted R (l1 ++ x :: l2 ++ y :: l3) -> R x y.
Proof.
  induction l1 as [|z l1 IH]; simpl; intros Hs.
  - apply StronglySorted_inv in Hs as [_ Hx].
    rewrite Forall_forall in Hx. apply Hx.
    apply list_elem_of_In, in_or_app. right. now left.
  - apply StronglySorted_inv in Hs as [Hs _]. now apply IH.
Qed.

Lemma StronglySorted_weaken {A : Type} (R R' : A -> A -> Prop) l :
  (forall x y, R x y -> R' x y) -> StronglySorted R l -> StronglySorted R' l.
Proof.
  intros Himp. induction 1 as [|x l Hs IH Hx]; constructor; [assumption|].
  rewrite Forall_forall in Hx. apply Forall_forall. auto.
Qed.

Lemma ltb_not_eqb x y : PrimFloat.ltb x y = true -> PrimFloat.eqb y x = false.
Proof.
  rewrite FloatAxioms.ltb_spec, FloatAxioms.eqb_spec. unfold SFltb, SFeqb.
  destruct (Prim2SF x) as [[|]|[|]| |[|] mx ex], (Prim2SF y) as [[|]|[|]| |[|] my ey];
    simpl; try discriminate; try reflexivity;
    try (destruct (Z.compare_spec ex ey), (Z.compare_spec ey ex); try lia;
         try discriminate; try reflexivity; subst;
         rewrite ?Pos.compare_cont_spec; simpl;
         destruct (Pos.compare_spec mx my), (Pos.compare_spec my mx); try lia;
         simpl; try discriminate; try reflexivity).
Qed.

Lemma sortInsert_ranked (l : list (@Scored T)) (x : @Scored T) sorted :
  is_nan (score x) = false ->
  Forall (fun r => is_nan (score r) = false) sorted ->
  (forall z, In z sorted -> In z l) ->
  StronglySorted (rankedAfter (x :: l)) sorted ->
  StronglySorted (rankedAfter (x :: l)) (sortInsert byScore x sorted).
Proof.
  intros Nx Nn Hsub Hs. induction Hs as [|y tl Hs IH Hy]; simpl.
  - repeat constructor.
  - apply Forall_cons in Nn as [Ny Nn].
    rewrite comesAfter_ltb. unfold byScore at 1. rewrite Number.ltb_sub by assumption.
    destruct (PrimFloat.ltb (score x) (score y)) eqn:E.
    + constructor.
      * apply IH; [assumption|]. intros z Hz. apply Hsub. now right.
      * rewrite sortInsert_Permutation. constructor; [|assumption].
        split; [now apply Number.ltb_leb|].
        intros Heq. apply ltb_not_eqb in E. congruence.
    + assert (Hxy : descending (score x) (score y))
        by (now apply Number.not_ltb_leb).
      constructor; [now constructor|].
      apply Forall_forall. intros z Hz. apply list_elem_of_In in Hz.
      split.
      * destruct Hz as [<-|Hz]; [assumption|].
        rewrite Forall_forall in Hy, Nn.
        apply list_elem_of_In in Hz.
        destruct (Hy z Hz) as [Hyz _].
        apply (Number.leb_trans (score z) (score y) (score x)); auto.
      * intros _. apply comesBefore_head. now apply Hsub.
Qed.

Lemma Array_sort_ranked (l : list (@Scored T)) :
  Forall (fun r => is_nan (score r) = false) l ->
  StronglySorted (rankedAfter l) (Array_sort byScore l).
Proof.
  induction l as [|x l IH]; intros Hn; simpl; [constructor|].
  apply Forall_cons in Hn as [Nx Nn].
  apply sortInsert_ranked; auto.
  - now rewrite Array_sort_Permutation.
  - intros z Hz. eapply Permutation_in; [apply Array_sort_Permutation | exact Hz].
  - apply (StronglySorted_weaken (rankedAfter l)); [|now apply IH].
    intros u v [Hd Hb]. split; [assumption|].
    intros Heq. now apply comesBefore_cons, Hb.
Qed.

(** X8: ties keep the order of insertion.  When no score is [NaN] and two
    results have equal scores, the one listed first is the one that comes
    first among the candidates, that is in the order of [getAll()]. *)
Theorem similaritySearch_ties_keep_insertion_order
    id w this c query qv k filter :
  getThis id w = Normal this ->
  thisCache this w = Normal c ->
  isResolved (wait (saveLock this)) w = true ->
  queryResolvesTo this c query qv ->
  scoresAreNumbers (store c) qv (candidatesOf c filter) = true ->
  exists results,
    fst (similaritySearch id query k filter w) = Settled (Normal results) /\
    forall l1 r1 l2 r2 l3,
      results = l1 ++ r1 :: l2 ++ r2 :: l3 ->
      PrimFloat.eqb (r_score r1) (r_score r2) = true ->
      comesBefore (candidatesOf c filter) (documentOf r1) (documentOf r2).
Proof.
  intros Hthis Hc Hlock Hq Hnum.
  destruct (similaritySearch_settles id w this c query qv k filter Hthis Hc Hlock Hq)
    as (scored & _ & Hitems & Hall & Hres).
  eexists. split; [exact Hres|].
  rewrite <- Hitems in Hnum.
  pose proof (scoresAreNumbers_Forall _ _ _ Hall Hnum) as Hnn.
  pose proof (Array_sort_ranked scored Hnn) as Hsorted.
  assert (Hslice : exists n, slice0 (Array_sort byScore scored) k
                             = take n (Array_sort byScore scored))
    by (unfold slice0; eauto).
  destruct Hslice as [n Hn]. rewrite Hn.
  apply (StronglySorted_take _ n) in Hsorted.
  assert (Hresults : StronglySorted
    (fun r1 r2 => PrimFloat.eqb (r_score r1) (r_score r2) = true ->
                  comesBefore (candidatesOf c filter) (documentOf r1) (documentOf r2))
    (map toResult (take n (Array_sort byScore scored)))).
  { apply StronglySorted_map. revert Hsorted. apply StronglySorted_weaken.
    intros u v [_ Hb] Heq. rewrite !documentOf_toResult, <- Hitems.
    apply comesBefore_map. now apply Hb. }
  intros l1 r1 l2 r2 l3 Hsplit. rewrite Hsplit in Hresults.
  now apply StronglySorted_split in Hresults.
Qed.
End SearchMore.

Section Persistence.
Context {T Disk : Type}.
Variable jsonByteLength : list (string * list JsPrim * option T) -> Completion N.
Implicit Types (w : @World T Disk) (this : @VectorStore T Disk) (c : @StoreCache T).

(** What a save task that cleaned a dirty state has written. *)
Lemma saveTask_written id w this c c' :
  getThis id w = Normal this ->
  thisCache this w = Normal c ->
  JsMap.wf (store c) ->
  dirty c = true ->
  thisCache this (saveTask jsonByteLength id w) = Normal c' ->
  dirty c' = false ->
  (exists k, store c' = drop k (store c)) /\
  provider_save (storageProvider this) (storagePath (options this))
    (map serializeItem (JsMap.entries (store c'))) (disk w)
  = (Normal tt, disk (saveTask jsonByteLength id w)).
Proof.
  intros Hthis Hc Hwf Hd. unfold saveTask. rewrite Hthis.
  change (thisCache this (unLock (saveLock this) ?x)) with (thisCache this x).
  change (disk (unLock (saveLock this) ?x)) with (disk x).
  unfold saveTry. rewrite Hc.
  assert (Hfail : forall x, thisCache this w = Normal x -> dirty x = false -> False)
    by (intros x Hx Hx'; congruence).
  destruct (jsonByteLength _) as [dataSize|]; [|simpl; intros; exfalso; eauto].
  assert (Hsave : forall k w1,
    disk w1 = disk w ->
    thisCache this w1 = Normal {| dirty := true; store := drop k (store c) |} ->
    let r := (let path := storagePath (options this) in
            let w2 := emit (ProviderSave path (drop k (map serializeItem (store c)))) w1 in
            match provider_save (storageProvider this) path
                    (drop k (map serializeItem (store c))) (disk w2) with
            | (Throw e, d) => (Throw e, setDisk d w2)
            | (Normal _, d) =>
                match thisCache this w2 with
                | Throw e => (Throw e, setDisk d w2)
                | Normal c2 =>
                    (Normal tt,
                     setThisCache this {| dirty := false; store := store c2 |} (setDisk d w2))
                end
            end) in
    thisCache this (snd r) = Normal c' -> dirty c' = false ->
    (exists k, store c' = drop k (store c)) /\
    provider_save (storageProvider this) (storagePath (options this))
      (map serializeItem (JsMap.entries (store c'))) (disk w)
    = (Normal tt, disk (snd r))).
  { intros k w1 Hdisk Hc1. cbv zeta. cbn [disk emit]. rewrite Hdisk.
    destruct (provider_save _ _ _ _) as [[[]|e] d'] eqn:Hps.
    - rewrite thisCache_emit, Hc1. cbn [snd store].
      rewrite thisCache_setThisCache by reflexivity. intros [= <-] _. simpl.
      split; [eauto|]. unfold JsMap.entries. now rewrite <- serialize_drop.
    - cbn [snd]. change (thisCache this (setDisk ?d ?x)) with (thisCache this x).
      rewrite thisCache_emit, Hc1. intros [= <-]. discriminate. }
  destruct (exceeds dataSize _ && Nat.ltb 0 _)%bool.
  - destruct (trim jsonByteLength _ _ _) as [[kept size]|] eqn:Htrim;
      [|simpl; intros; exfalso; eauto].
    destruct (trim_suffix jsonByteLength _ _ _ _ _ Htrim) as [k ->].
    unfold JsMap.entries. apply (Hsave k); [reflexivity|].
    rewrite thisCache_setThisCache by reflexivity. rewrite Hd. do 2 f_equal.
    unfold JsMap.clear. rewrite serialize_drop. apply rebuild_app.
    + now apply wf_drop.
    + intros key _ [].
  - unfold JsMap.entries.
    assert (H0 : map serializeItem (store c) = drop 0 (map serializeItem (store c)))
      by reflexivity.
    rewrite H0. apply (Hsave 0); [reflexivity|].
    rewrite Hc. now destruct c; simpl in *; subst.
Qed.

(** X19: what the save task wrote is what a new process finds.  When the
    task has cleaned a dirty state through a provider that reads back what
    it wrote, an instance constructed for the same path in a process whose
    registry is empty holds the same contents, in the same order, with the
    same vectors and metadata. *)
Theorem saved_store_is_loaded_by_a_new_process
    id w this c c' parser (opts : MemoryVectorStoreOptions (option string)) :
  getThis id w = Normal this ->
  thisCache this w = Normal c ->
  JsMap.wf (store c) ->
  dirty c = true ->
  readsBackWhatItWrote (storageProvider this) ->
  storagePath (options this) <> "" ->
  storagePath opts = Some (storagePath (options this)) ->
  let w' := saveTask jsonByteLength id w in
  thisCache this w' = Normal c' ->
  dirty c' = false ->
  let fresh := newVectorStore parser (storageProvider this) opts (initialWorld (disk w')) in
  getAll (fst fresh) (snd fresh) = Normal (map toDocument (JsMap.entries (store c'))) /\
  count (fst fresh) (snd fresh) = Normal (JsMap.size (store c')) /\
  globalCache (snd fresh) !! storagePath (options this)
    = Some {| dirty := false; store := store c' |}.
Proof.
  intros Hthis Hc Hwf Hd Hback Hpath Hopts w' Hc' Hd' fresh.
  destruct (saveTask_written id w this c c' Hthis Hc Hwf Hd Hc' Hd') as [[k Hk] Hps].
  fold w' in Hps. destruct (Hback _ _ _ _ Hps) as [Hex Hld].
  assert (Hwf' : JsMap.wf (store c')) by (rewrite Hk; now apply wf_drop).
  assert (Hload : fold_left deserializeInto (map serializeItem (JsMap.entries (store c')))
                    JsMap.empty = store c').
  { unfold JsMap.entries. rewrite rebuild_app; [reflexivity | assumption | intros key _ []]. }
  assert (Htruthy : truthy (storagePath (options this)) = true).
  { unfold truthy. now destruct (String.eqb_spec (storagePath (options this)) ""). }
  unfold fresh, newVectorStore, newLocker, lock, newPromise, initializeStore.
  cbn -[default load]. rewrite Hopts. cbn -[load]. rewrite lookup_empty.
  unfold load. cbn. rewrite Htruthy. cbn. rewrite Hex. cbn. rewrite Hld, Hload.
  unfold getAll, count, getThis, thisCache. cbn.
  rewrite lookup_insert_eq. auto.
Qed.

(** X20: the constructor survives a storage that gives nothing.  When the
    path is not registered and is the empty string, or [exists] does not
    answer [true], or [load] throws, the new instance starts with an
    empty, clean store; nothing is thrown and the disk is not touched.
    With the empty path the provider is not even asked. *)
Theorem constructor_starts_empty_when_nothing_loads
    parser provider (opts : MemoryVectorStoreOptions (option string)) w path :
  default "default" (storagePath opts) = path ->
  globalCache w !! path = None ->
  path = "" \/
  provider_exists provider path (disk w) <> Normal true \/
  (exists e, provider_load provider path (disk w) = Throw e) ->
  let id := fst (newVectorStore parser provider opts w) in
  let w' := snd (newVectorStore parser provider opts w) in
  getAll id w' = Normal [] /\
  count id w' = Normal 0 /\
  globalCache w' !! path = Some {| dirty := false; store := JsMap.empty |} /\
  disk w' = disk w /\
  (path = "" -> trace w' = trace w).
Proof.
  intros Hpath Hreg Hnothing id w'.
  unfold id, w', newVectorStore, newLocker, lock, newPromise, initializeStore.
  cbn -[default load]. rewrite Hpath. cbn -[load]. rewrite Hreg.
  unfold load. cbn.
  assert (Hlast : forall (l : list (@VectorStore T Disk)) x,
            (l ++ [x]) !! length l = Some x)
    by (intros l x; rewrite lookup_app_r, Nat.sub_diag by lia; reflexivity).
  destruct (truthy path) eqn:Htruthy; cbn.
  - destruct (provider_exists provider path (disk w)) as [[|]|] eqn:Hex; cbn.
    + destruct (provider_load provider path (disk w)) as [data|] eqn:Hld; cbn.
      * exfalso. destruct Hnothing as [E | [H | [e H]]];
          [rewrite E in Htruthy; discriminate | now apply H | congruence].
      * unfold getAll, count, getThis, thisCache. cbn.
        rewrite Hlast. cbn. rewrite lookup_insert_eq. repeat split.
        intros E. rewrite E in Htruthy. discriminate.
    + unfold getAll, count, getThis, thisCache. cbn.
      rewrite Hlast. cbn. rewrite lookup_insert_eq. repeat split.
      intros E. rewrite E in Htruthy. discriminate.
    + unfold getAll, count, getThis, thisCache. cbn.
      rewrite Hlast. cbn. rewrite lookup_insert_eq. repeat split.
      intros E. rewrite E in Htruthy. discriminate.
  - unfold getAll, count, getThis, thisCache. cbn.
    rewrite Hlast. cbn. rewrite lookup_insert_eq. repeat split.
Qed.
End Persistence.

Module NumberMore.
Local Open Scope float_scope.

Lemma SF2Prim_nan : SF2Prim S754_nan = nan.
Proof. now rewrite <- (SF2Prim_Prim2SF nan). Qed.

Lemma of_spec x s : Prim2SF x = s -> x = SF2Prim s.
Proof. intros <-. symmetry. apply SF2Prim_Prim2SF. Qed.

Lemma SFmul_comm x y : SF64mul x y = SF64mul y x.
Proof.
  unfold SF64mul, SFmul.
  destruct x as [sx | sx | | sx mx ex], y as [sy | sy | | sy my ey];
    try reflexivity; rewrite ?(xorb_comm sx sy); try reflexivity.
  now rewrite (Pos.mul_comm mx my), (Z.add_comm ex ey).
Qed.

Lemma mul_comm x y : x * y = y * x.
Proof.
  apply Prim2SF_inj. rewrite !FloatAxioms.mul_spec. apply SFmul_comm.
Qed.

Lemma add_nan_l x : nan + x = nan.
Proof.
  apply Prim2SF_inj. rewrite FloatAxioms.add_spec. reflexivity.
Qed.

Lemma add_nan_r x : x + nan = nan.
Proof.
  apply Prim2SF_inj. rewrite FloatAxioms.add_spec.
  change (Prim2SF nan) with S754_nan. now destruct (Prim2SF x).
Qed.

Lemma mul_nan_r x : x * nan = nan.
Proof.
  apply Prim2SF_inj. rewrite FloatAxioms.mul_spec.
  change (Prim2SF nan) with S754_nan. now destruct (Prim2SF x).
Qed.

Lemma div_nan_l x : nan / x = nan.
Proof.
  apply Prim2SF_inj. rewrite FloatAxioms.div_spec. reflexivity.
Qed.

Lemma eqb_nan_l x : (nan =? x) = false.
Proof. rewrite FloatAxioms.eqb_spec. reflexivity. Qed.
End NumberMore.

Section CosineMore.
Local Open Scope float_scope.

Lemma cosineStep_swap a b acc i :
  cosineStep b a (swapNorms acc) i = swapNorms (cosineStep a b acc i).
Proof.
  destruct acc as [[d na] nb]. simpl.
  now rewrite (NumberMore.mul_comm (ToNumber (index b i)) (ToNumber (index a i))).
Qed.

Lemma cosineFold_swap a b l acc :
  fold_left (cosineStep b a) l (swapNorms acc) =
  swapNorms (fold_left (cosineStep a b) l acc).
Proof.
  revert acc. induction l as [|i l IH]; intros acc; simpl; [reflexivity|].
  now rewrite cosineStep_swap, IH.
Qed.

Lemma cosineResult_swap acc : cosineResult (swapNorms acc) = cosineResult acc.
Proof.
  destruct acc as [[d na] nb]. simpl.
  now rewrite orb_comm, (NumberMore.mul_comm (sqrt nb) (sqrt na)).
Qed.

(** X11: the score is symmetric.  For two arrays of the same length,
    whatever they hold, exchanging the query vector and the stored vector
    gives the same number, bit for bit. *)
Theorem cosineSimilarity_is_symmetric (a b : list JsPrim) :
  length a = length b ->
  cosineSimilarity (JsArray a) b = cosineSimilarity (JsArray b) a.
Proof.
  intros Hlen. unfold cosineSimilarity, cosineLoop. f_equal.
  rewrite <- Hlen.
  change (zero, zero, zero) with (swapNorms (zero, zero, zero)) at 2.
  now rewrite cosineFold_swap, cosineResult_swap.
Qed.

Lemma cosineFold_ext a b b' l acc :
  (forall i, In i l -> index b i = index b' i) ->
  fold_left (cosineStep a b) l acc = fold_left (cosineStep a b') l acc.
Proof.
  revert acc. induction l as [|i l IH]; intros acc Hext; simpl; [reflexivity|].
  rewrite IH by (intros j Hj; apply Hext; now right).
  f_equal. unfold cosineStep. destruct acc as [[d na] nb].
  now rewrite (Hext i (or_introl eq_refl)).
Qed.

(** The accumulator of the query's norm does not depend on the stored
    vector. *)
Lemma cosineFold_normA_indep a b b' l acc acc' :
  snd (fst acc) = snd (fst acc') ->
  snd (fst (fold_left (cosineStep a b) l acc)) =
  snd (fst (fold_left (cosineStep a b') l acc')).
Proof.
  revert acc acc'. induction l as [|i l IH]; intros [[d na] nb] [[d' na'] nb'] H;
    simpl in *; [assumption|].
  apply IH. simpl. now rewrite H.
Qed.

(** Once the dot product and the norm of the stored vector are [NaN] they
    stay [NaN]. *)
Lemma cosineFold_nan a b l d na nb :
  d = nan -> nb = nan ->
  exists na',
    fold_left (cosineStep a b) l (d, na, nb) = (nan, na', nan).
Proof.
  revert d na nb. induction l as [|i l IH]; intros d na nb -> ->; simpl; [eauto|].
  apply IH; apply NumberMore.add_nan_l.
Qed.

Lemma index_beyond (b : list JsPrim) i : length b <= i -> index b i = JsUndefined.
Proof. intros H. unfold index. now apply nth_overflow. Qed.

(** X12: vectors of different lengths.  Components of the stored vector
    beyond the length of the query vector are ignored.  When the stored
    vector is the shorter one, the score is [NaN], unless the squares of
    the query vector sum to zero, in which case it is [0]. *)
Theorem cosineSimilarity_of_mismatched_lengths (a : list float) (b : list JsPrim) :
  (length a <= length b ->
   cosineSimilarity (JsArray (numbers a)) b =
   cosineSimilarity (JsArray (numbers a)) (take (length a) b)) /\
  (length b < length a ->
   cosineSimilarity (JsArray (numbers a)) b =
   Normal (if Spec.sumOfSquares a =? zero then zero else nan)).
Proof.
  split.
  - intros Hlen. unfold cosineSimilarity, cosineLoop. do 2 f_equal.
    apply cosineFold_ext. intros i Hi. apply in_seq in Hi.
    rewrite length_numbers in Hi. unfold index.
    revert i Hi. generalize (length a). clear.
    induction b as [|y b IH]; intros [|n] i Hi; simpl; try reflexivity; try lia.
    destruct i as [|i]; [reflexivity|]. apply IH. lia.
  - intros Hlen. unfold cosineSimilarity, cosineLoop. f_equal.
    rewrite length_numbers.
    assert (Hna : snd (fst (fold_left (cosineStep (numbers a) b) (seq 0 (length a))
                              (zero, zero, zero)))
                  = Spec.sumOfSquares a).
    { rewrite (cosineFold_normA_indep _ b (numbers a) _ _ (zero, zero, zero) eq_refl).
      now rewrite cosineLoop_sums. }
    assert (Hsplit : seq 0 (length a) =
              seq 0 (length b) ++ length b :: seq (S (length b)) (length a - S (length b))).
    { replace (length a) with (length b + S (length a - S (length b)))%nat at 1 by lia.
      now rewrite seq_app. }
    rewrite Hsplit in *. rewrite fold_left_app in *. cbn [fold_left] in *.
    destruct (fold_left (cosineStep (numbers a) b) (seq 0 (length b)) (zero, zero, zero))
      as [[d na] nb].
    unfold cosineStep at 2 in Hna. unfold cosineStep at 2.
    rewrite (index_beyond b (length b)) in * by lia. cbn [ToNumber] in *.
    rewrite NumberMore.mul_nan_r, !NumberMore.add_nan_r in *.
    destruct (cosineFold_nan (numbers a) b (seq (S (length b)) (length a - S (length b)))
                nan (na + ToNumber (index (numbers a) (length b))
                          * ToNumber (index (numbers a) (length b))) nan eq_refl eq_refl)
      as [na' Hfold].
    rewrite Hfold in *. simpl in Hna. subst na'. unfold cosineResult.
    rewrite NumberMore.eqb_nan_l, orb_false_r, NumberMore.div_nan_l. reflexivity.
Qed.
End CosineMore.

Module Ordering.
Local Open Scope float_scope.

Lemma leb_refl x : is_nan x = false -> (x <=? x) = true.
Proof.
  intros Nx. apply Number.not_nan in Nx. rewrite FloatAxioms.leb_spec.
  apply Binary64.SFleb_key; auto. unfold Float64.key_le.
  destruct (Float64.key (Prim2SF x)) as [[a1 a2] a3]. lia.
Qed.

Lemma leb_not_ltb x y : (x <=? y) = true -> (y <? x) = false.
Proof.
  rewrite FloatAxioms.ltb_spec, FloatAxioms.leb_spec. unfold SFltb, SFleb.
  destruct (Prim2SF x) as [[|]|[|]| |[|] mx ex], (Prim2SF y) as [[|]|[|]| |[|] my ey];
    simpl; try discriminate; try reflexivity;
    try (destruct (Z.compare_spec ex ey), (Z.compare_spec ey ex); try lia;
         try discriminate; try reflexivity; subst;
         rewrite ?Pos.compare_cont_spec; simpl;
         destruct (Pos.compare_spec mx my), (Pos.compare_spec my mx); try lia;
         simpl; try discriminate; try reflexivity).
Qed.

(** Two numbers neither of which is below the other are the same number,
    unless they are zeros. *)
Lemma same_number x y :
  is_nan x = false -> is_nan y = false ->
  (x <? y) = false -> (y <? x) = false -> (y =? zero) = false -> x = y.
Proof.
  intros Nx Ny. apply Number.not_nan in Nx. apply Number.not_nan in Ny.
  rewrite !FloatAxioms.ltb_spec, FloatAxioms.eqb_spec. intros Hxy Hyx Hz.
  apply Prim2SF_inj. revert Hxy Hyx Hz. unfold SFltb, SFeqb.
  change (Prim2SF zero) with (S754_zero false).
  destruct (Prim2SF x) as [[|]|[|]| |[|] mx ex], (Prim2SF y) as [[|]|[|]| |[|] my ey];
    simpl; try discriminate; try reflexivity; try congruence;
    intros Hxy Hyx _;
    destruct (Z.compare_spec ex ey), (Z.compare_spec ey ex); try lia;
    try discriminate; subst;
    rewrite ?Pos.compare_cont_spec in *; simpl in *;
    destruct (Pos.compare_spec mx my), (Pos.compare_spec my mx); try lia;
    simpl in *; try discriminate; subst; reflexivity.
Qed.
End Ordering.

Module Clamp.
Local Open Scope float_scope.

Lemma ltb_leb_trans x y z :
  (x <? y) = true -> (y <=? z) = true -> (x <? z) = true.
Proof.
  rewrite !FloatAxioms.ltb_spec, FloatAxioms.leb_spec. intros H1 H2.
  assert (Nx : Prim2SF x <> S754_nan)
    by (intros E; rewrite E in H1; discriminate).
  assert (Ny : Prim2SF y <> S754_nan)
    by (intros E; rewrite E in H2; discriminate).
  assert (Nz : Prim2SF z <> S754_nan)
    by (intros E; rewrite E in H2; unfold SFleb in H2;
        destruct (Prim2SF y); discriminate).
  apply Binary64.SFltb_key in H1; auto. apply Binary64.SFleb_key in H2; auto.
  apply Binary64.SFltb_key; auto.
  revert H1 H2. unfold Float64.key_lt, Float64.key_le.
  destruct (Float64.key (Prim2SF x)) as [[a1 a2] a3],
           (Float64.key (Prim2SF y)) as [[b1 b2] b3],
           (Float64.key (Prim2SF z)) as [[c1 c2] c3]. lia.
Qed.

Lemma Math_min_cases x y :
  is_nan x = false -> is_nan y = false ->
  (Math_min x y = x /\ (x <=? y) = true) \/ (Math_min x y = y /\ (y <=? x) = true).
Proof.
  intros Nx Ny. unfold Math_min. rewrite Nx, Ny. simpl.
  destruct (x <? y) eqn:Hxy; [left; split; [reflexivity | now apply Number.ltb_leb]|].
  destruct (y <? x) eqn:Hyx; [right; split; [reflexivity | now apply Number.ltb_leb]|].
  destruct (get_sign x).
  - left. split; [reflexivity | now apply Number.not_ltb_leb].
  - right. split; [reflexivity | now apply Number.not_ltb_leb].
Qed.

Lemma Math_max_cases x y :
  is_nan x = false -> is_nan y = false ->
  (Math_max x y = x /\ (y <=? x) = true) \/ (Math_max x y = y /\ (x <=? y) = true).
Proof.
  intros Nx Ny. unfold Math_max. rewrite Nx, Ny. simpl.
  destruct (y <? x) eqn:Hyx; [left; split; [reflexivity | now apply Number.ltb_leb]|].
  destruct (x <? y) eqn:Hxy; [right; split; [reflexivity | now apply Number.ltb_leb]|].
  destruct (get_sign x).
  - right. split; [reflexivity | now apply Number.not_ltb_leb].
  - left. split; [reflexivity | now apply Number.not_ltb_leb].
Qed.

(** [Math.max(Math.min(x, hi), lo)] for a number [x] and bounds
    [0 < lo <= hi]. *)
Lemma clamp lo hi x :
  (zero <? lo) = true -> (lo <=? hi) = true -> is_nan x = false ->
  let r := Math_max (Math_min x hi) lo in
  (lo <=? r) = true /\ (r <=? hi) = true /\
  ((lo <=? x) = true -> (x <=? hi) = true -> r = x) /\
  number_or r 500 = r.
Proof.
  intros Hpos Hle Nx r.
  assert (Nlo : is_nan lo = false).
  { apply Number.is_nan_spec. intros E. rewrite FloatAxioms.ltb_spec, E in Hpos.
    discriminate. }
  assert (Nhi : is_nan hi = false).
  { apply Number.is_nan_spec. intros E. rewrite FloatAxioms.leb_spec, E in Hle.
    unfold SFleb in Hle. destruct (Prim2SF lo); discriminate. }
  assert (Zlo : (lo =? zero) = false) by now apply ltb_not_eqb.
  assert (Zhi : (hi =? zero) = false)
    by (apply ltb_not_eqb; now apply (ltb_leb_trans zero lo hi)).
  destruct (Math_min_cases x hi Nx Nhi) as [[Hm Hmle] | [Hm Hmle]];
    destruct (Math_max_cases (Math_min x hi) lo) as [[Hr Hrle] | [Hr Hrle]];
    try (rewrite Hm; assumption); try assumption;
    unfold r; rewrite Hr; rewrite ?Hm in *.
  - repeat split; auto.
    apply number_or_truthy; [|assumption].
    apply ltb_not_eqb. now apply (ltb_leb_trans zero lo x).
  - repeat split; auto using Ordering.leb_refl.
    + intros Hlo _. symmetry.
      apply Ordering.same_number; auto using Ordering.leb_not_ltb.
    + now apply number_or_truthy.
  - repeat split; auto using Ordering.leb_refl.
    + intros _ Hhi. symmetry.
      apply Ordering.same_number; auto using Ordering.leb_not_ltb.
    + now apply number_or_truthy.
  - repeat split; auto using Ordering.leb_refl.
    + intros Hlo Hhi.
      assert (x = hi)
        by (apply Ordering.same_number; auto using Ordering.leb_not_ltb).
      subst x. symmetry.
      apply Ordering.same_number; auto using Ordering.leb_not_ltb.
    + now apply number_or_truthy.
Qed.

Lemma clamp_nan lo hi x :
  is_nan x = true -> number_or (Math_max (Math_min x hi) lo) 500 = 500.
Proof.
  intros Nx. unfold Math_min, Math_max. rewrite Nx. reflexivity.
Qed.
End Clamp.

Section FactoryFacts.
Context {T Disk : Type}.
Implicit Types (w : @World T Disk).
Local Open Scope float_scope.

(** The instance a constructor call creates. *)
Lemma newVectorStore_instance parser (provider : @MemoryVectorStorageProvider T Disk)
    (opts : MemoryVectorStoreOptions (option string)) w :
  exists this,
    getThis (fst (newVectorStore parser provider opts w))
            (snd (newVectorStore parser provider opts w)) = Normal this /\
    vectorParser this = parser /\ storageProvider this = provider /\
    options this =
      {| autoSave := autoSave opts; debug := debug opts;
         maxFileSizeMB := maxFileSizeMB opts;
         storagePath := default "default" (storagePath opts) |}.
Proof.
  unfold newVectorStore, newLocker, lock, newPromise, initializeStore.
  cbn -[default load]. set (path := default "default" (storagePath opts)).
  assert (Hlast : forall (l : list (@VectorStore T Disk)) x,
            (l ++ [x]) !! length l = Some x)
    by (intros l x; rewrite lookup_app_r, Nat.sub_diag by lia; reflexivity).
  destruct (globalCache w !! path) as [c0|]; cbn -[load].
  - eexists. unfold getThis. cbn. rewrite Hlast. repeat split.
  - set (opts' := {| autoSave := autoSave opts; debug := debug opts;
                     maxFileSizeMB := maxFileSizeMB opts; storagePath := path |}).
    set (w2 := unLock _ _).
    destruct (load provider opts' w2) as [m w3]. cbn.
    eexists. unfold getThis. cbn. rewrite Hlast. repeat split.
Qed.

(** X22: the limit of the Node.js factory.  A requested [maxFileSizeMB]
    that is a number ends up between 1 and 1000, unchanged when it was in
    that range, and the save task then uses exactly that many mebibytes.
    When it is [NaN] or [undefined] the clamping lets it through and the
    save task falls back to 500.  Without options the instance saves
    automatically, to the default path, with a limit of 500; a
    [storagePath] passed as [undefined] becomes 'default'. *)
Theorem memoryVectorStore_clamps_the_size_limit defaultStoragePath
    (NodeStorageProvider : @MemoryVectorStorageProvider T Disk) vectorParser given w :
  let created := memoryVectorStore defaultStoragePath NodeStorageProvider vectorParser given w in
  let requested := numberOf (spread 500 (given_maxFileSizeMB (default noOptions given))) in
  exists this,
    getThis (fst created) (snd created) = Normal this /\
    (is_nan requested = false ->
     (1 <=? maxFileSizeMB (options this)) = true /\
     (maxFileSizeMB (options this) <=? 1000) = true /\
     ((1 <=? requested) = true -> (requested <=? 1000) = true ->
      maxFileSizeMB (options this) = requested) /\
     maxSizeBytes (options this) = maxFileSizeMB (options this) * 1024 * 1024) /\
    (is_nan requested = true -> maxSizeBytes (options this) = 500 * 1024 * 1024) /\
    (given = None ->
     autoSave (options this) = true /\ maxFileSizeMB (options this) = 500 /\
     storagePath (options this) = defaultStoragePath) /\
    (forall o, given = Some o -> given_storagePath o = Present None ->
     storagePath (options this) = "default").
Proof.
  intros created requested. unfold created, memoryVectorStore.
  match goal with
  | |- context [newVectorStore ?p ?s ?o w] =>
      destruct (newVectorStore_instance p s o w) as (this & Hthis & _ & _ & Hopts)
  end.
  exists this. split; [exact Hthis|]. rewrite Hopts. cbn [maxFileSizeMB autoSave storagePath].
  fold requested. split; [|split; [|split]].
  - intros Nx.
    destruct (Clamp.clamp 1 1000 requested eq_refl eq_refl Nx) as (H1 & H2 & H3 & H4).
    repeat split; auto. unfold maxSizeBytes. cbn [maxFileSizeMB]. now rewrite H4.
  - intros Nx. unfold maxSizeBytes. cbn [maxFileSizeMB]. now rewrite Clamp.clamp_nan.
  - intros ->. repeat split.
  - intros o -> Ho. cbn. now rewrite Ho.
Qed.

(** X23: the limit of the browser factory.  A requested [maxFileSizeMB]
    that is a number ends up between 0.1 and 3, unchanged when it was in
    that range, and the save task uses exactly that many mebibytes.  When
    it is [NaN] or [undefined] the clamping lets it through and the save
    task falls back to 500 mebibytes, above the 3 the factory allows
    otherwise.  Without options the instance saves automatically under
    the key 'memory-vector-store' with a limit of 3. *)
Theorem browserMemoryVectorStore_clamps_the_size_limit
    (BrowserStorageProvider : @MemoryVectorStorageProvider T Disk) vectorParser given w :
  let created := browserMemoryVectorStore BrowserStorageProvider vectorParser given w in
  let requested := numberOf (spread 3 (given_maxFileSizeMB (default noOptions given))) in
  exists this,
    getThis (fst created) (snd created) = Normal this /\
    (is_nan requested = false ->
     (0x1.999999999999ap-4 <=? maxFileSizeMB (options this)) = true /\
     (maxFileSizeMB (options this) <=? 3) = true /\
     ((0x1.999999999999ap-4 <=? requested) = true -> (requested <=? 3) = true ->
      maxFileSizeMB (options this) = requested) /\
     maxSizeBytes (options this) = maxFileSizeMB (options this) * 1024 * 1024) /\
    (is_nan requested = true -> maxSizeBytes (options this) = 500 * 1024 * 1024) /\
    (given = None ->
     autoSave (options this) = true /\ maxFileSizeMB (options this) = 3 /\
     storagePath (options this) = "memory-vector-store").
Proof.
  intros created requested. unfold created, browserMemoryVectorStore.
  match goal with
  | |- context [newVectorStore ?p ?s ?o w] =>
      destruct (newVectorStore_instance p s o w) as (this & Hthis & _ & _ & Hopts)
  end.
  exists this. split; [exact Hthis|]. rewrite Hopts. cbn [maxFileSizeMB autoSave storagePath].
  fold requested. split; [|split].
  - intros Nx.
    destruct (Clamp.clamp 0x1.999999999999ap-4 3 requested eq_refl eq_refl Nx)
      as (H1 & H2 & H3 & H4).
    repeat split; auto. unfold maxSizeBytes. cbn [maxFileSizeMB]. now rewrite H4.
  - intros Nx. unfold maxSizeBytes. cbn [maxFileSizeMB]. now rewrite Clamp.clamp_nan.
  - intros ->. repeat split.
Qed.
End FactoryFacts.

Section StorageProviderFacts.
Context {T : Type}.
Variable JSON_stringify : list (@MemoryVectorDataSerialize T) -> Completion string.
Variable JSON_parse : string -> Completion (list (@MemoryVectorDataSerialize T)).

Lemma truthy_nonempty s : s <> "" -> truthy s = true.
Proof.
  intros H. unfold truthy. now destruct (String.eqb_spec s "").
Qed.

(** X24: the browser provider reads back what it wrote.  After [save(key,
    vectors)] has returned, [exists(key)] is true, [load(key)] parses the
    very text [JSON.stringify] produced, and the other items are as they
    were.  A key without an item does not exist and loads as the empty
    array, without a call of [JSON.parse]; a [save] that throws leaves the
    items as they were. *)
Theorem BrowserStorageProvider_reads_back_what_it_wrote hasRoomFor key vectors text area :
  let provider := BrowserStorageProvider JSON_stringify JSON_parse hasRoomFor in
  JSON_stringify vectors = Normal text ->
  text <> "" ->
  (forall area',
     provider_save provider key vectors area = (Normal tt, area') ->
     provider_exists provider key area' = Normal true /\
     provider_load provider key area' = JSON_parse text /\
     (forall other, other <> key ->
        provider_exists provider other area' = provider_exists provider other area /\
        provider_load provider other area' = provider_load provider other area)) /\
  (getItem key area = None ->
   provider_exists provider key area = Normal false /\
   provider_load provider key area = Normal []) /\
  (forall e area', provider_save provider key vectors area = (Throw e, area') -> area' = area).
Proof.
  intros provider Htext Hne. split; [|split].
  - intros area' Hsave. unfold provider in *. simpl in *.
    rewrite Htext in Hsave. unfold setItem in Hsave.
    destruct (hasRoomFor area key text); [|discriminate].
    injection Hsave as <-. unfold getItem. rewrite (lookup_insert_eq area key text).
    rewrite truthy_nonempty by assumption.
    repeat split; intros; now rewrite (lookup_insert_ne area key other text) by congruence.
  - intros Hnone. unfold provider. simpl. now rewrite Hnone.
  - intros e area' Hsave. unfold provider in *. simpl in *.
    rewrite Htext in Hsave. unfold setItem in Hsave.
    destruct (hasRoomFor area key text); [discriminate|]. now injection Hsave as _ <-.
Qed.

(** X25: the Node.js provider reads back what it wrote, on a file system
    where a written file exists and reads as written.  After [save(key,
    vectors)] has returned, [exists(key)] is true and [load(key)] parses
    the very text [JSON.stringify] produced; the directory of the file is
    created only when it does not exist.  A file that does not exist
    loads as the empty array without being read. *)
Theorem NodeStorageProvider_reads_back_what_it_wrote
    {Fs : Type} (fs : FileSystem Fs) key vectors text disk :
  let provider := NodeStorageProvider JSON_stringify JSON_parse fs in
  writesAreRead fs ->
  JSON_stringify vectors = Normal text ->
  text <> "" ->
  (forall disk',
     provider_save provider key vectors disk = (Normal tt, disk') ->
     provider_exists provider key disk' = Normal true /\
     provider_load provider key disk' = JSON_parse text /\
     (existsSync fs (dirname fs key) disk = true ->
      writeFileSync fs key text disk = (Normal tt, disk'))) /\
  (existsSync fs key disk = false ->
   provider_exists provider key disk = Normal false /\
   provider_load provider key disk = Normal []).
Proof.
  intros provider Hfs Htext Hne. split.
  - intros disk' Hsave. unfold provider in *. simpl in *.
    destruct (existsSync fs (dirname fs key) disk) eqn:Hdir; simpl in Hsave.
    + rewrite Htext in Hsave.
      destruct (Hfs _ _ _ _ Hsave) as [Hex Hrd].
      rewrite Hex, Hrd. simpl. rewrite truthy_nonempty by assumption. auto.
    + destruct (mkdirSync fs (dirname fs key) disk) as [[[]|e] disk1]; simpl in Hsave;
        [|discriminate].
      rewrite Htext in Hsave.
      destruct (Hfs _ _ _ _ Hsave) as [Hex Hrd].
      rewrite Hex, Hrd. simpl. rewrite truthy_nonempty by assumption.
      repeat split. discriminate.
  - intros Hnone. unfold provider. simpl. now rewrite Hnone.
Qed.
End StorageProviderFacts.

Section PathFacts.
Context {T Disk : Type}.
Variable jsonByteLength : list (string * list JsPrim * option T) -> Completion N.
Implicit Types (w : @World T Disk) (this : @VectorStore T Disk) (c : @StoreCache T).

Lemma setThisCache_other this c w other :
  other <> cache this ->
  globalCache (setThisCache this c w) !! other = globalCache w !! other.
Proof. intros H. simpl. now rewrite lookup_insert_ne by congruence. Qed.

Lemma save_timers_other id w this other :
  instances w !! id = Some this ->
  other <> storagePath (options this) ->
  timers (snd (save id w)) !! other = timers w !! other.
Proof.
  intros Hid Hne. unfold save, getThis. rewrite Hid.
  destruct (thisCache this w) as [c|]; [|reflexivity].
  destruct (negb (dirty c) || negb (truthy (storagePath (options this))))%bool;
    [reflexivity|].
  cbn. rewrite insert_delete_eq. now rewrite lookup_insert_ne by congruence.
Qed.

Lemma saveTry_other this w other :
  other <> cache this ->
  globalCache (snd (saveTry jsonByteLength this w)) !! other = globalCache w !! other.
Proof.
  intros Hne. unfold saveTry. destruct (thisCache this w) as [c|]; [|reflexivity].
  destruct (jsonByteLength _) as [dataSize|]; [|reflexivity].
  destruct (exceeds dataSize _ && Nat.ltb 0 _)%bool.
  - destruct (trim jsonByteLength _ _ _) as [[kept size]|]; [|reflexivity].
    cbv zeta. destruct (provider_save _ _ _ _) as [[u|e] d];
      [destruct (thisCache this (emit _ _)) as [c2|]|];
      cbn; rewrite ?lookup_insert_ne by congruence; reflexivity.
  - cbv zeta. destruct (provider_save _ _ _ _) as [[u|e] d];
      [destruct (thisCache this (emit _ _)) as [c2|]|];
      cbn; rewrite ?lookup_insert_ne by congruence; reflexivity.
Qed.

(** X21: a call touches the shared state and the timer of its own path
    only.  In every state a run can reach, whatever is added, removed,
    cleared, saved or constructed, and whichever timer fires, the state
    registered under any other path and the timer of any other path are
    as they were. *)
Theorem calls_touch_their_own_path_only (d : Disk) calls call other :
  let w := run jsonByteLength calls (initialWorld d) in
  pathOf call w <> Some other ->
  let w' := step jsonByteLength call w in
  globalCache w' !! other = globalCache w !! other /\
  timers w' !! other = timers w !! other.
Proof.
  intros w Hpath w'.
  destruct (reachable_SchedulerInvariant jsonByteLength d calls) as (_ & _ & Htim & Hcache).
  fold w in Htim, Hcache. unfold w'. clear w'.
  assert (Hmut : forall id this (auto : bool) w1,
    instances w1 !! id = Some this -> other <> storagePath (options this) ->
    globalCache (if auto then snd (save id w1) else w1) !! other = globalCache w1 !! other /\
    timers (if auto then snd (save id w1) else w1) !! other = timers w1 !! other).
  { intros id this auto w1 Hid Hne. destruct auto; [|auto].
    rewrite save_globalCache. split; [reflexivity|].
    now apply (save_timers_other id w1 this). }
  destruct call as [parser provider opts|id document|id key|id|id|key]; simpl in *.
  - unfold newVectorStore, newLocker, lock, newPromise, initializeStore.
    cbn -[default load]. set (path := default "default" (storagePath opts)) in *.
    destruct (globalCache w !! path) as [c0|]; cbn -[load]; [auto|].
    set (opts' := {| autoSave := autoSave opts; debug := debug opts;
                     maxFileSizeMB := maxFileSizeMB opts; storagePath := path |}).
    set (w2 := unLock _ _).
    destruct (load_frame provider opts' w2) as [Hg _].
    destruct (load_scheduler provider opts' w2) as (_ & Ht & _).
    destruct (load provider opts' w2) as [m w3]. simpl in Hg, Ht. cbn.
    rewrite Hg, Ht. cbn. rewrite lookup_insert_ne by congruence. auto.
  - unfold add, getThis. destruct (instances w !! id) as [this|] eqn:Hid; [|auto].
    assert (Hne : other <> storagePath (options this)) by congruence.
    assert (Hc : other <> cache this) by (rewrite (Hcache id this Hid); congruence).
    cbv zeta. destruct (vectorParser this _) as [v|]; [|auto].
    destruct (negb (Array_isArray v)); [auto|].
    destruct (thisCache this _) as [c|]; [|auto]. cbn [snd].
    match goal with
    | |- context [if _ then snd (save id ?w1) else _] =>
        destruct (Hmut id this (autoSave (options this)) w1 Hid Hne) as [Hg Ht]
    end.
    rewrite Hg, Ht. cbn. now rewrite lookup_insert_ne by congruence.
  - unfold remove, getThis. destruct (instances w !! id) as [this|] eqn:Hid; [|auto].
    assert (Hne : other <> storagePath (options this)) by congruence.
    assert (Hc : other <> cache this) by (rewrite (Hcache id this Hid); congruence).
    destruct (thisCache this w) as [c|]; [|auto].
    destruct (negb _); cbn [snd].
    + match goal with
      | |- context [if _ then snd (save id ?w1) else _] =>
          destruct (Hmut id this (autoSave (options this)) w1 Hid Hne) as [Hg Ht]
      end.
      rewrite Hg, Ht. cbn. now rewrite !lookup_insert_ne by congruence.
    + split; [now apply setThisCache_other | reflexivity].
  - unfold clear, getThis. destruct (instances w !! id) as [this|] eqn:Hid; [|auto].
    assert (Hne : other <> storagePath (options this)) by congruence.
    assert (Hc : other <> cache this) by (rewrite (Hcache id this Hid); congruence).
    destruct (thisCache this w) as [c|]; [|auto].
    destruct (Nat.ltb _ _); cbn [snd]; [|auto].
    match goal with
    | |- context [if _ then snd (save id ?w1) else _] =>
        destruct (Hmut id this (autoSave (options this)) w1 Hid Hne) as [Hg Ht]
    end.
    rewrite Hg, Ht. cbn. now rewrite !lookup_insert_ne by congruence.
  - rewrite save_globalCache. split; [reflexivity|].
    destruct (instances w !! id) as [this|] eqn:Hid.
    + apply (save_timers_other id w this); congruence.
    + unfold save, getThis. now rewrite Hid.
  - assert (Hne : other <> key) by congruence.
    unfold fireTimer. destruct (timers w !! key) as [id|] eqn:Hkey; [|auto].
    destruct (Htim key id Hkey) as (this & Hid & Hp).
    unfold saveTask, getThis. cbn [instances setTimers]. rewrite Hid.
    destruct (saveTry_scheduler jsonByteLength this (setTimers (delete key (timers w)) w))
      as (_ & Ht & _).
    split.
    + change (globalCache (unLock (saveLock this) ?x)) with (globalCache x).
      rewrite saveTry_other; [reflexivity|].
      rewrite (Hcache id this Hid). congruence.
    + change (timers (unLock (saveLock this) ?x)) with (timers x).
      rewrite Ht. cbn. now rewrite lookup_delete_ne by congruence.
Qed.
End PathFacts.

Section SearchEdges.
Context {T Disk : Type}.
Implicit Types (w : @World T Disk) (this : @VectorStore T Disk) (c : @StoreCache T).

Lemma slice0_map {A B : Type} (f : A -> B) l k : slice0 (map f l) k = map f (slice0 l k).
Proof.
  unfold slice0. rewrite List.length_map. apply List.firstn_map.
Qed.

Lemma Array_sort_all_zero (l : list (@Scored T)) :
  Forall (fun r => score r = zero) l -> Array_sort byScore l = l.
Proof.
  induction 1 as [|x l Hx Hl IH]; simpl; [reflexivity|].
  rewrite IH. destruct Hl as [|y l Hy Hl]; [reflexivity|]. simpl.
  unfold comesAfter, byScore. now rewrite Hx, Hy.
Qed.

Lemma mapC_scoreOf_primitive (m : JsMap.t (@Embedding T)) p candidates :
  (forall d, In d candidates -> exists e, JsMap.get m (content d) = Some e) ->
  mapC (scoreOf m (JsPrimitive p)) candidates =
    match p with
    | JsUndefined | JsNull =>
        match candidates with
        | [] => Normal []
        | _ :: _ => Throw readOfUndefined
        end
    | JsBool _ | JsNumber _ =>
        Normal (map (fun d => {| item := d; score := zero |}) candidates)
    end.
Proof.
  induction candidates as [|d rest IH]; intros Hstored; [now destruct p|].
  destruct (Hstored d (or_introl eq_refl)) as [e He].
  simpl. unfold scoreOf at 1. rewrite He.
  destruct p; simpl; try reflexivity;
    rewrite IH by (intros; apply Hstored; now right); reflexivity.
Qed.

(** X9: a search does not check the query vector.  When the query is not
    stored and the embedding function returns a number or a boolean
    instead of an array, every candidate scores [0] and the candidates
    come back in the order of insertion, cut by [k]; when it returns
    [undefined] or [null], the search throws a [TypeError] if there is a
    candidate and returns no result if there is none.  The message of
    [add], 'Vector parser must return an array', is never given. *)
Theorem similaritySearch_does_not_validate_the_query_vector
    id w this c query p k filter :
  getThis id w = Normal this ->
  thisCache this w = Normal c ->
  isResolved (wait (saveLock this)) w = true ->
  JsMap.get (store c) query = None ->
  vectorParser this query = Normal (JsPrimitive p) ->
  fst (similaritySearch id query k filter w) =
    match p with
    | JsUndefined | JsNull =>
        match candidatesOf c filter with
        | [] => Settled (Normal [])
        | _ :: _ => Settled (Throw readOfUndefined)
        end
    | JsBool _ | JsNumber _ =>
        Settled (Normal (map unscored (slice0 (candidatesOf c filter) k)))
    end.
Proof.
  intros Hthis Hc Hlock Hnew Hv. unfold similaritySearch.
  rewrite Hthis, Hlock, Hc. simpl. rewrite Hnew, Hv.
  change (match filter with
          | Some f => List.filter f (map toDocument (JsMap.entries (store c)))
          | None => map toDocument (JsMap.entries (store c))
          end) with (candidatesOf c filter).
  rewrite mapC_scoreOf_primitive by apply candidates_stored.
  assert (Hzero : forall b, fst (
    (Settled (Normal (map toResult
       (slice0 (Array_sort byScore
                  (map (fun d => {| item := d; score := zero |}) (candidatesOf c filter))) k))),
     b) : Async (list (@SearchResult T)) * @World T Disk)
    = Settled (Normal (map unscored (slice0 (candidatesOf c filter) k)))).
  { intros b. simpl. rewrite Array_sort_all_zero.
    - rewrite slice0_map, List.map_map. reflexivity.
    - apply Forall_forall. intros r Hr.
      apply list_elem_of_In, in_map_iff in Hr as (x & <- & _). reflexivity. }
  destruct p as [| |b|x]; try apply Hzero;
    (destruct (candidatesOf c filter); [|reflexivity]);
    simpl; unfold slice0; now rewrite take_nil.
Qed.

(** X10: an error of the embedding function is the error of the call, and
    the call leaves nothing behind but the record of having asked: [add]
    stores nothing and schedules nothing, and a search for a text that is
    not stored fails with the same error. *)
Theorem embedding_errors_propagate id w this c text e :
  getThis id w = Normal this ->
  thisCache this w = Normal c ->
  vectorParser this text = Throw e ->
  (forall document,
     content (asDocument document) = text ->
     add id document w = (Throw e, emit (ParserCalled text) w)) /\
  (isResolved (wait (saveLock this)) w = true ->
   JsMap.get (store c) text = None ->
   forall k filter,
     similaritySearch id text k filter w = (Settled (Throw e), emit (ParserCalled text) w)).
Proof.
  intros Hthis Hc Hv. split.
  - intros document Htext. unfold add. rewrite Hthis. cbv zeta.
    now rewrite Htext, Hv.
  - intros Hlock Hnew k filter. unfold similaritySearch.
    rewrite Hthis, Hlock, Hc. simpl. now rewrite Hnew, Hv.
Qed.
End SearchEdges.

Section EndToEnd.
Context {T Disk : Type}.
Variable jsonByteLength : list (string * list JsPrim * option T) -> Completion N.
Implicit Types (w : @World T Disk) (this : @VectorStore T Disk) (c : @StoreCache T).

Lemma deserializeInto_other (data : list (@MemoryVectorDataSerialize T)) m key :
  ~ In key (map contentOf data) ->
  JsMap.get (fold_left deserializeInto data m) key = JsMap.get m key.
Proof.
  revert m. induction data as [|[[k v] md] data IH]; intros m Hnot; [reflexivity|].
  cbn [fold_left]. rewrite IH by (intros H; apply Hnot; now right).
  unfold deserializeInto. apply JsMapFacts.get_set_ne.
  intros ->. apply Hnot. now left.
Qed.

(** X26: what the constructor makes of the records it loads.  Each content
    is stored once; when the data has several records of one content, the
    store holds the vector and the metadata of the last of them; a content
    that no record has is not stored. *)
Theorem load_keeps_the_last_record_of_each_content
    (provider : @MemoryVectorStorageProvider T Disk) opts w data :
  storagePath opts <> "" ->
  provider_exists provider (storagePath opts) (disk w) = Normal true ->
  provider_load provider (storagePath opts) (disk w) = Normal data ->
  let m := fst (load provider opts w) in
  JsMap.wf m /\
  (forall l1 item l2,
     data = l1 ++ item :: l2 ->
     ~ In (contentOf item) (map contentOf l2) ->
     JsMap.get m (contentOf item) = Some (entryOf item)) /\
  (forall key, ~ In key (map contentOf data) -> JsMap.get m key = None).
Proof.
  intros Hpath Hex Hld m. split; [apply load_wf|].
  assert (Hm : m = fold_left deserializeInto data JsMap.empty).
  { unfold m, load. rewrite (truthy_nonempty _ Hpath). cbn. rewrite Hex. cbn.
    now rewrite Hld. }
  rewrite Hm. split.
  - intros l1 [[k v] md] l2 -> Hlast. rewrite fold_left_app. cbn [fold_left].
    rewrite deserializeInto_other by assumption.
    apply JsMapFacts.get_set_eq.
  - intros key Hnot. now rewrite deserializeInto_other.
Qed.

(** A process with an empty registry that constructs an instance on a
    disk where the provider finds [data]. *)
Lemma fresh_process_loads parser (provider : @MemoryVectorStorageProvider T Disk)
    (opts : MemoryVectorStoreOptions (option string)) path (d : Disk) data :
  storagePath opts = Some path -> path <> "" ->
  provider_exists provider path d = Normal true ->
  provider_load provider path d = Normal data ->
  let fresh := newVectorStore parser provider opts (initialWorld d) in
  let m := fold_left deserializeInto data JsMap.empty in
  getAll (fst fresh) (snd fresh) = Normal (map toDocument (JsMap.entries m)) /\
  count (fst fresh) (snd fresh) = Normal (JsMap.size m) /\
  globalCache (snd fresh) !! path = Some {| dirty := false; store := m |}.
Proof.
  intros Hopts Hpath Hex Hld fresh m.
  unfold fresh, newVectorStore, newLocker, lock, newPromise, initializeStore.
  cbn -[default load]. rewrite Hopts. cbn -[load]. rewrite lookup_empty.
  unfold load. cbn. rewrite (truthy_nonempty _ Hpath). cbn. rewrite Hex. cbn. rewrite Hld.
  unfold getAll, count, getThis, thisCache. cbn.
  rewrite lookup_insert_eq. auto.
Qed.

(** The state an auto-saving [add] leaves behind. *)
Lemma add_autosave_state id w this c document elems :
  getThis id w = Normal this ->
  thisCache this w = Normal c ->
  autoSave (options this) = true ->
  storagePath (options this) <> "" ->
  vectorParser this (content (asDocument document)) = Normal (JsArray elems) ->
  let w' := snd (add id document w) in
  instances w' !! id = Some (relock this (nextPromise w)) /\
  timers w' !! storagePath (options this) = Some id /\
  disk w' = disk w /\
  thisCache this w' =
    Normal {| dirty := true;
              store := JsMap.set (store c) (content (asDocument document))
                         {| e_metadata := metadata (asDocument document);
                            e_vector := elems |} |}.
Proof.
  intros Hthis Hc Hauto Hpath Hv w'.
  set (entry := {| e_metadata := metadata (asDocument document); e_vector := elems |}).
  set (c1 := {| dirty := true;
                store := JsMap.set (store c) (content (asDocument document)) entry |}).
  set (w0 := setThisCache this c1 (emit (ParserCalled (content (asDocument document))) w)).
  assert (Hw' : w' = snd (save id w0)).
  { unfold w', add. rewrite Hthis. cbv zeta. rewrite Hv. simpl.
    rewrite thisCache_emit, Hc, Hauto. reflexivity. }
  assert (Hsave : fst (save id w0) = Normal (LockPromise (nextPromise w))).
  { apply (save_dirty id w0 this c1); auto.
    apply thisCache_setThisCache. reflexivity. }
  destruct (save_real id w0 _ Hsave)
    as (x & _ & Hx & _ & _ & _ & _ & Hi & Ht & _ & _ & Hg).
  apply getThis_lookup in Hthis.
  assert (x = this) as -> by (simpl in Hx; congruence). clear Hx.
  rewrite <- Hw' in Hi, Ht, Hg. simpl in Hi, Ht.
  split; [rewrite Hi; apply list_lookup_insert_eq; eapply lookup_lt_Some, Hthis|].
  split; [rewrite Ht; apply lookup_insert_eq|].
  split; [rewrite Hw', save_disk; reflexivity|].
  unfold thisCache. rewrite Hg. simpl. now rewrite lookup_insert_eq.
Qed.

(** X27: with [autoSave], what is added reaches the storage.  On an
    instance with [autoSave], a path and a provider that reads back what it
    wrote, let a document be added and the timer of the path fire.  If the
    state is clean afterwards, a process with an empty registry that
    constructs an instance for the path finds exactly the documents of
    [getAll()], in the same order: the documents as they were after the
    [add], less those the size limit evicted from the front. *)
Theorem autosaved_add_reaches_the_storage
    (d : Disk) calls id this document elems c2 parser
    (opts : MemoryVectorStoreOptions (option string)) :
  let w := run jsonByteLength calls (initialWorld d) in
  getThis id w = Normal this ->
  autoSave (options this) = true ->
  storagePath (options this) <> "" ->
  vectorParser this (content (asDocument document)) = Normal (JsArray elems) ->
  readsBackWhatItWrote (storageProvider this) ->
  storagePath opts = Some (storagePath (options this)) ->
  let w1 := snd (add id document w) in
  let w2 := fireTimer jsonByteLength (storagePath (options this)) w1 in
  thisCache this w2 = Normal c2 ->
  dirty c2 = false ->
  let fresh := newVectorStore parser (storageProvider this) opts (initialWorld (disk w2)) in
  getAll (fst fresh) (snd fresh) = getAll id w2 /\
  exists docs k,
    getAll id w1 = Normal docs /\ In (asDocument document) docs /\
    getAll id w2 = Normal (drop k docs).
Proof.
  intros w Hthis Hauto Hpath Hv Hback Hopts w1 w2 Hc2 Hd2 fresh.
  destruct (reachable_states_are_well_formed jsonByteLength d calls) as [Hatt Hwf].
  fold w in Hatt, Hwf.
  pose proof Hthis as Hid. apply getThis_lookup in Hid.
  destruct (Hatt id this Hid) as [c Hreg].
  assert (Hc : thisCache this w = Normal c) by (unfold thisCache; now rewrite Hreg).
  destruct (add_autosave_state id w this c document elems Hthis Hc Hauto Hpath Hv)
    as (Hown & Htimer & Hdisk1 & Hc1).
  fold w1 in Hown, Htimer, Hdisk1, Hc1.
  set (entry := {| e_metadata := metadata (asDocument document); e_vector := elems |}) in *.
  set (c1 := {| dirty := true;
                store := JsMap.set (store c) (content (asDocument document)) entry |}) in *.
  assert (Hwf1 : JsMap.wf (store c1)) by (apply JsMapFacts.wf_set; eapply Hwf, Hreg).
  set (this1 := relock this (nextPromise w)) in *.
  set (w1' := setTimers (delete (storagePath (options this)) (timers w1)) w1).
  assert (Hw2 : w2 = saveTask jsonByteLength id w1').
  { unfold w2, fireTimer. now rewrite Htimer. }
  assert (Hthis1 : getThis id w1' = Normal this1) by (now apply getThis_lookup).
  assert (Hc1' : thisCache this1 w1' = Normal c1) by exact Hc1.
  assert (Hc2' : thisCache this1 (saveTask jsonByteLength id w1') = Normal c2)
    by (rewrite <- Hw2; exact Hc2).
  destruct (saveTask_written jsonByteLength id w1' this1 c1 c2 Hthis1 Hc1' Hwf1 eq_refl
              Hc2' Hd2) as [[k Hk] Hps].
  rewrite <- Hw2 in Hps. destruct (Hback _ _ _ _ Hps) as [Hex Hld].
  assert (Hwf2 : JsMap.wf (store c2)) by (rewrite Hk; now apply wf_drop).
  destruct (fresh_process_loads parser (storageProvider this) opts
              (storagePath (options this)) (disk w2) _ Hopts Hpath Hex Hld)
    as (Hall & _).
  fold fresh in Hall.
  assert (Hload : fold_left deserializeInto (map serializeItem (JsMap.entries (store c2)))
                    JsMap.empty = store c2).
  { unfold JsMap.entries. rewrite rebuild_app; [reflexivity | assumption | intros key _ []]. }
  rewrite Hload in Hall.
  assert (Hev1 : evolves w w1) by apply evolves_add.
  assert (Hinst2 : instances w2 = instances w1).
  { destruct (fireTimer_resolves jsonByteLength (storagePath (options this)) id this1 w1
                Htimer Hown) as (_ & Hi & _). exact Hi. }
  assert (Hall1 : getAll id w1 = Normal (map toDocument (JsMap.entries (store c1))))
    by (apply (reads_after id w w1 this c1 Hthis Hev1 Hc1)).
  assert (Hall2 : getAll id w2 = Normal (map toDocument (JsMap.entries (store c2)))).
  { unfold getAll, getThis. rewrite Hinst2, Hown. simpl.
    change (thisCache this1 w2) with (thisCache this w2). now rewrite Hc2. }
  split; [now rewrite Hall, Hall2|].
  exists (map toDocument (JsMap.entries (store c1))), k.
  split; [exact Hall1|]. split.
  - apply in_map_iff. exists (content (asDocument document), entry). split.
    + now apply toDocument_asDocument.
    + unfold JsMap.entries, c1. cbn [store].
      clear. induction (store c) as [|[k0 e0] m IH]; simpl.
      * now left.
      * destruct (String.eqb_spec k0 (content (asDocument document))) as [->|Hne];
          [now left | right; exact IH].
  - rewrite Hall2, Hk. unfold JsMap.entries. cbn [store]. f_equal.
    symmetry. apply List.skipn_map.
Qed.
End EndToEnd.

Section InfiniteK.
Context {T Disk : Type}.
Implicit Types (w : @World T Disk) (this : @VectorStore T Disk) (c : @StoreCache T).

(** X28: [k] at infinity.  With [k = Infinity] a search returns what it
    returns without [k]: one result for every candidate.  With
    [k = -Infinity] it returns no result. *)
Theorem similaritySearch_with_infinite_k id w this c query qv filter :
  getThis id w = Normal this ->
  thisCache this w = Normal c ->
  isResolved (wait (saveLock this)) w = true ->
  queryResolvesTo this c query qv ->
  similaritySearch id query (Some infinity) filter w =
    similaritySearch id query None filter w /\
  (exists results,
     fst (similaritySearch id query (Some infinity) filter w) = Settled (Normal results) /\
     length results = length (candidatesOf c filter)) /\
  fst (similaritySearch id query (Some neg_infinity) filter w) = Settled (Normal []).
Proof.
  intros Hthis Hc Hlock Hq.
  assert (Hpos : forall A (l : list A), slice0 l (Some infinity) = slice0 l None)
    by reflexivity.
  assert (Hneg : forall A (l : list A), slice0 l (Some neg_infinity) = [])
    by reflexivity.
  split; [|split].
  - unfold similaritySearch. rewrite Hthis, Hlock, Hc. simpl.
    destruct (JsMap.get (store c) query) as [e|].
    + destruct (mapC _ _); [|reflexivity]. now rewrite Hpos.
    + destruct (vectorParser this query) as [v|]; [|reflexivity].
      destruct (mapC _ _); [|reflexivity]. now rewrite Hpos.
  - destruct (similaritySearch_settles id w this c query qv (Some infinity) filter
                Hthis Hc Hlock Hq) as (scored & _ & Hitems & _ & Hres).
    eexists. split; [exact Hres|].
    rewrite Hpos, slice0_undefined, List.length_map, Array_sort_length by assumption.
    rewrite <- Hitems. now rewrite List.length_map.
  - destruct (similaritySearch_settles id w this c query qv (Some neg_infinity) filter
                Hthis Hc Hlock Hq) as (scored & _ & _ & _ & Hres).
    rewrite Hres. now rewrite Hneg.
Qed.
End InfiniteK.

(** * Concrete runs

    The statements above, applied to the configuration of [Example], and the
    runs on which the specification and the code part ways. *)
Import Example.
Local Open Scope float_scope.

Lemma similaritySearch_returns_sorted_slice_witness :
  getThis 0 world3 = Normal first /\
  thisCache first world3 = Normal state3 /\
  isResolved (wait (saveLock first)) world3 = true /\
  queryResolvesTo first state3 "a" [JsNumber 1; JsNumber 1] /\
  ToIntegerOrInfinity 2 = Finite 2 /\
  exists ranking results,
    fst (similaritySearch 0 "a" None None world3) = Settled (Normal ranking) /\
    fst (similaritySearch 0 "a" (Some 2) None world3) = Settled (Normal results) /\
    results = take 2 ranking /\
    length results = 2%nat /\
    StronglySorted (fun r1 r2 => descending (r_score r1) (r_score r2)) ranking.
Proof.
  assert (H1 : getThis 0 world3 = Normal first) by (vm_compute; reflexivity).
  assert (H2 : thisCache first world3 = Normal state3) by (vm_compute; reflexivity).
  assert (H3 : isResolved (wait (saveLock first)) world3 = true) by (vm_compute; reflexivity).
  assert (H4 : queryResolvesTo first state3 "a" [JsNumber 1; JsNumber 1])
    by (vm_compute; reflexivity).
  assert (H5 : ToIntegerOrInfinity 2 = Finite 2) by (vm_compute; reflexivity).
  repeat (split; [assumption|]).
  destruct (similaritySearch_returns_sorted_slice 0 world3 first state3 "a"
              [JsNumber 1; JsNumber 1] 2 2 None H1 H2 H3 H4 H5)
    as (ranking & results & Hall & Hres & _ & _ & Hsorted & Hpos & _).
  exists ranking, results. split; [exact Hall|]. split; [exact Hres|].
  destruct (Hpos ltac:(lia)) as [Htake Hlen].
  split; [exact Htake|]. split; [exact Hlen|].
  apply Hsorted. vm_compute. reflexivity.
Defined.

(** C1 as stated fails for a negative [k]: with three documents stored,
    [similaritySearch('a', -1)] returns the first two of the ranking, not an
    empty list. *)
Lemma similaritySearch_negative_k_is_not_empty :
  ToIntegerOrInfinity (-1) = Finite (-1) /\
  count 0 world3 = Normal 3%nat /\
  exists results,
    fst (similaritySearch 0 "a" (Some (-1)) None world3) = Settled (Normal results) /\
    map r_content results = ["a"; "bb"]%string.
Proof.
  split; [vm_compute; reflexivity|]. split; [vm_compute; reflexivity|].
  eexists. split; vm_compute; reflexivity.
Qed.

(** Why the order needs scores that are numbers: a stored vector shorter
    than the query vector scores [NaN], and a list with a [NaN] score is not
    in descending order however it is arranged.  Here the scores come out as
    [0.707..., NaN, 0.999...]. *)
Lemma similaritySearch_nan_score_breaks_order :
  exists results,
    fst (similaritySearch 0 "z" (Some 3) None worldMixed) = Settled (Normal results) /\
    map r_content results = ["x"; "y"; "z"]%string /\
    ~ StronglySorted (fun r1 r2 => descending (r_score r1) (r_score r2)) results.
Proof.
  eexists. split; [vm_compute; reflexivity|]. split; [reflexivity|].
  intros Hs. inversion Hs as [|? ? _ Hfirst]; subst.
  inversion Hfirst as [|? ? Hxy _]; subst.
  vm_compute in Hxy. discriminate.
Qed.

(** C2: the code has no default for [k].  With five documents stored,
    [similaritySearch('a')] returns five results, where the documentation
    (README: 'default k=4') promises at most four. *)
Theorem similaritySearch_without_k_returns_all_five :
  count 0 world5 = Normal 5%nat /\
  exists results,
    fst (similaritySearch 0 "a" None None world5) = Settled (Normal results) /\
    length results = 5%nat.
Proof.
  split; [vm_compute; reflexivity|].
  eexists. split; vm_compute; reflexivity.
Qed.

Lemma add_rejects_non_array_witness :
  getThis 0 worldBroken = Normal broken /\
  thisCache broken worldBroken = Normal stateBroken /\
  vectorParser broken "x" = Normal (JsPrimitive JsUndefined) /\
  Array_isArray (JsPrimitive JsUndefined) = false /\
  add 0 textX worldBroken =
    (Throw (JsError "Vector parser must return an array"),
     emit (ParserCalled "x") worldBroken) /\
  globalCache (snd (add 0 textX worldBroken)) = globalCache worldBroken.
Proof.
  assert (H1 : getThis 0 worldBroken = Normal broken) by (vm_compute; reflexivity).
  assert (H2 : thisCache broken worldBroken = Normal stateBroken) by (vm_compute; reflexivity).
  assert (H3 : vectorParser broken (content (asDocument textX)) =
               Normal (JsPrimitive JsUndefined)) by reflexivity.
  split; [exact H1|]. split; [exact H2|]. split; [exact H3|]. split; [reflexivity|].
  exact (proj1 (add_rejects_non_array 0 worldBroken broken stateBroken textX
                  (JsPrimitive JsUndefined) H1 H2 H3) eq_refl).
Defined.

(** C3 as stated fails for an array that holds something else than
    numbers: the embedding function returns [[true, null]], [add] completes
    normally and the map has the new entry. *)
Lemma add_accepts_array_without_numbers :
  sloppyParser "x" = Normal (JsArray [JsBool true; JsNull]) /\
  isNumberArray (JsArray [JsBool true; JsNull]) = false /\
  count 0 worldSloppy = Normal 0%nat /\
  fst (add 0 textX worldSloppy) =
    Normal {| document := doc "x" None; vector := JsArray [JsBool true; JsNull] |} /\
  count 0 (snd (add 0 textX worldSloppy)) = Normal 1%nat /\
  dirty (sharedState "sloppy.json" (snd (add 0 textX worldSloppy))) = true.
Proof. repeat split; vm_compute; reflexivity. Qed.

Lemma save_task_evicts_oldest_until_fit_witness :
  getThis 0 worldTiny = Normal tiny /\
  thisCache tiny worldTiny = Normal stateTiny /\
  JsMap.wf (store stateTiny) /\
  PrimFloat.eqb (maxFileSizeMB (options tiny)) zero = false /\
  is_nan (maxFileSizeMB (options tiny)) = false /\
  (forall k, exists size,
      byteLength (drop k (map serializeItem (JsMap.entries (store stateTiny)))) =
      Normal size) /\
  exists k,
    (k <= 3)%nat /\
    trace (saveTask byteLength 0 worldTiny) =
      trace worldTiny ++
      [ProviderSave "tiny.json"
         (drop k (map serializeItem (JsMap.entries (store stateTiny))))].
Proof.
  assert (H1 : getThis 0 worldTiny = Normal tiny) by (vm_compute; reflexivity).
  assert (H2 : thisCache tiny worldTiny = Normal stateTiny) by (vm_compute; reflexivity).
  assert (H3 : JsMap.wf (store stateTiny)).
  { unfold JsMap.wf. apply (bool_decide_unpack _). vm_compute. exact I. }
  assert (H4 : PrimFloat.eqb (maxFileSizeMB (options tiny)) zero = false)
    by (vm_compute; reflexivity).
  assert (H5 : is_nan (maxFileSizeMB (options tiny)) = false) by (vm_compute; reflexivity).
  assert (H6 : forall k, exists size,
      byteLength (drop k (map serializeItem (JsMap.entries (store stateTiny)))) =
      Normal size) by (intros k; eexists; reflexivity).
  repeat (split; [assumption|]).
  destruct (save_task_evicts_oldest_until_fit byteLength 0 worldTiny tiny stateTiny
              H1 H2 H3 H4 H5 H6) as (k & Hk & _ & _ & _ & Htrace).
  exists k. split; [exact Hk | exact Htrace].
Defined.

Lemma add_existing_overwrites_witness :
  getThis 0 world3 = Normal first /\
  thisCache first world3 = Normal state3 /\
  JsMap.get (store state3) "a" =
    Some {| e_metadata := None; e_vector := [JsNumber 1; JsNumber 1] |} /\
  vectorParser first "a" = Normal (JsArray [JsNumber 1; JsNumber 1]) /\
  fst (add 0 documentA world3) =
    Normal {| document := doc "a" (Some "note"%string);
              vector := JsArray [JsNumber 1; JsNumber 1] |} /\
  count 0 (snd (add 0 documentA world3)) = count 0 world3.
Proof.
  assert (H1 : getThis 0 world3 = Normal first) by (vm_compute; reflexivity).
  assert (H2 : thisCache first world3 = Normal state3) by (vm_compute; reflexivity).
  assert (H3 : JsMap.get (store state3)
                 (content (asDocument documentA)) =
               Some {| e_metadata := None; e_vector := [JsNumber 1; JsNumber 1] |})
    by (vm_compute; reflexivity).
  assert (H4 : vectorParser first
                 (content (asDocument documentA)) =
               Normal (JsArray [JsNumber 1; JsNumber 1])) by (vm_compute; reflexivity).
  repeat (split; [assumption|]).
  destruct (add_existing_overwrites 0 world3 first state3
              documentA _ _ H1 H2 H3 H4)
    as (Hres & c' & _ & _ & _ & _ & Hcount).
  split; [exact Hres | exact Hcount].
Defined.

Lemma cosineSimilarity_same_length_or_zero_witness :
  length [3; 4] = length [3; 4] /\
  cosineSimilarity (JsArray (numbers [3; 4])) (numbers [3; 4]) =
    Normal (Spec.cosine [3; 4] [3; 4]) /\
  Spec.allZero [zero; neg_zero] /\
  cosineSimilarity (JsArray (numbers [zero; neg_zero])) (numbers [5]) = Normal zero.
Proof.
  split; [reflexivity|]. split.
  - exact (proj1 (cosineSimilarity_same_length_or_zero [3; 4] [3; 4]) eq_refl).
  - assert (Hz : Spec.allZero [zero; neg_zero]) by (repeat constructor).
    split; [exact Hz|].
    exact (proj2 (cosineSimilarity_same_length_or_zero [zero; neg_zero] [5]) (or_introl Hz)).
Defined.

(** C6 as stated fails when the stored vector is shorter than the query
    vector: against the empty vector, whose norm is zero, the query [[1]]
    scores [NaN], not [0]. *)
Lemma cosineSimilarity_of_empty_candidate_is_nan :
  Spec.allZero [] /\
  cosineSimilarity (JsArray (numbers [one])) (numbers []) = Normal nan /\
  is_nan nan = true.
Proof. split; [constructor|]. split; vm_compute; reflexivity. Qed.

Lemma second_instance_shares_state_witness :
  default "default"%string (storagePath (optionsFor "vectors.json" true 1)) =
    "vectors.json"%string /\
  globalCache world3 !! "vectors.json"%string = Some state3 /\
  getThis 0 world3 = Normal first /\
  cache first = "vectors.json"%string /\
  trace world3' = trace world3 /\
  globalCache world3' = globalCache world3 /\
  (forall calls,
     count 1 (run byteLength calls world3') = count 0 (run byteLength calls world3') /\
     getAll 1 (run byteLength calls world3') = getAll 0 (run byteLength calls world3')) /\
  (exists docs ranking,
     getAll 1 worldSharedAdd = Normal docs /\
     In (doc "x" None) docs /\
     fst (similaritySearch 0 "x" None None worldSharedAdd) = Settled (Normal ranking) /\
     Permutation (map (fun r => (r_content r, r_metadata r)) ranking)
                 (map (fun d => (content d, metadata d)) docs)) /\
  (forall query k filter,
     fst (similaritySearch 1 query k filter worldSharedAdd) = Suspended).
Proof.
  assert (H1 : default "default"%string (storagePath (optionsFor "vectors.json" true 1)) =
               "vectors.json"%string) by reflexivity.
  assert (H2 : globalCache world3 !! "vectors.json"%string = Some state3)
    by (vm_compute; reflexivity).
  assert (H3 : getThis 0 world3 = Normal first) by (vm_compute; reflexivity).
  assert (H4 : cache first = "vectors.json"%string) by reflexivity.
  repeat (split; [assumption|]).
  destruct (second_instance_shares_state byteLength raggedParser memoryProvider
              (optionsFor "vectors.json" true 1) world3 "vectors.json" state3 0 first
              H1 H2 H3 H4) as (Htrace & _ & Hglobal & _ & Hshared).
  split; [exact Htrace|]. split; [exact Hglobal|]. split; [|split].
  - intros calls.
    destruct (Hshared calls) as (a & b & c & _ & _ & _ & _ & Hc0 & Hc1 & Ha0 & Ha1 & _).
    split; [exact (eq_trans Hc1 (eq_sym Hc0)) | exact (eq_trans Ha1 (eq_sym Ha0))].
  - destruct (Hshared [CallAdd 1 textX])
      as (a & b & c & Hga & _ & Hta & _ & _ & _ & _ & Hall & Hsearch & _).
    assert (Hfirst : getThis 0 worldSharedAdd = Normal first) by reflexivity.
    pose proof (eq_trans (eq_sym Hga) Hfirst) as Ea. injection Ea as ->.
    assert (Hstate : exists c0,
              thisCache first worldSharedAdd = Normal c0 /\
              queryResolvesTo first c0 "x" [JsNumber 1] /\
              In (doc "x" None) (map toDocument (JsMap.entries (store c0))))
      by (eexists; split; [reflexivity|]; split; [reflexivity|]; do 3 right; now left).
    destruct Hstate as (c0 & Hc0 & Hq & Hin).
    pose proof (eq_trans (eq_sym Hta) Hc0) as Ec. injection Ec as ->.
    destruct (proj2 (Hsearch 0%nat first (or_introl (conj eq_refl eq_refl)) "x"%string None)
                eq_refl [JsNumber 1] Hq) as (ranking & Hres & Hperm & _).
    exists (map toDocument (JsMap.entries (store c0))), ranking.
    split; [exact Hall|]. split; [exact Hin|]. split; [exact Hres | exact Hperm].
  - intros query k filter.
    destruct (Hshared [CallAdd 1 textX])
      as (a & b & c & _ & Hgb & _ & _ & _ & _ & _ & _ & Hsearch & _).
    assert (Hsecond : exists b0,
              getThis 1 worldSharedAdd = Normal b0 /\
              isResolved (wait (saveLock b0)) worldSharedAdd = false)
      by (eexists; split; reflexivity).
    destruct Hsecond as (b0 & Hb0 & Hwait).
    pose proof (eq_trans (eq_sym Hgb) Hb0) as Eb. injection Eb as ->.
    exact (proj1 (Hsearch 1%nat b0 (or_intror (conj eq_refl eq_refl)) query filter) Hwait k).
Defined.

(** C7 as stated fails for [similaritySearch].  Two auto-saving instances
    share a path; each adds a document before the timer fires, so the
    timer runs the task of the second and releases its lock only.  What
    the second instance adds afterwards shows in [getAll()] and [count()]
    of the first, but a search through the first does not answer: it
    waits on a promise that no timer is left to resolve, and that no
    later call or timer resolves. *)
Lemma mutation_never_reaches_the_search_of_a_waiting_instance :
  getThis 0 worldStuck = Normal (relock auto 2) /\
  getAll 1 worldStuck = Normal [doc "a" None; doc "bb" None; doc "x" None] /\
  getAll 0 worldStuck = Normal [doc "a" None; doc "bb" None; doc "x" None] /\
  count 0 worldStuck = Normal 3%nat /\
  (exists results,
     fst (similaritySearch 1 "x" None None worldStuck) = Settled (Normal results) /\
     map r_content results = ["a"; "x"; "bb"]%string) /\
  timers worldStuck = ∅ /\
  (forall query k filter,
     fst (similaritySearch 0 query k filter worldStuck) = Suspended) /\
  (forall later, isResolved 2 (run byteLength later worldStuck) = false).
Proof.
  assert (Htimers : timers worldStuck = ∅) by reflexivity.
  split; [reflexivity|]. split; [reflexivity|]. split; [reflexivity|].
  split; [reflexivity|].
  split; [eexists; split; vm_compute; reflexivity|].
  split; [exact Htimers|]. split; [intros query k filter; reflexivity|].
  intros later. apply abandoned_pending, run_abandoned.
  split; [apply Nat.ltb_lt; reflexivity|]. split.
  - apply (bool_decide_eq_false_1 (2%nat ∈ resolved worldStuck)). reflexivity.
  - intros key j this Hj. rewrite Htimers, lookup_empty in Hj. discriminate.
Qed.

Lemma save_noop_when_clean_or_pathless_witness :
  getThis 0 world1 = Normal first /\
  thisCache first world1 = Normal state1 /\
  dirty state1 = false /\
  save 0 world1 = (Normal ResolvedNow, world1).
Proof.
  assert (H1 : getThis 0 world1 = Normal first) by (vm_compute; reflexivity).
  assert (H2 : thisCache first world1 = Normal state1) by (vm_compute; reflexivity).
  assert (H3 : dirty state1 = false) by reflexivity.
  repeat (split; [assumption|]).
  exact (save_noop_when_clean_or_pathless 0 world1 first state1 H1 H2 (or_introl H3)).
Defined.

Lemma remove_clear_getAll_count_never_throw_witness :
  getThis 0 world3 = Normal first /\
  thisCache first world3 = Normal state3 /\
  fst (remove 0 "zz" world3) = Normal tt /\
  fst (clear 0 world3) = Normal tt /\
  count 0 world3 = Normal 3%nat /\
  remove 0 "zz" world3 = (Normal tt, world3).
Proof.
  assert (H1 : getThis 0 world3 = Normal first) by (vm_compute; reflexivity).
  assert (H2 : thisCache first world3 = Normal state3) by (vm_compute; reflexivity).
  repeat (split; [assumption|]).
  destruct (remove_clear_getAll_count_never_throw 0 world3 first state3 "zz" H1 H2)
    as (Hremove & Hclear & _ & Hcount & Habsent & _).
  split; [exact Hremove|]. split; [exact Hclear|]. split; [exact Hcount|].
  apply Habsent. reflexivity.
Defined.

Lemma add_always_calls_parser_once_witness :
  getThis 0 world3 = Normal first /\
  thisCache first world3 = Normal state3 /\
  JsMap.has (store state3) "bb" = true /\
  trace (snd (add 0 textBB world3)) = trace world3 ++ [ParserCalled "bb"].
Proof.
  assert (H1 : getThis 0 world3 = Normal first) by (vm_compute; reflexivity).
  assert (H2 : thisCache first world3 = Normal state3) by (vm_compute; reflexivity).
  split; [exact H1|]. split; [exact H2|]. split; [reflexivity|].
  exact (proj1 (add_always_calls_parser_once 0 world3 first state3 textBB H1 H2)).
Defined.

(** ** Runs for the further properties *)

Lemma reachable_instances_always_answer_witness :
  instances (run byteLength (runDirty ++ [CallAdd 0 (inl "bb")]) (initialWorld JsMap.empty))
    !! 0%nat = Some first /\
  exists docs,
    getAll 0 (run byteLength (runDirty ++ [CallAdd 0 (inl "bb")]) (initialWorld JsMap.empty))
      = Normal docs /\
    count 0 (run byteLength (runDirty ++ [CallAdd 0 (inl "bb")]) (initialWorld JsMap.empty))
      = Normal (length docs) /\
    NoDup (map content docs).
Proof.
  assert (H1 : instances
                 (run byteLength (runDirty ++ [CallAdd 0 (inl "bb")]) (initialWorld JsMap.empty))
                 !! 0%nat = Some first) by reflexivity.
  split; [exact H1|].
  exact (reachable_instances_always_answer byteLength JsMap.empty
           (runDirty ++ [CallAdd 0 (inl "bb")]) 0 first H1).
Defined.

Lemma add_new_content_appends_witness :
  getThis 0 world3 = Normal first /\
  thisCache first world3 = Normal state3 /\
  JsMap.get (store state3) "x" = None /\
  vectorParser first "x" = Normal (JsArray [JsNumber 1; JsNumber 1]) /\
  exists docs,
    getAll 0 world3 = Normal docs /\
    getAll 0 (snd (add 0 textX world3)) = Normal (docs ++ [doc "x" None]) /\
    count 0 (snd (add 0 textX world3)) = Normal (S (length docs)).
Proof.
  assert (H1 : getThis 0 world3 = Normal first) by reflexivity.
  assert (H2 : thisCache first world3 = Normal state3) by reflexivity.
  assert (H3 : JsMap.get (store state3) (content (asDocument textX)) = None)
    by reflexivity.
  assert (H4 : vectorParser first (content (asDocument textX)) =
               Normal (JsArray [JsNumber 1; JsNumber 1])) by reflexivity.
  repeat (split; [assumption|]).
  exact (add_new_content_appends 0 world3 first state3 textX _ H1 H2 H3 H4).
Defined.

Lemma state3_wf : JsMap.wf (store state3).
Proof. unfold JsMap.wf. apply (bool_decide_unpack _). vm_compute. exact I. Qed.

Lemma remove_deletes_exactly_that_content_witness :
  getThis 0 world3 = Normal first /\
  thisCache first world3 = Normal state3 /\
  JsMap.wf (store state3) /\
  exists docs,
    getAll 0 world3 = Normal docs /\
    getAll 0 (snd (remove 0 "bb" world3)) =
      Normal (List.filter (fun d => negb (String.eqb (content d) "bb")) docs).
Proof.
  assert (H1 : getThis 0 world3 = Normal first) by reflexivity.
  assert (H2 : thisCache first world3 = Normal state3) by reflexivity.
  pose proof state3_wf as H3.
  repeat (split; [assumption|]).
  destruct (remove_deletes_exactly_that_content 0 world3 first state3 "bb" H1 H2 H3)
    as (c' & docs & _ & _ & _ & Hall & Hall' & _).
  exists docs. split; [exact Hall | exact Hall'].
Defined.

Lemma add_then_remove_restores_the_store_witness :
  getThis 0 world3 = Normal first /\
  thisCache first world3 = Normal state3 /\
  JsMap.get (store state3) "x" = None /\
  vectorParser first "x" = Normal (JsArray [JsNumber 1; JsNumber 1]) /\
  getAll 0 (snd (remove 0 "x" (snd (add 0 textX world3)))) = getAll 0 world3.
Proof.
  assert (H1 : getThis 0 world3 = Normal first) by reflexivity.
  assert (H2 : thisCache first world3 = Normal state3) by reflexivity.
  assert (H3 : JsMap.get (store state3) (content (asDocument textX)) = None)
    by reflexivity.
  assert (H4 : vectorParser first (content (asDocument textX)) =
               Normal (JsArray [JsNumber 1; JsNumber 1])) by reflexivity.
  repeat (split; [assumption|]).
  exact (proj1 (proj2 (add_then_remove_restores_the_store 0 world3 first state3 textX _
                         H1 H2 H3 H4))).
Defined.

Lemma clear_empties_the_store_witness :
  getThis 0 world3 = Normal first /\
  thisCache first world3 = Normal state3 /\
  getAll 0 (snd (clear 0 world3)) = Normal [] /\
  count 0 (snd (clear 0 world3)) = Normal 0%nat.
Proof.
  assert (H1 : getThis 0 world3 = Normal first) by reflexivity.
  assert (H2 : thisCache first world3 = Normal state3) by reflexivity.
  repeat (split; [assumption|]).
  destruct (clear_empties_the_store 0 world3 first state3 H1 H2) as (Hall & Hcount & _).
  split; [exact Hall | exact Hcount].
Defined.

Lemma similaritySearch_only_reads_witness :
  getThis 0 world3 = Normal first /\
  thisCache first world3 = Normal state3 /\
  JsMap.has (store state3) "a" = true /\
  snd (similaritySearch 0 "a" None None world3) = world3.
Proof.
  assert (H1 : getThis 0 world3 = Normal first) by reflexivity.
  assert (H2 : thisCache first world3 = Normal state3) by reflexivity.
  assert (H3 : JsMap.has (store state3) "a" = true) by reflexivity.
  repeat (split; [assumption|]).
  destruct (similaritySearch_only_reads 0 "a" None None world3)
    as (_ & _ & _ & _ & _ & _ & Hhit).
  exact (Hhit first state3 H1 H2 H3).
Defined.

Lemma similaritySearch_results_are_distinct_candidates_witness :
  getThis 0 world3 = Normal first /\
  thisCache first world3 = Normal state3 /\
  isResolved (wait (saveLock first)) world3 = true /\
  queryResolvesTo first state3 "a" [JsNumber 1; JsNumber 1] /\
  JsMap.wf (store state3) /\
  exists results,
    fst (similaritySearch 0 "a" (Some 2) None world3) = Settled (Normal results) /\
    NoDup (map r_content results) /\
    (length results <= length (candidatesOf state3 None))%nat.
Proof.
  assert (H1 : getThis 0 world3 = Normal first) by reflexivity.
  assert (H2 : thisCache first world3 = Normal state3) by reflexivity.
  assert (H3 : isResolved (wait (saveLock first)) world3 = true) by reflexivity.
  assert (H4 : queryResolvesTo first state3 "a" [JsNumber 1; JsNumber 1]) by reflexivity.
  pose proof state3_wf as H5.
  repeat (split; [assumption|]).
  destruct (similaritySearch_results_are_distinct_candidates 0 world3 first state3 "a"
              [JsNumber 1; JsNumber 1] (Some 2) None H1 H2 H3 H4 H5)
    as (results & Hres & Hnd & Hlen & _).
  exists results. split; [exact Hres|]. split; [exact Hnd | exact Hlen].
Defined.

Lemma similaritySearch_ties_keep_insertion_order_witness :
  getThis 0 world3 = Normal first /\
  thisCache first world3 = Normal state3 /\
  isResolved (wait (saveLock first)) world3 = true /\
  queryResolvesTo first state3 "a" [JsNumber 1; JsNumber 1] /\
  scoresAreNumbers (store state3) [JsNumber 1; JsNumber 1] (candidatesOf state3 None) = true /\
  exists results,
    fst (similaritySearch 0 "a" None None world3) = Settled (Normal results) /\
    forall l1 r1 l2 r2 l3,
      results = l1 ++ r1 :: l2 ++ r2 :: l3 ->
      PrimFloat.eqb (r_score r1) (r_score r2) = true ->
      comesBefore (candidatesOf state3 None) (documentOf r1) (documentOf r2).
Proof.
  assert (H1 : getThis 0 world3 = Normal first) by reflexivity.
  assert (H2 : thisCache first world3 = Normal state3) by reflexivity.
  assert (H3 : isResolved (wait (saveLock first)) world3 = true) by reflexivity.
  assert (H4 : queryResolvesTo first state3 "a" [JsNumber 1; JsNumber 1]) by reflexivity.
  assert (H5 : scoresAreNumbers (store state3) [JsNumber 1; JsNumber 1]
                 (candidatesOf state3 None) = true) by (vm_compute; reflexivity).
  repeat (split; [assumption|]).
  exact (similaritySearch_ties_keep_insertion_order 0 world3 first state3 "a"
           [JsNumber 1; JsNumber 1] None None H1 H2 H3 H4 H5).
Defined.

Lemma similaritySearch_does_not_validate_the_query_vector_witness :
  getThis 1 world3Broken = Normal brokenSecond /\
  thisCache brokenSecond world3Broken = Normal state3 /\
  isResolved (wait (saveLock brokenSecond)) world3Broken = true /\
  JsMap.get (store state3) "zz" = None /\
  vectorParser brokenSecond "zz" = Normal (JsPrimitive JsUndefined) /\
  fst (similaritySearch 1 "zz" None None world3Broken) = Settled (Throw readOfUndefined).
Proof.
  assert (H1 : getThis 1 world3Broken = Normal brokenSecond) by reflexivity.
  assert (H2 : thisCache brokenSecond world3Broken = Normal state3) by reflexivity.
  assert (H3 : isResolved (wait (saveLock brokenSecond)) world3Broken = true) by reflexivity.
  assert (H4 : JsMap.get (store state3) "zz" = None) by reflexivity.
  assert (H5 : vectorParser brokenSecond "zz" = Normal (JsPrimitive JsUndefined))
    by reflexivity.
  repeat (split; [assumption|]).
  exact (similaritySearch_does_not_validate_the_query_vector 1 world3Broken brokenSecond
           state3 "zz" JsUndefined None None H1 H2 H3 H4 H5).
Defined.

Lemma embedding_errors_propagate_witness :
  getThis 0 worldFailing = Normal failing /\
  thisCache failing worldFailing = Normal stateFailing /\
  vectorParser failing "a" = Throw (JsError "no embedding") /\
  add 0 (inl "a") worldFailing =
    (Throw (JsError "no embedding"), emit (ParserCalled "a") worldFailing).
Proof.
  assert (H1 : getThis 0 worldFailing = Normal failing) by reflexivity.
  assert (H2 : thisCache failing worldFailing = Normal stateFailing) by reflexivity.
  assert (H3 : vectorParser failing "a" = Throw (JsError "no embedding")) by reflexivity.
  repeat (split; [assumption|]).
  exact (proj1 (embedding_errors_propagate 0 worldFailing failing stateFailing "a" _
                  H1 H2 H3) textA eq_refl).
Defined.

Lemma cosineSimilarity_is_symmetric_witness :
  length [JsNumber 3; JsBool true] = length [JsNumber 4; JsNull] /\
  cosineSimilarity (JsArray [JsNumber 3; JsBool true]) [JsNumber 4; JsNull] =
  cosineSimilarity (JsArray [JsNumber 4; JsNull]) [JsNumber 3; JsBool true].
Proof.
  split; [reflexivity|].
  exact (cosineSimilarity_is_symmetric [JsNumber 3; JsBool true] [JsNumber 4; JsNull] eq_refl).
Defined.

Lemma cosineSimilarity_of_mismatched_lengths_witness :
  (length [JsNumber 1] < length [3; 4])%nat /\
  cosineSimilarity (JsArray (numbers [3; 4])) [JsNumber 1] = Normal nan.
Proof.
  assert (H : (length [JsNumber 1] < length [3; 4])%nat) by (simpl; lia).
  split; [exact H|].
  exact (proj2 (cosineSimilarity_of_mismatched_lengths [3; 4] [JsNumber 1]) H).
Defined.

Lemma autosave_add_defers_search_witness :
  getThis 0 (run byteLength [newAuto] (initialWorld JsMap.empty)) = Normal auto /\
  autoSave (options auto) = true /\
  storagePath (options auto) <> ""%string /\
  vectorParser auto "a" = Normal (JsArray [JsNumber 1; JsNumber 1]) /\
  timers (snd (add 0 (inl "a") (run byteLength [newAuto] (initialWorld JsMap.empty))))
    !! "auto.json"%string = Some 0%nat /\
  forall q k filter,
    fst (similaritySearch 0 q k filter
           (snd (add 0 (inl "a") (run byteLength [newAuto] (initialWorld JsMap.empty)))))
    = Suspended.
Proof.
  assert (H1 : getThis 0 (run byteLength [newAuto] (initialWorld JsMap.empty)) = Normal auto)
    by reflexivity.
  assert (H2 : autoSave (options auto) = true) by reflexivity.
  assert (H3 : storagePath (options auto) <> ""%string) by discriminate.
  assert (H4 : vectorParser auto (content (asDocument textA)) =
               Normal (JsArray [JsNumber 1; JsNumber 1])) by reflexivity.
  repeat (split; [assumption|]).
  destruct (autosave_add_defers_search byteLength JsMap.empty [newAuto] 0 auto
              textA _ H1 H2 H3 H4) as (Htimer & Hwait & _).
  split; [exact Htimer|].
  intros q k filter. exact (f_equal fst (Hwait q k filter)).
Defined.

Lemma save_promise_resolves_when_timer_fires_witness :
  fst (save 0 (run byteLength runDirty (initialWorld JsMap.empty))) =
    Normal (LockPromise 1) /\
  isResolved 1 (snd (save 0 (run byteLength runDirty (initialWorld JsMap.empty)))) = false /\
  isResolved 1
    (fireTimer byteLength "vectors.json"
       (snd (save 0 (run byteLength runDirty (initialWorld JsMap.empty))))) = true.
Proof.
  assert (H1 : fst (save 0 (run byteLength runDirty (initialWorld JsMap.empty))) =
               Normal (LockPromise 1)) by reflexivity.
  split; [exact H1|].
  destruct (save_promise_resolves_when_timer_fires byteLength JsMap.empty runDirty 0 1 H1)
    as (this & Hthis & _ & Hpending & Hdone).
  assert (H : getThis 0 (run byteLength runDirty (initialWorld JsMap.empty)) = Normal first)
    by reflexivity.
  pose proof (eq_trans (eq_sym Hthis) H) as Heq. injection Heq as ->.
  split; [exact Hpending | exact Hdone].
Defined.

Lemma superseded_save_promise_is_never_resolved_witness :
  fst (save 0 (run byteLength runDirty (initialWorld JsMap.empty))) =
    Normal (LockPromise 1) /\
  forall later,
    isResolved 1
      (run byteLength later
         (snd (save 0 (snd (save 0 (run byteLength runDirty (initialWorld JsMap.empty)))))))
    = false.
Proof.
  assert (H1 : fst (save 0 (run byteLength runDirty (initialWorld JsMap.empty))) =
               Normal (LockPromise 1)) by reflexivity.
  split; [exact H1|].
  destruct (superseded_save_promise_is_never_resolved byteLength JsMap.empty runDirty 0 1 H1)
    as (p2 & _ & _ & Hnever).
  exact Hnever.
Defined.

Lemma shared_path_timer_releases_only_the_last_saver_witness :
  (0 <> 1)%nat /\
  getThis 0 (run byteLength runShared (initialWorld JsMap.empty)) = Normal first /\
  getThis 1 (run byteLength runShared (initialWorld JsMap.empty)) = Normal second /\
  storagePath (options second) = storagePath (options first) /\
  fst (save 0 (run byteLength runShared (initialWorld JsMap.empty))) =
    Normal (LockPromise 2) /\
  forall q k filter,
    fst (similaritySearch 0 q k filter
           (fireTimer byteLength "vectors.json"
              (snd (save 1 (snd (save 0 (run byteLength runShared
                                           (initialWorld JsMap.empty))))))))
    = Suspended.
Proof.
  assert (H0 : (0 <> 1)%nat) by discriminate.
  assert (H1 : getThis 0 (run byteLength runShared (initialWorld JsMap.empty)) = Normal first)
    by reflexivity.
  assert (H2 : getThis 1 (run byteLength runShared (initialWorld JsMap.empty)) = Normal second)
    by reflexivity.
  assert (H3 : storagePath (options second) = storagePath (options first)) by reflexivity.
  assert (H4 : fst (save 0 (run byteLength runShared (initialWorld JsMap.empty))) =
               Normal (LockPromise 2)) by reflexivity.
  repeat (split; [assumption|]).
  destruct (shared_path_timer_releases_only_the_last_saver byteLength JsMap.empty runShared
              0 1 first second 2 H0 H1 H2 H3 H4) as (p2 & _ & _ & _ & Hwait & _).
  intros q k filter. exact (f_equal fst (Hwait q k filter)).
Defined.

Lemma storage_is_written_only_when_a_timer_fires_witness :
  forallb (fun call => negb (isTimerFires call))
    [CallAdd 0 textX; CallSave 0 : @Call Meta Disk] = true /\
  disk (run byteLength [CallAdd 0 textX; CallSave 0] world3) = disk world3.
Proof.
  assert (H : forallb (fun call => negb (isTimerFires call))
                [CallAdd 0 textX; CallSave 0 : @Call Meta Disk] = true) by reflexivity.
  split; [exact H|].
  exact (proj1 (proj2 (storage_is_written_only_when_a_timer_fires byteLength
                         [CallAdd 0 textX; CallSave 0] world3) H)).
Defined.

Lemma save_task_outcome_witness :
  getThis 0 worldFullDisk = Normal onFullDisk /\
  thisCache onFullDisk worldFullDisk = Normal stateFullDisk /\
  JsMap.wf (store stateFullDisk) /\
  disk worldFullDisk = ∅ /\
  isResolved (wait (saveLock onFullDisk)) (saveTask byteLength 0 worldFullDisk) = true /\
  disk (saveTask byteLength 0 worldFullDisk) = <["data"%string := "<dir>"%string]> ∅ /\
  exists c',
    thisCache onFullDisk (saveTask byteLength 0 worldFullDisk) = Normal c' /\
    dirty c' = true.
Proof.
  assert (H1 : getThis 0 worldFullDisk = Normal onFullDisk) by reflexivity.
  assert (H2 : thisCache onFullDisk worldFullDisk = Normal stateFullDisk) by reflexivity.
  assert (H3 : JsMap.wf (store stateFullDisk)) by apply NoDup_nil_2.
  assert (H4 : disk worldFullDisk = ∅) by reflexivity.
  repeat (split; [assumption|]).
  destruct (save_task_outcome byteLength 0 worldFullDisk onFullDisk stateFullDisk H1 H2 H3)
    as [Hlock [[(k & e & Hthrow) _] | (k & _ & Hdisk & c' & Hc' & _ & Hflag)]].
  - discriminate Hthrow.
  - change (map serializeItem (JsMap.entries (store stateFullDisk)))
      with (@nil Record_) in Hdisk, Hflag.
    rewrite drop_nil in Hdisk, Hflag.
    split; [exact Hlock|]. split; [exact Hdisk|]. exists c'. split; [exact Hc' | exact Hflag].
Defined.

Lemma memoryProvider_reads_back : readsBackWhatItWrote memoryProvider.
Proof.
  intros key data d d'. simpl. intros [= <-]. unfold JsMap.has.
  now rewrite JsMapFacts.get_set_eq.
Qed.

Lemma saved_store_is_loaded_by_a_new_process_witness :
  getThis 0 world3 = Normal first /\
  thisCache first world3 = Normal state3 /\
  JsMap.wf (store state3) /\
  dirty state3 = true /\
  readsBackWhatItWrote (storageProvider first) /\
  storagePath (options first) <> ""%string /\
  storagePath (optionsFor "vectors.json" false 1) = Some (storagePath (options first)) /\
  thisCache first (saveTask byteLength 0 world3) = Normal state3Saved /\
  dirty state3Saved = false /\
  getAll 0 (snd (newVectorStore lengthParser memoryProvider (optionsFor "vectors.json" false 1)
                   (initialWorld (disk (saveTask byteLength 0 world3)))))
    = Normal [doc "a" None; doc "bb" None; doc "ccc" None].
Proof.
  assert (H1 : getThis 0 world3 = Normal first) by reflexivity.
  assert (H2 : thisCache first world3 = Normal state3) by reflexivity.
  pose proof state3_wf as H3.
  assert (H4 : dirty state3 = true) by reflexivity.
  assert (H5 : readsBackWhatItWrote (storageProvider first)) by exact memoryProvider_reads_back.
  assert (H6 : storagePath (options first) <> ""%string) by discriminate.
  assert (H7 : storagePath (optionsFor "vectors.json" false 1) =
               Some (storagePath (options first))) by reflexivity.
  assert (H8 : thisCache first (saveTask byteLength 0 world3) = Normal state3Saved)
    by reflexivity.
  assert (H9 : dirty state3Saved = false) by reflexivity.
  repeat (split; [assumption|]).
  exact (proj1 (saved_store_is_loaded_by_a_new_process byteLength 0 world3 first state3
                  state3Saved lengthParser (optionsFor "vectors.json" false 1)
                  H1 H2 H3 H4 H5 H6 H7 H8 H9)).
Defined.

Lemma constructor_starts_empty_when_nothing_loads_witness :
  default "default"%string (storagePath (optionsFor "" false 1)) = ""%string /\
  globalCache world0 !! ""%string = None /\
  count 0 (snd (newVectorStore lengthParser memoryProvider (optionsFor "" false 1) world0))
    = Normal 0%nat /\
  trace (snd (newVectorStore lengthParser memoryProvider (optionsFor "" false 1) world0))
    = trace world0.
Proof.
  assert (H1 : default "default"%string (storagePath (optionsFor "" false 1)) = ""%string)
    by reflexivity.
  assert (H2 : globalCache world0 !! ""%string = None) by reflexivity.
  repeat (split; [assumption|]).
  destruct (constructor_starts_empty_when_nothing_loads lengthParser memoryProvider
              (optionsFor "" false 1) world0 "" H1 H2 (or_introl eq_refl))
    as (_ & Hcount & _ & _ & Htrace).
  split; [exact Hcount | exact (Htrace eq_refl)].
Defined.

Lemma calls_touch_their_own_path_only_witness :
  pathOf (CallAdd 0 (inl "bb")) (run byteLength runDirty (initialWorld JsMap.empty))
    <> Some "other.json"%string /\
  globalCache (step byteLength (CallAdd 0 (inl "bb"))
                 (run byteLength runDirty (initialWorld JsMap.empty))) !! "other.json"%string
  = globalCache (run byteLength runDirty (initialWorld JsMap.empty)) !! "other.json"%string.
Proof.
  assert (H : pathOf (CallAdd 0 (inl "bb"))
                (run byteLength runDirty (initialWorld JsMap.empty))
              <> Some "other.json"%string).
  { assert (E : pathOf (CallAdd 0 (inl "bb"))
                  (run byteLength runDirty (initialWorld JsMap.empty))
                = Some "vectors.json"%string) by reflexivity.
    rewrite E. discriminate. }
  split; [exact H|].
  exact (proj1 (calls_touch_their_own_path_only byteLength JsMap.empty runDirty
                  (CallAdd 0 (inl "bb")) "other.json" H)).
Defined.

Lemma memoryVectorStore_clamps_the_size_limit_witness :
  is_nan (numberOf (spread 500 (given_maxFileSizeMB (default noOptions (Some tooLarge)))))
    = false /\
  exists this,
    getThis (fst (memoryVectorStore "/srv/node_modules/__mvsl__/data.json" memoryProvider
                    lengthParser (Some tooLarge) world0))
            (snd (memoryVectorStore "/srv/node_modules/__mvsl__/data.json" memoryProvider
                    lengthParser (Some tooLarge) world0)) = Normal this /\
    (maxFileSizeMB (options this) <=? 1000) = true.
Proof.
  assert (H : is_nan (numberOf (spread 500
                (given_maxFileSizeMB (default noOptions (Some tooLarge))))) = false)
    by reflexivity.
  split; [exact H|].
  destruct (memoryVectorStore_clamps_the_size_limit "/srv/node_modules/__mvsl__/data.json"
              memoryProvider lengthParser (Some tooLarge) world0)
    as (this & Hthis & Hnumber & _).
  exists this. split; [exact Hthis|].
  exact (proj1 (proj2 (Hnumber H))).
Defined.

Lemma browserMemoryVectorStore_clamps_the_size_limit_witness :
  is_nan (numberOf (spread 3 (given_maxFileSizeMB (default noOptions (Some noLimit)))))
    = true /\
  exists this,
    getThis (fst (browserMemoryVectorStore memoryProvider lengthParser (Some noLimit) world0))
            (snd (browserMemoryVectorStore memoryProvider lengthParser (Some noLimit) world0))
      = Normal this /\
    maxSizeBytes (options this) = 500 * 1024 * 1024.
Proof.
  assert (H : is_nan (numberOf (spread 3
                (given_maxFileSizeMB (default noOptions (Some noLimit))))) = true)
    by reflexivity.
  split; [exact H|].
  destruct (browserMemoryVectorStore_clamps_the_size_limit memoryProvider lengthParser
              (Some noLimit) world0)
    as (this & Hthis & _ & Hnan & _).
  exists this. split; [exact Hthis | exact (Hnan H)].
Defined.

Lemma BrowserStorageProvider_reads_back_what_it_wrote_witness :
  stringifyEmpty [] = Normal "[]"%string /\
  "[]"%string <> ""%string /\
  provider_save (BrowserStorageProvider stringifyEmpty parseEmpty roomy) "k" [] ∅
    = (Normal tt, <["k"%string := "[]"%string]> ∅) /\
  provider_load (BrowserStorageProvider stringifyEmpty parseEmpty roomy) "k"
    (<["k"%string := "[]"%string]> ∅) = Normal [].
Proof.
  assert (H1 : stringifyEmpty [] = Normal "[]"%string) by reflexivity.
  assert (H2 : "[]"%string <> ""%string) by discriminate.
  assert (H3 : provider_save (BrowserStorageProvider stringifyEmpty parseEmpty roomy)
                 "k" [] ∅ = (Normal tt, <["k"%string := "[]"%string]> ∅)) by reflexivity.
  repeat (split; [assumption|]).
  destruct (BrowserStorageProvider_reads_back_what_it_wrote stringifyEmpty parseEmpty roomy
              "k" [] "[]" ∅ H1 H2) as [Hsaved _].
  exact (proj1 (proj2 (Hsaved _ H3))).
Defined.

Lemma flatFs_writesAreRead : writesAreRead flatFs.
Proof.
  intros path text disk disk'. simpl. intros [= <-].
  rewrite lookup_insert_eq. split; [|reflexivity].
  apply orb_true_iff. right. apply bool_decide_eq_true. eauto.
Qed.

Lemma NodeStorageProvider_reads_back_what_it_wrote_witness :
  writesAreRead flatFs /\
  stringifyEmpty [] = Normal "[]"%string /\
  "[]"%string <> ""%string /\
  provider_save (NodeStorageProvider stringifyEmpty parseEmpty flatFs) "data.json" [] ∅
    = (Normal tt, <["data.json"%string := "[]"%string]> ∅) /\
  provider_load (NodeStorageProvider stringifyEmpty parseEmpty flatFs) "data.json"
    (<["data.json"%string := "[]"%string]> ∅) = Normal [].
Proof.
  pose proof flatFs_writesAreRead as H0.
  assert (H1 : stringifyEmpty [] = Normal "[]"%string) by reflexivity.
  assert (H2 : "[]"%string <> ""%string) by discriminate.
  assert (H3 : provider_save (NodeStorageProvider stringifyEmpty parseEmpty flatFs)
                 "data.json" [] ∅ = (Normal tt, <["data.json"%string := "[]"%string]> ∅))
    by reflexivity.
  repeat (split; [assumption|]).
  destruct (NodeStorageProvider_reads_back_what_it_wrote stringifyEmpty parseEmpty flatFs
              "data.json" [] "[]" ∅ H0 H1 H2) as [Hsaved _].
  exact (proj1 (proj2 (Hsaved _ H3))).
Defined.

Lemma load_keeps_the_last_record_of_each_content_witness :
  storagePath (options (instanceFor lengthParser "twice.json" false 1)) <> ""%string /\
  provider_exists memoryProvider "twice.json" (disk worldTwice) = Normal true /\
  provider_load memoryProvider "twice.json" (disk worldTwice)
    = Normal recordsTwice /\
  JsMap.get
    (fst (load memoryProvider (options (instanceFor lengthParser "twice.json" false 1))
            worldTwice)) "a"
    = Some {| e_metadata := Some "later"%string; e_vector := [JsNumber 3] |} /\
  JsMap.get
    (fst (load memoryProvider (options (instanceFor lengthParser "twice.json" false 1))
            worldTwice)) "c" = None.
Proof.
  assert (H1 : storagePath (options (instanceFor lengthParser "twice.json" false 1))
               <> ""%string) by discriminate.
  assert (H2 : provider_exists memoryProvider
                 (storagePath (options (instanceFor lengthParser "twice.json" false 1)))
                 (disk worldTwice) = Normal true) by reflexivity.
  assert (H3 : provider_load memoryProvider
                 (storagePath (options (instanceFor lengthParser "twice.json" false 1)))
                 (disk worldTwice) = Normal recordsTwice) by reflexivity.
  repeat (split; [assumption|]).
  destruct (load_keeps_the_last_record_of_each_content memoryProvider
              (options (instanceFor lengthParser "twice.json" false 1))
              worldTwice recordsTwice H1 H2 H3) as (_ & Hlast & Hnone).
  split.
  - apply (Hlast [("a"%string, [JsNumber 1], None); ("b"%string, [JsNumber 2], None)]
             ("a"%string, [JsNumber 3], Some "later"%string) []); [reflexivity|].
    intros [].
  - apply Hnone. simpl. intros [H|[H|[H|[]]]]; discriminate.
Defined.

Lemma autosaved_add_reaches_the_storage_witness :
  getThis 0 (run byteLength [newAuto] (initialWorld JsMap.empty)) = Normal auto /\
  autoSave (options auto) = true /\
  storagePath (options auto) <> ""%string /\
  vectorParser auto "a" = Normal (JsArray [JsNumber 1; JsNumber 1]) /\
  readsBackWhatItWrote (storageProvider auto) /\
  storagePath (optionsFor "auto.json" true 1) = Some (storagePath (options auto)) /\
  thisCache auto (fireTimer byteLength "auto.json" worldAuto) = Normal stateAutoSaved /\
  dirty stateAutoSaved = false /\
  getAll 0 (snd (newVectorStore lengthParser memoryProvider (optionsFor "auto.json" true 1)
                   (initialWorld (disk (fireTimer byteLength "auto.json" worldAuto)))))
    = getAll 0 (fireTimer byteLength "auto.json" worldAuto).
Proof.
  assert (H1 : getThis 0 (run byteLength [newAuto] (initialWorld JsMap.empty)) = Normal auto)
    by reflexivity.
  assert (H2 : autoSave (options auto) = true) by reflexivity.
  assert (H3 : storagePath (options auto) <> ""%string) by discriminate.
  assert (H4 : vectorParser auto (content (asDocument textA)) =
               Normal (JsArray [JsNumber 1; JsNumber 1])) by reflexivity.
  assert (H5 : readsBackWhatItWrote (storageProvider auto)) by exact memoryProvider_reads_back.
  assert (H6 : storagePath (optionsFor "auto.json" true 1) = Some (storagePath (options auto)))
    by reflexivity.
  assert (H7 : thisCache auto (fireTimer byteLength "auto.json" worldAuto)
               = Normal stateAutoSaved) by reflexivity.
  assert (H8 : dirty stateAutoSaved = false) by reflexivity.
  repeat (split; [assumption|]).
  exact (proj1 (autosaved_add_reaches_the_storage byteLength JsMap.empty [newAuto] 0 auto
                  textA _ stateAutoSaved lengthParser (optionsFor "auto.json" true 1)
                  H1 H2 H3 H4 H5 H6 H7 H8)).
Defined.

Lemma similaritySearch_with_infinite_k_witness :
  getThis 0 world3 = Normal first /\
  thisCache first world3 = Normal state3 /\
  isResolved (wait (saveLock first)) world3 = true /\
  queryResolvesTo first state3 "a" [JsNumber 1; JsNumber 1] /\
  (exists results,
     fst (similaritySearch 0 "a" (Some infinity) None world3) = Settled (Normal results) /\
     length results = 3%nat) /\
  fst (similaritySearch 0 "a" (Some neg_infinity) None world3) = Settled (Normal []).
Proof.
  assert (H1 : getThis 0 world3 = Normal first) by reflexivity.
  assert (H2 : thisCache first world3 = Normal state3) by reflexivity.
  assert (H3 : isResolved (wait (saveLock first)) world3 = true) by reflexivity.
  assert (H4 : queryResolvesTo first state3 "a" [JsNumber 1; JsNumber 1]) by reflexivity.
  repeat (split; [assumption|]).
  destruct (similaritySearch_with_infinite_k 0 world3 first state3 "a"
              [JsNumber 1; JsNumber 1] None H1 H2 H3 H4) as (_ & Hall & Hnone).
  split; [exact Hall | exact Hnone].
Defined.
